(** * Spotlight video pipeline: geometry, bitrate targeting, process runner,
      size enforcement and cleanup of [video.py]

    The development has three parts.  The first embeds the program: the Python
    numbers it computes with (arbitrary-precision [int], binary64 [float]),
    the geometry step of [process_videos_in_folder], [calculate_target_bitrate],
    [format_time], [display_progress], [run_ffmpeg_with_progress],
    [check_hardware_encoders],
    [reencode_to_target_size], [enforce_size_limit] and the processing of one
    file, over an explicit world of files, temporary directories and child
    processes, and further [get_video_files], [display_video_menu] and the
    loop over the files.  The second part states
    and proves the properties of the specification, the third further
    properties of the program. *)

From Stdlib Require Import ZArith QArith Qround Qabs Qpower Lia Lqa Bool List String Ascii.
From Stdlib Require Import SpecFloat DecimalString Sorted Permutation.
Import ListNotations.

(** * Part I: the program *)

(** ** Rounding to binary64

    A finite [float] is the rational it denotes.  [rne] rounds a rational to
    the nearest binary64 value, ties to even, with gradual underflow and no
    bound on the exponent from above; overflow is decided by the callers. *)

Module Binary64.
Local Open Scope Q_scope.

Definition pow2 (e : Z) : Q := 2 ^ e.

(** The integer [k] with [2^k <= x < 2^(k+1)], for positive [x]. *)
Definition ilog2 (x : Q) : Z :=
  let k := (Z.log2 (Qnum x) - Z.log2 (Zpos (Qden x)))%Z in
  if Qle_bool (pow2 k) x then k else (k - 1)%Z.

(** Rounding to the nearest integer, ties to even: Python's [round] on a float. *)
Definition round_half_even (x : Q) : Z :=
  let f := Qfloor x in
  match Qcompare (x - inject_Z f) (1 # 2) with
  | Lt => f
  | Gt => (f + 1)%Z
  | Eq => if Z.even f then f else (f + 1)%Z
  end.

(** The exponent of the last place: 53 significant bits, least exponent -1074. *)
Definition fexp (x : Q) : Z := Z.max (ilog2 x - 52) (-1074).

Definition rne_pos (x : Q) : Q :=
  Qred (inject_Z (round_half_even (x / pow2 (fexp x))) * pow2 (fexp x)).

Definition rne (x : Q) : Q :=
  match x ?= 0 with
  | Eq => 0
  | Gt => rne_pos x
  | Lt => - rne_pos (- x)
  end.

(** The unit roundoff. *)
Definition u53 : Q := pow2 (-53).

End Binary64.

(** The same operations as the Standard Library specifies them for IEEE 754
    ([SpecFloat], precision 53, [emax] 1024), read back as rationals; used
    below to check [rne] on sample operands. *)
Module Reference.
Import Binary64.

Definition SF2Q (x : spec_float) : option Q :=
  match x with
  | S754_zero _ => Some 0%Q
  | S754_finite s m e =>
      Some ((if s then -1 else 1) * inject_Z (Zpos m) * pow2 e)%Q
  | _ => None
  end.

(** The operand [m * 2^e]. *)
Definition operand (me : Z * Z) : spec_float :=
  binary_normalize 53 1024 (fst me) (snd me) false.

Definition value (me : Z * Z) : Q := (inject_Z (fst me) * pow2 (snd me))%Q.

Definition agrees (op : spec_float -> spec_float -> spec_float) (exact : Q -> Q -> Q)
           (ab : (Z * Z) * (Z * Z)) : bool :=
  match SF2Q (op (operand (fst ab)) (operand (snd ab))) with
  | Some q => Qeq_bool q (rne (exact (value (fst ab)) (value (snd ab))))
  | None => false
  end.

Definition products : list ((Z * Z) * (Z * Z)) :=
  [((1, -1074), (3, -2)); ((1, -1074), (1, -1)); ((3, -1074), (1, -1));
   ((5, -1074), (1, -1)); ((7, -1074), (1, -2));
   ((9007199254740991, 0), (9007199254740991, 0)); ((9007199254740991, -1074), (3, -3));
   ((410, 0), (5404319552844595, -52)); ((12345677, -27), (5404319552844595, -52));
   ((6004799503160661, -54), (3, 0)); ((4503599627370497, -1000), (3, -100));
   ((-7, 3), (5404319552844595, -52)); ((306, 0), (6405119470038039, -60))]%Z.

Definition quotients : list ((Z * Z) * (Z * Z)) :=
  [((1, 0), (3, 0)); ((37, 0), (50, 0)); ((16, 0), (360, 0)); ((2, 0), (360, 0));
   ((72366080, 0), (60, 0)); ((1, -1000), (3, 70)); ((1, -1000), (3, 74));
   ((7, -1000), (3, 75)); ((1, -1022), (3, 0)); ((-1, -1022), (7, 40));
   ((4503599627370497, 0), (4503599627370495, 0)); ((1279, 0), (719, 0));
   ((400, 0), (3, -2)); ((1640, 0), (3, 0))]%Z.

Definition differences : list ((Z * Z) * (Z * Z)) :=
  [((1, 0), (3, -60)); ((6665327448508334, -53), (3, -2)); ((1, -1074), (1, -1074));
   ((9007199254740991, 0), (1, -1)); ((9007199254740991, 0), (-1, -1));
   ((9007199254740991, 1), (-3, -1))]%Z.

End Reference.

(** ** Python values: exceptions, [float], numbers *)

Inductive exn :=
| ZeroDivisionError
| OverflowError
| ValueError
| KeyboardInterrupt
| FileNotFoundError
| OtherError.

(** [KeyboardInterrupt] is not an [Exception]: [except Exception] lets it pass. *)
Definition is_Exception (e : exn) : bool :=
  match e with
  | KeyboardInterrupt => false
  | _ => true
  end.

Inductive result (A : Type) : Type :=
| Ok (a : A)
| Raise (e : exn).
Arguments Ok {A} a.
Arguments Raise {A} e.

Definition bind {A B} (c : result A) (k : A -> result B) : result B :=
  match c with
  | Ok a => k a
  | Raise e => Raise e
  end.

Declare Scope py_scope.
Delimit Scope py_scope with py.
Notation "x <- c ;; k" := (bind c (fun x => k))
  (at level 61, c at next level, right associativity) : py_scope.
Notation "' p <- c ;; k" := (bind c (fun x => let p := x in k))
  (at level 61, p pattern, c at next level, right associativity) : py_scope.

Module Py.
Import Binary64.
Local Open Scope py_scope.

(** A [float]: a finite binary64 value, an infinity or a NaN.  The sign of
    zero is not kept; nothing in the program observes it. *)
Inductive pyfloat :=
| Fin (q : Q)
| Inf (neg : bool)
| NaN.

Definition overflows (y : Q) : bool := Qle_bool (pow2 1024) (Qabs y).
Definition is_neg (y : Q) : bool := negb (Qle_bool 0 y).

(** The correctly rounded result of an operation; overflow gives an infinity. *)
Definition round_float (x : Q) : pyfloat :=
  let y := rne x in
  if overflows y then Inf (is_neg y) else Fin y.

(** A decimal literal of the source such as [1.2] or [0.01]. *)
Definition float_lit (x : Q) : pyfloat := round_float x.

Definition fmul (a b : pyfloat) : pyfloat :=
  match a, b with
  | Fin x, Fin y => round_float (x * y)
  | Fin x, Inf s | Inf s, Fin x =>
      if Qeq_bool x 0 then NaN else Inf (xorb s (is_neg x))
  | Inf s, Inf t => Inf (xorb s t)
  | _, _ => NaN
  end.

Definition fadd (a b : pyfloat) : pyfloat :=
  match a, b with
  | Fin x, Fin y => round_float (x + y)
  | Fin _, Inf s | Inf s, Fin _ => Inf s
  | Inf s, Inf t => if Bool.eqb s t then Inf s else NaN
  | _, _ => NaN
  end.

Definition fsub (a b : pyfloat) : pyfloat :=
  match a, b with
  | Fin x, Fin y => round_float (x - y)
  | Fin _, Inf s => Inf (negb s)
  | Inf s, Fin _ => Inf s
  | Inf s, Inf t => if Bool.eqb s t then NaN else Inf s
  | _, _ => NaN
  end.

(** Float division raises on a zero divisor and is silent on overflow. *)
Definition fdiv (a b : pyfloat) : result pyfloat :=
  match a, b with
  | _, Fin y =>
      if Qeq_bool y 0 then Raise ZeroDivisionError
      else match a with
           | Fin x => Ok (round_float (x / y))
           | Inf s => Ok (Inf (xorb s (is_neg y)))
           | NaN => Ok NaN
           end
  | Fin x, Inf _ => Ok (Fin 0)
  | Inf _, Inf _ => Ok NaN
  | _, _ => Ok NaN
  end.

Definition fabs (a : pyfloat) : pyfloat :=
  match a with
  | Fin x => Fin (Qabs x)
  | Inf _ => Inf false
  | NaN => NaN
  end.

Definition flt (a b : pyfloat) : bool :=
  match a, b with
  | Fin x, Fin y => negb (Qle_bool y x)
  | Fin _, Inf s => negb s
  | Inf s, Fin _ => s
  | Inf s, Inf t => s && negb t
  | _, _ => false
  end.

Definition fgt (a b : pyfloat) : bool := flt b a.

Definition fle (a b : pyfloat) : bool :=
  match a, b with
  | Fin x, Fin y => Qle_bool x y
  | Fin _, Inf s => negb s
  | Inf s, Fin _ => s
  | Inf s, Inf t => s || negb t
  | _, _ => false
  end.

(** [float(z)] for an int, as the mixed operations apply it. *)
Definition float_of_int (z : Z) : result pyfloat :=
  let y := rne (inject_Z z) in
  if overflows y then Raise OverflowError else Ok (Fin y).

(** [a / b] on two ints: the correctly rounded quotient. *)
Definition int_truediv (a b : Z) : result pyfloat :=
  if (b =? 0)%Z then Raise ZeroDivisionError
  else
    let y := rne (inject_Z a / inject_Z b) in
    if overflows y then Raise OverflowError else Ok (Fin y).

(** Truncation toward zero. *)
Definition trunc (x : Q) : Z := if Qle_bool 0 x then Qfloor x else Qceiling x.

(** [int(x)] on a float *)
Definition py_int (a : pyfloat) : result Z :=
  match a with
  | Fin x => Ok (trunc x)
  | Inf _ => Raise OverflowError
  | NaN => Raise ValueError
  end.

(** [round(x)] on a float *)
Definition py_round (a : pyfloat) : result Z :=
  match a with
  | Fin x => Ok (round_half_even x)
  | Inf _ => Raise OverflowError
  | NaN => Raise ValueError
  end.

Definition int_mul_float (z : Z) (f : pyfloat) : result pyfloat :=
  x <- float_of_int z ;; Ok (fmul x f).

Definition int_div_float (z : Z) (f : pyfloat) : result pyfloat :=
  x <- float_of_int z ;; fdiv x f.

Definition float_div_int (f : pyfloat) (z : Z) : result pyfloat :=
  y <- float_of_int z ;; fdiv f y.

(** A number is an [int] or a [float]; arithmetic on two ints is exact,
    anything else converts the int operand and works in binary64. *)
Inductive num :=
| Int (z : Z)
| Float (f : pyfloat).

Definition to_float (a : num) : result pyfloat :=
  match a with
  | Int z => float_of_int z
  | Float f => Ok f
  end.

Definition num_mul (a b : num) : result num :=
  match a, b with
  | Int x, Int y => Ok (Int (x * y))
  | _, _ => x <- to_float a ;; y <- to_float b ;; Ok (Float (fmul x y))
  end.

Definition num_add (a b : num) : result num :=
  match a, b with
  | Int x, Int y => Ok (Int (x + y))
  | _, _ => x <- to_float a ;; y <- to_float b ;; Ok (Float (fadd x y))
  end.

Definition num_sub (a b : num) : result num :=
  match a, b with
  | Int x, Int y => Ok (Int (x - y))
  | _, _ => x <- to_float a ;; y <- to_float b ;; Ok (Float (fsub x y))
  end.

Definition num_truediv (a b : num) : result num :=
  match a, b with
  | Int x, Int y => f <- int_truediv x y ;; Ok (Float f)
  | _, _ => x <- to_float a ;; y <- to_float b ;; f <- fdiv x y ;; Ok (Float f)
  end.

(** Comparisons between an int and a float are exact. *)
Definition as_float_exact (a : num) : pyfloat :=
  match a with
  | Int z => Fin (inject_Z z)
  | Float f => f
  end.

Definition num_lt (a b : num) : bool := flt (as_float_exact a) (as_float_exact b).
Definition num_le (a b : num) : bool := fle (as_float_exact a) (as_float_exact b).
Definition num_gt (a b : num) : bool := num_lt b a.
Definition num_ge (a b : num) : bool := num_le b a.

(** [min(a, b)] and [max(a, b)] keep the first argument unless the second
    is strictly smaller (larger). *)
Definition py_min (a b : num) : num := if num_lt b a then b else a.
Definition py_max (a b : num) : num := if num_gt b a then b else a.

(** [int(a)] *)
Definition num_int (a : num) : result Z :=
  match a with
  | Int z => Ok z
  | Float f => py_int f
  end.

End Py.

Import Py.
Local Open Scope py_scope.
Local Open Scope string_scope.
Local Open Scope Z_scope.

(** ** The geometry step of [process_videos_in_folder] (lines 788-843) *)

Record GeometryPlan := {
  crop_width : Z; crop_height : Z; crop_x : Z; crop_y : Z;
  radius : Z; border_size : Z;
  canvas_width : Z; canvas_height : Z;
  paste_x : Z; paste_y : Z }.

(** [n if n % 2 == 0 else n - 1] *)
Definition force_even (n : Z) : Z := if n mod 2 =? 0 then n else n - 1.

(** The crop before the dimensions are made even:
    [(crop_width, crop_height, crop_x, crop_y)]. *)
Definition plan_crop (original_width original_height : Z) : result (Z * Z * Z * Z) :=
  target_ratio <- int_truediv 3 4 ;;
  video_ratio <- int_truediv original_width original_height ;;
  if flt (fabs (fsub video_ratio target_ratio)) (float_lit (1 # 100)) then
    Ok (original_width, original_height, 0, 0)
  else if fgt video_ratio target_ratio then
    x <- int_mul_float original_height target_ratio ;;
    crop_width <- py_int x ;;
    Ok (crop_width, original_height, (original_width - crop_width) / 2, 0)
  else
    x <- int_div_float original_width target_ratio ;;
    crop_height <- py_int x ;;
    Ok (original_width, crop_height, 0, 0).

(** The canvas before its dimensions are made even. *)
Definition plan_canvas (crop_width crop_height border_size : Z) : result (Z * Z) :=
  target_height <- int_mul_float crop_height (float_lit (12 # 10)) ;;
  q <- float_div_int target_height 4 ;;
  r <- py_round q ;;
  let canvas_height := r * 4 in
  let canvas_width := (canvas_height / 4) * 3 in
  let content_width := crop_width + border_size * 2 in
  if canvas_width <? content_width then
    w <- int_truediv (content_width * 4) 3 ;;
    q <- float_div_int w 4 ;;
    r <- py_round q ;;
    Ok (content_width, r * 4)
  else Ok (canvas_width, canvas_height).

Definition plan_geometry (original_width original_height : Z) : result GeometryPlan :=
  '(crop_width, crop_height, crop_x, crop_y) <- plan_crop original_width original_height ;;
  let crop_width := force_even crop_width in
  let crop_height := force_even crop_height in
  c <- int_truediv 16 360 ;;
  x <- int_mul_float crop_width c ;;
  radius <- py_int x ;;
  c <- int_truediv 2 360 ;;
  x <- int_mul_float crop_width c ;;
  r <- py_round x ;;
  let border_size := Z.max 1 r in
  '(canvas_width, canvas_height) <- plan_canvas crop_width crop_height border_size ;;
  let canvas_width := force_even canvas_width in
  let canvas_height := force_even canvas_height in
  let paste_x := (canvas_width - (crop_width + border_size * 2)) / 2 in
  Ok {| crop_width := crop_width; crop_height := crop_height;
        crop_x := crop_x; crop_y := crop_y;
        radius := radius; border_size := border_size;
        canvas_width := canvas_width; canvas_height := canvas_height;
        paste_x := paste_x; paste_y := 0 |}.

(** The canvas rule in the words of the specification, over exact rationals;
    [round] is rounding to the nearest integer. *)
Definition spec_canvas (cropWidth cropHeight borderThickness : Z) : Z * Z :=
  let canvasHeight := Binary64.round_half_even (inject_Z cropHeight * (12 # 10) / 4) * 4 in
  let canvasWidth := canvasHeight / 4 * 3 in
  if canvasWidth <? cropWidth + 2 * borderThickness then
    let canvasWidth := cropWidth + 2 * borderThickness in
    (canvasWidth, Binary64.round_half_even (inject_Z canvasWidth * 4 / 3 / 4) * 4)
  else (canvasWidth, canvasHeight).

(** ** Bitrate targeting *)

Definition calculate_target_bitrate (duration target_size_mb audio_bitrate_kbps : num)
  : result num :=
  if num_le duration (Int 0) then Ok (Int 2000)
  else
    t <- num_mul target_size_mb (Int 8) ;;
    t <- num_mul t (Int 1024) ;;
    target_bits <- num_mul t (Int 1024) ;;
    a <- num_mul audio_bitrate_kbps (Int 1000) ;;
    audio_bits <- num_mul a duration ;;
    video_bits <- num_sub target_bits audio_bits ;;
    let safety_margin := Float (float_lit (90 # 100)) in
    q <- num_truediv video_bits duration ;;
    q <- num_truediv q (Int 1000) ;;
    target_video_bitrate_kbps <- num_mul q safety_margin ;;
    let min_bitrate := Int 500 in
    let max_bitrate := Int 5000 in
    Ok (py_max min_bitrate (py_min max_bitrate target_video_bitrate_kbps)).

(** The [duration] entry of [get_video_info], [float(stream.get('duration', 0))];
    the field is the decimal number ffprobe printed, when it printed one. *)
Definition probe_duration (field : option Q) : pyfloat :=
  match field with
  | Some q => round_float q
  | None => Fin 0
  end.

(** The formula of the bitrate example, evaluated in exact arithmetic. *)
Definition bitrate_formula_60_10_192 : Q :=
  ((10 * 8 * 1024 * 1024 - 192000 * 60) / 60 / 1000 * (90 # 100))%Q.

(** ** Formatting a duration: [format_time] (lines 477-491) *)

(** C's [fmod]: the remainder of [x / w] that has the sign of [x]; it is
    exact. *)
Definition fmod (x w : Q) : Q := (x - w * inject_Z (trunc (x / w)))%Q.

(** [a % b] on two floats, as CPython's [float_rem] computes it: [fmod], then
    a remainder whose sign differs from the divisor's is moved by the
    divisor. *)
Definition float_mod (a b : pyfloat) : result pyfloat :=
  match b with
  | Fin w =>
      if Qeq_bool w 0 then Raise ZeroDivisionError
      else
        match a with
        | Fin x =>
            let m := fmod x w in
            if Qeq_bool m 0 then Ok (Fin 0)
            else if xorb (is_neg w) (is_neg m) then Ok (fadd (Fin m) (Fin w))
            else Ok (Fin m)
        | _ => Ok NaN
        end
  | Inf s =>
      match a with
      | Fin x =>
          if Qeq_bool x 0 then Ok (Fin 0)
          else if xorb s (is_neg x) then Ok (Inf s)
          else Ok (Fin x)
      | _ => Ok NaN
      end
  | NaN => Ok NaN
  end.

(** The last step of CPython's [_float_div_mod]: the quotient is snapped to
    an integral value. *)
Definition snap_quotient (d : pyfloat) : pyfloat :=
  match d with
  | Fin q =>
      if Qeq_bool q 0 then Fin 0
      else
        let floordiv := Fin (inject_Z (Qfloor q)) in
        if flt (Fin (1 # 2)) (fsub d floordiv) then fadd floordiv (Fin 1) else floordiv
  | _ => d
  end.

(** [a // b] on two floats, as CPython's [_float_div_mod] computes it. *)
Definition float_floordiv (a b : pyfloat) : result pyfloat :=
  match b with
  | Fin w =>
      if Qeq_bool w 0 then Raise ZeroDivisionError
      else
        match a with
        | Fin x =>
            let m := fmod x w in
            div <- fdiv (fsub (Fin x) (Fin m)) (Fin w) ;;
            let div :=
              if negb (Qeq_bool m 0) && xorb (is_neg w) (is_neg m)
              then fsub div (Fin 1) else div in
            Ok (snap_quotient div)
        | _ => Ok NaN
        end
  | Inf s =>
      match a with
      | Fin x =>
          if negb (Qeq_bool x 0) && xorb s (is_neg x) then Ok (Fin (-1)) else Ok (Fin 0)
      | _ => Ok NaN
      end
  | NaN => Ok NaN
  end.

(** [a // b] and [a % b] on numbers: floor division and its remainder on two
    ints, the float operations otherwise. *)
Definition num_floordiv (a b : num) : result num :=
  match a, b with
  | Int x, Int y => if y =? 0 then Raise ZeroDivisionError else Ok (Int (x / y))
  | _, _ => x <- to_float a ;; y <- to_float b ;; f <- float_floordiv x y ;; Ok (Float f)
  end.

Definition num_mod (a b : num) : result num :=
  match a, b with
  | Int x, Int y => if y =? 0 then Raise ZeroDivisionError else Ok (Int (x mod y))
  | _, _ => x <- to_float a ;; y <- to_float b ;; f <- float_mod x y ;; Ok (Float f)
  end.

(** An int in an f-string: its decimal digits, with a minus sign if negative. *)
Definition str_int (z : Z) : string := NilZero.string_of_int (Z.to_int z).

Definition format_time (seconds : num) : result string :=
  if num_lt seconds (Int 0) then Ok "calculating..."
  else
    q <- num_floordiv seconds (Int 3600) ;;
    hours <- num_int q ;;
    r <- num_mod seconds (Int 3600) ;;
    q <- num_floordiv r (Int 60) ;;
    minutes <- num_int q ;;
    r <- num_mod seconds (Int 60) ;;
    secs <- num_int r ;;
    if 0 <? hours then
      Ok (str_int hours ++ "h " ++ str_int minutes ++ "m " ++ str_int secs ++ "s")
    else if 0 <? minutes then
      Ok (str_int minutes ++ "m " ++ str_int secs ++ "s")
    else Ok (str_int secs ++ "s").

(** The text for given hours, minutes and seconds. *)
Definition clock_text (hours minutes secs : Z) : string :=
  if 0 <? hours then str_int hours ++ "h " ++ str_int minutes ++ "m " ++ str_int secs ++ "s"
  else if 0 <? minutes then str_int minutes ++ "m " ++ str_int secs ++ "s"
  else str_int secs ++ "s".

(** ** Paths *)

(** [s.endswith(suffix)]: some tail of [s] is [suffix]. *)
Fixpoint endswith (s suffix : string) : bool :=
  String.eqb s suffix ||
  match s with
  | EmptyString => false
  | String _ rest => endswith rest suffix
  end.

(** [os.path.join(a, b)] of [posixpath]. *)
Definition path_join (a b : string) : string :=
  if String.prefix "/" b then b
  else if String.eqb a "" || endswith a "/" then a ++ b
  else a ++ "/" ++ b.

(** ** The progress-tracked process runner *)

Fixpoint contains (needle hay : string) : bool :=
  String.prefix needle hay ||
  match hay with
  | EmptyString => false
  | String _ rest => contains needle rest
  end.

Definition lower_ascii (c : ascii) : ascii :=
  let n := nat_of_ascii c in
  if (65 <=? n)%nat && (n <=? 90)%nat then ascii_of_nat (n + 32) else c.

Fixpoint lower (s : string) : string :=
  match s with
  | EmptyString => EmptyString
  | String c rest => String (lower_ascii c) (lower rest)
  end.

Definition digit (c : ascii) : option Z :=
  let n := Z.of_nat (nat_of_ascii c) in
  if (48 <=? n) && (n <=? 57) then Some (n - 48) else None.

(** A match of [time=(\d{2}):(\d{2}):(\d{2}\.\d{2})] at the head of the
    string: the hours, the minutes, and the seconds in hundredths. *)
Definition match_time_here (s : string) : option (Z * Z * Z) :=
  match s with
  | String "t" (String "i" (String "m" (String "e" (String "="
      (String h1 (String h2 (String ":" (String m1 (String m2 (String ":"
        (String s1 (String s2 (String "." (String f1 (String f2 _))))))))))))))) =>
      match digit h1, digit h2, digit m1, digit m2, digit s1, digit s2, digit f1, digit f2 with
      | Some a, Some b, Some c, Some d, Some e, Some f, Some g, Some h =>
          Some (10 * a + b, 10 * c + d, 1000 * e + 100 * f + 10 * g + h)
      | _, _, _, _, _, _, _, _ => None
      end
  | _ => None
  end.

(** [re.search]: the leftmost match. *)
Fixpoint search_time (s : string) : option (Z * Z * Z) :=
  match match_time_here s with
  | Some m => Some m
  | None =>
      match s with
      | EmptyString => None
      | String _ rest => search_time rest
      end
  end.

Definition has_indicator (line : string) : bool :=
  existsb (fun indicator => contains indicator (lower line))
          ["video:"; "audio:"; "subtitle:"; "global headers:"].

(** What one [readline] on the child's stderr meets: a line, end of file
    (with what [poll] then says), or an exception; [now] is the reading of
    [time.time()] in that iteration (the clock is taken not to advance within
    one iteration).  The list of a child is what the successive reads meet
    until the child has exited: after the last event [poll] reports the exit.
    The loop has no other way out for a child that stays alive, so a child
    that never exits, whether it keeps its stderr open or closes it, makes the
    source read or poll forever; such a child is outside the model. *)
Inductive read_event :=
| Line (text : string) (now : pyfloat)
| Eof (has_exited : bool) (now : pyfloat)
| ReadRaises (e : exn).

(** The behaviour of one child process, as far as the runner observes it. *)
Record process := {
  stderr_events : list read_event;
  exit_delay : option Q;        (* seconds from the end of monitoring to its own exit *)
  exit_code : bool -> Z;        (* exit status, given whether SIGINT reached it *)
  term_code : Z;                (* exit status when terminate() ends it *)
  interrupt_in_wait : bool      (* the operator interrupts during the final wait *)
}.

(** The state of the [Popen] object. *)
Record Popen := {
  returncode : option Z;
  sigint_sent : bool;
  terminated : bool
}.

Definition spawned : Popen :=
  {| returncode := None; sigint_sent := false; terminated := false |}.

(** The child has exited and [poll] or [wait] has recorded its status. *)
Definition exited (proc : process) (p : Popen) : Popen :=
  {| returncode := Some (exit_code proc (sigint_sent p));
     sigint_sent := sigint_sent p; terminated := terminated p |}.

(** The local variables of the monitoring loop. *)
Record monitor := {
  last_percentage : num;
  stderr_lines : list string;
  completion_detected : bool;
  last_update_time : pyfloat
}.

(** How the monitoring loop is left, with the events it has not read. *)
Inductive loop_exit :=
| Break (m : monitor) (p : Popen) (unread : list read_event)
| Raised (e : exn) (m : monitor) (p : Popen) (unread : list read_event).

(** [hours * 3600 + minutes * 60 + seconds] of a matched time stamp *)
Definition current_time_of (hours minutes hundredths : Z) : result num :=
  let seconds := round_float (inject_Z hundredths / 100) in
  num_add (Int (hours * 3600 + minutes * 60)) (Float seconds).

(** [min((current_time / duration) * 100, 100)] with
    [current_time = hours * 3600 + minutes * 60 + seconds] *)
Definition percentage_of (hours minutes hundredths : Z) (duration : num) : result num :=
  let seconds := round_float (inject_Z hundredths / 100) in
  current_time <- num_add (Int (hours * 3600 + minutes * 60)) (Float seconds) ;;
  q <- num_truediv current_time duration ;;
  percentage <- num_mul q (Int 100) ;;
  Ok (py_min percentage (Int 100)).

(** [display_progress] (lines 535-559), by what it computes before it
    writes the progress line: the estimate of the remaining time, the length
    of the bar and the three formatted times.  Any of them may raise. *)
Definition display_progress (percentage : num) (elapsed_time : pyfloat)
           (total_duration current_time : num) : result unit :=
  eta <- (if num_gt percentage (Int 0) then
            f <- num_truediv percentage (Int 100) ;;
            total_estimated_time <- num_truediv (Float elapsed_time) f ;;
            num_sub total_estimated_time (Float elapsed_time)
          else Ok (Int (-1))) ;;
  b <- num_mul (Int 40) percentage ;;
  q <- num_floordiv b (Int 100) ;;
  filled_length <- num_int q ;;
  _ <- format_time current_time ;;
  _ <- format_time total_duration ;;
  _ <- format_time eta ;;
  Ok tt.

(** The [while True] loop (lines 69-136), one iteration per event. *)
Fixpoint monitor_loop (proc : process) (duration : num) (start_time : pyfloat)
         (events : list read_event) (m : monitor) (p : Popen) : loop_exit :=
  match events with
  | [] => Break m (exited proc p) []
  | ReadRaises e :: rest => Raised e m p rest
  | Eof has_exited now :: rest =>
      if has_exited then Break m (exited proc p) rest
      else if completion_detected m && flt (Fin 30) (fsub now (last_update_time m)) then
        Break m p rest
      else monitor_loop proc duration start_time rest m p
  | Line line now :: rest =>
      let m := {| last_percentage := last_percentage m;
                  stderr_lines := stderr_lines m ++ [line];
                  completion_detected := completion_detected m;
                  last_update_time := now |} in
      if has_indicator line && completion_detected m then Break m p rest
      else if contains "time=" line then
        match search_time line with
        | Some (hours, minutes, hundredths) =>
            if num_gt duration (Int 0) then
              match current_time_of hours minutes hundredths with
              | Raise e => Raised e m p rest
              | Ok current_time =>
                  match percentage_of hours minutes hundredths duration with
                  | Raise e => Raised e m p rest
                  | Ok percentage =>
                      if num_ge percentage (Float (float_lit (995 # 10))) then
                        let m := {| last_percentage := last_percentage m;
                                    stderr_lines := stderr_lines m;
                                    completion_detected := true;
                                    last_update_time := last_update_time m |} in
                        match display_progress (Float (Fin 100)) (fsub now start_time)
                                               duration current_time with
                        | Raise e => Raised e m p rest
                        | Ok _ =>
                            Break m {| returncode := returncode p; sigint_sent := true;
                                       terminated := terminated p |} rest
                        end
                      else
                        match num_sub percentage (last_percentage m) with
                        | Raise e => Raised e m p rest
                        | Ok delta =>
                            if num_ge delta (Float (float_lit (1 # 10))) then
                              match display_progress percentage (fsub now start_time)
                                                     duration current_time with
                              | Raise e => Raised e m p rest
                              | Ok _ =>
                                  monitor_loop proc duration start_time rest
                                    {| last_percentage := percentage;
                                       stderr_lines := stderr_lines m;
                                       completion_detected := completion_detected m;
                                       last_update_time := last_update_time m |} p
                              end
                            else monitor_loop proc duration start_time rest m p
                        end
                  end
              end
            else monitor_loop proc duration start_time rest m p
        | None => monitor_loop proc duration start_time rest m p
        end
      else monitor_loop proc duration start_time rest m p
  end.

(** [max(300, duration * 2) if duration > 0 else 300] *)
Definition timeout_seconds (duration : num) : result num :=
  if num_gt duration (Int 0) then
    d <- num_mul duration (Int 2) ;; Ok (py_max (Int 300) d)
  else Ok (Int 300).

Inductive wait_exit :=
| Waited (p : Popen)
| WaitRaised (e : exn) (p : Popen).

(** The child has not exited within the timeout: the message with
    [format_time(timeout_seconds)], then [terminate()] and [wait()]. *)
Definition on_timeout (proc : process) (timeout : num) (p : Popen) : wait_exit :=
  match format_time timeout with
  | Raise e => WaitRaised e p
  | Ok _ => Waited {| returncode := Some (term_code proc);
                      sigint_sent := sigint_sent p; terminated := true |}
  end.

(** [process.wait(timeout=timeout_seconds)] (lines 139-146), and on expiry
    the termination of the child.  A child that does not exit by itself is
    taken to outlast the timeout; a wait without end (such a child under an
    infinite timeout) is outside the model. *)
Definition wait_for_exit (proc : process) (duration : num) (p : Popen) : wait_exit :=
  match timeout_seconds duration with
  | Raise e => WaitRaised e p
  | Ok timeout =>
      match returncode p with
      | Some _ => Waited p
      | None =>
          if interrupt_in_wait proc then WaitRaised KeyboardInterrupt p
          else
            match exit_delay proc with
            | Some d =>
                if num_le (Float (Fin d)) timeout then Waited (exited proc p)
                else on_timeout proc timeout p
            | None => on_timeout proc timeout p
            end
      end
  end.

(** The handlers of the [try] block: an interrupt terminates the child and is
    raised again, any other exception becomes the result [False]. *)
Definition handle (e : exn) (lines : list string) (p : Popen)
  : result (bool * list string) * Popen :=
  if is_Exception e then (Ok (false, lines), p)
  else (Raise e, {| returncode := returncode p; sigint_sent := sigint_sent p;
                    terminated := true |}).

(** The [try] block of [run_ffmpeg_with_progress] (lines 63-164) on the child
    that [subprocess.Popen] has started: the result and the final state of
    the [Popen] object.  The start of the child (lines 54-60) stands before
    the [try]; the whole function is [spawn_with_progress] below. *)
Definition run_ffmpeg_with_progress (proc : process) (duration : num) (start_time : pyfloat)
  : result (bool * list string) * Popen :=
  let m0 := {| last_percentage := Int (-1); stderr_lines := [];
               completion_detected := false; last_update_time := start_time |} in
  match monitor_loop proc duration start_time (stderr_events proc) m0 spawned with
  | Raised e m p _ => handle e (stderr_lines m) p
  | Break m p _ =>
      match wait_for_exit proc duration p with
      | WaitRaised e p => handle e (stderr_lines m) p
      | Waited p =>
          match returncode p with
          | Some 0 => (Ok (true, stderr_lines m), p)
          | _ => (Ok (false, stderr_lines m), p)
          end
      end
  end.

(** The events of the child's stream that the monitoring loop has not read
    when it is left. *)
Definition unread_events (proc : process) (duration : num) (start_time : pyfloat)
  : list read_event :=
  let m0 := {| last_percentage := Int (-1); stderr_lines := [];
               completion_detected := false; last_update_time := start_time |} in
  match monitor_loop proc duration start_time (stderr_events proc) m0 spawned with
  | Break _ _ unread | Raised _ _ _ unread => unread
  end.

(** ** The world outside the program *)

(** The dictionary of [get_video_info]. *)
Record VideoInfo := {
  width : Z; height : Z; codec : string; duration : pyfloat; fps : pyfloat }.

(** The dictionary of [detect_system]. *)
Record SystemInfo := {
  platform : string; machine : string; processor : string;
  is_macos : bool; is_apple_silicon : bool; has_videotoolbox : bool;
  available_hw_encoders : list string }.

Definition Files := list (string * Z).

(** The argument lists handed to the external tools, by their varying parts. *)
Inductive command :=
| FfmpegEncoders
| Encode (video_path mask_path border_path output_path : string) (plan : GeometryPlan)
         (limit_duration : option num) (codec_settings : list string)
| Pass1 (input_path : string) (bitrate maxrate bufsize : Z) (log_file : string)
| Pass2 (input_path output_path : string) (bitrate maxrate bufsize audio_bitrate : Z)
        (log_file : string).

Inductive event :=
| Ran (c : command)                    (* subprocess.run *)
| Spawned (c : command)                (* subprocess.Popen *)
| Reencoding (target_size_mb : num).   (* the line printed on entry of a re-encode *)

(** What a [subprocess.run] call meets: the executable is missing, or the
    child runs to its end. *)
Inductive run_outcome :=
| NotInstalled
| Completed (code : Z) (stdout stderr : string) (effect : Files -> Files).

Record World := {
  files : Files;                             (* media files and their sizes in bytes *)
  tmpdirs : list (string * list string);     (* temporary directories and the files in them *)
  fresh_names : list string;                 (* the names mkdtemp hands out next *)
  probes : list (option VideoInfo);          (* what the next ffprobe calls report *)
  runs : list run_outcome;                   (* what the next subprocess.run calls meet *)
  children : list (option (process * (Files -> Files)));
                                             (* what the next Popen calls meet *)
  faults : list bool;                        (* which of the next file operations fail *)
  clock : pyfloat;                           (* the reading of time.time() *)
  log : list event }.

(** A computation acts on the world and returns or raises. *)
Definition IO (A : Type) : Type := World -> result A * World.

Definition ret {A} (a : A) : IO A := fun w => (Ok a, w).
Definition lift {A} (r : result A) : IO A := fun w => (r, w).
Definition bindIO {A B} (c : IO A) (k : A -> IO B) : IO B :=
  fun w => match c w with
           | (Ok a, w') => k a w'
           | (Raise e, w') => (Raise e, w')
           end.

Declare Scope io_scope.
Delimit Scope io_scope with io.
Notation "x <- c ;; k" := (bindIO c (fun x => k))
  (at level 61, c at next level, right associativity) : io_scope.
Notation "' p <- c ;; k" := (bindIO c (fun x => let p := x in k))
  (at level 61, p pattern, c at next level, right associativity) : io_scope.
Notation "c ;; k" := (bindIO c (fun _ => k))
  (at level 61, right associativity) : io_scope.

(** [try: body finally: final] *)
Definition try_finally {A} (body : IO A) (final : IO unit) : IO A :=
  fun w => let (r, w1) := body w in
           match final w1 with
           | (Ok _, w2) => (r, w2)
           | (Raise e, w2) => (Raise e, w2)
           end.

(** [try: body except Exception: handler]; an interrupt passes through. *)
Definition except_Exception {A} (body : IO A) (handler : exn -> IO A) : IO A :=
  fun w => match body w with
           | (Raise e, w1) => if is_Exception e then handler e w1 else (Raise e, w1)
           | r => r
           end.

(** [try: body except Exception: pass] *)
Definition attempt (body : IO unit) : IO unit := except_Exception body (fun _ => ret tt).

Definition with_files (f : Files -> Files) (w : World) : World :=
  {| files := f (files w); tmpdirs := tmpdirs w; fresh_names := fresh_names w;
     probes := probes w; runs := runs w; children := children w; faults := faults w;
     clock := clock w; log := log w |}.

Definition with_tmpdirs (f : list (string * list string) -> list (string * list string))
           (w : World) : World :=
  {| files := files w; tmpdirs := f (tmpdirs w); fresh_names := fresh_names w;
     probes := probes w; runs := runs w; children := children w; faults := faults w;
     clock := clock w; log := log w |}.

Definition record (ev : event) : IO unit :=
  fun w => (Ok tt,
            {| files := files w; tmpdirs := tmpdirs w; fresh_names := fresh_names w;
               probes := probes w; runs := runs w; children := children w;
               faults := faults w; clock := clock w; log := log w ++ [ev] |}).

(** A file operation that the environment may make fail. *)
Definition fallible : IO unit :=
  fun w =>
    let w' := {| files := files w; tmpdirs := tmpdirs w; fresh_names := fresh_names w;
                 probes := probes w; runs := runs w; children := children w;
                 faults := tl (faults w); clock := clock w; log := log w |} in
    match faults w with
    | true :: _ => (Raise OtherError, w')
    | _ => (Ok tt, w')
    end.

Fixpoint lookup {A} (key : string) (l : list (string * A)) : option A :=
  match l with
  | [] => None
  | (k, v) :: rest => if String.eqb k key then Some v else lookup key rest
  end.

Definition delete {A} (key : string) (l : list (string * A)) : list (string * A) :=
  filter (fun kv => negb (String.eqb (fst kv) key)) l.

(** [os.path.exists] *)
Definition exists_path (path : string) : IO bool :=
  fun w => (Ok (match lookup path (files w) with Some _ => true | None => false end), w).

(** [os.path.getsize] *)
Definition getsize (path : string) : IO Z :=
  fun w => match lookup path (files w) with
           | Some n => (Ok n, w)
           | None => (Raise FileNotFoundError, w)
           end.

(** [shutil.copy2] *)
Definition copy2 (src dst : string) : IO unit :=
  (fallible ;;
   n <- getsize src ;;
   fun w => (Ok tt, with_files (fun fs => (dst, n) :: delete dst fs) w))%io.

(** [os.remove] *)
Definition remove (path : string) : IO unit :=
  (fallible ;;
   _ <- getsize path ;;
   fun w => (Ok tt, with_files (delete path) w))%io.

(** [tempfile.mkdtemp] *)
Definition mkdtemp : IO string :=
  (fallible ;;
   fun w =>
     match fresh_names w with
     | [] => (Raise OtherError, w)
     | name :: rest =>
         (Ok name,
          {| files := files w; tmpdirs := (name, []) :: tmpdirs w; fresh_names := rest;
             probes := probes w; runs := runs w; children := children w;
             faults := faults w; clock := clock w; log := log w |})
     end)%io.

(** [shutil.rmtree] *)
Definition rmtree (dir : string) : IO unit :=
  (fallible ;;
   fun w => match lookup dir (tmpdirs w) with
            | Some _ => (Ok tt, with_tmpdirs (delete dir) w)
            | None => (Raise FileNotFoundError, w)
            end)%io.

(** Rendering an image and saving it under a name in a temporary directory.
    The name is taken to have no directory part (the names of the clips come
    from [os.listdir]), so that [os.path.join(dir, name)] lies in [dir]. *)
Definition save_image (dir name : string) : IO unit :=
  (fallible ;;
   fun w => match lookup dir (tmpdirs w) with
            | Some names =>
                (Ok tt, with_tmpdirs (fun ds => (dir, name :: names) :: delete dir ds) w)
            | None => (Raise FileNotFoundError, w)
            end)%io.

(** [time.time()] *)
Definition time : IO pyfloat := fun w => (Ok (clock w), w).

(** [get_video_info]: the stream record, or [None] after any failure. *)
Definition get_video_info (video_path : string) : IO (option VideoInfo) :=
  fun w =>
    (Ok (match probes w with
         | [] => None
         | r :: _ => r
         end),
     {| files := files w; tmpdirs := tmpdirs w; fresh_names := fresh_names w;
        probes := tl (probes w); runs := runs w; children := children w;
        faults := faults w; clock := clock w; log := log w |}).

(** [run_ffmpeg]: [(success, stderr, stdout)], the outputs already stripped.
    A missing executable makes [subprocess.run] raise. *)
Definition run_ffmpeg (cmd : command) : IO (bool * string * string) :=
  (record (Ran cmd) ;;
   fun w =>
     let w' := {| files := files w; tmpdirs := tmpdirs w; fresh_names := fresh_names w;
                  probes := probes w; runs := tl (runs w); children := children w;
                  faults := faults w; clock := clock w; log := log w |} in
     match runs w with
     | Completed code stdout stderr effect :: _ =>
         if negb (code =? 0) then (Ok (false, stderr, stdout), with_files effect w')
         else (Ok (true, stderr, stdout), with_files effect w')
     | _ => (Raise FileNotFoundError, w')
     end)%io.

(** [run_ffmpeg_with_progress] (lines 44-164): [subprocess.Popen] starts the
    next child of the world, or raises when it cannot be started (the
    executable is missing); that call stands before the [try], so its
    exception leaves the function. *)
Definition spawn_with_progress (cmd : command) (duration : num) (start_time : pyfloat)
  : IO (bool * list string) :=
  (record (Spawned cmd) ;;
   fun w =>
     let w' := {| files := files w; tmpdirs := tmpdirs w; fresh_names := fresh_names w;
                  probes := probes w; runs := runs w; children := tl (children w);
                  faults := faults w; clock := clock w; log := log w |} in
     match children w with
     | Some (proc, effect) :: _ =>
         (fst (run_ffmpeg_with_progress proc duration start_time), with_files effect w')
     | _ => (Raise FileNotFoundError, w')
     end)%io.

(** ** Capability detection *)

Definition detect_system (platform_system platform_machine platform_processor : string)
  : SystemInfo :=
  let is_macos := String.eqb platform_system "Darwin" in
  {| platform := platform_system; machine := platform_machine;
     processor := platform_processor;
     is_macos := is_macos;
     is_apple_silicon := is_macos && String.eqb platform_machine "arm64";
     has_videotoolbox := false;
     available_hw_encoders := [] |}.

Definition check_hardware_encoders (system_info : SystemInfo) : IO SystemInfo :=
  (if negb (is_macos system_info) then ret system_info
   else
     '(success, stderr_output, stdout_output) <- run_ffmpeg FfmpegEncoders ;;
     if success then
       let hw_encoders :=
         ((if contains "h264_videotoolbox" stdout_output then ["h264_videotoolbox"] else []) ++
          (if contains "hevc_videotoolbox" stdout_output then ["hevc_videotoolbox"] else []) ++
          (if contains "prores_videotoolbox" stdout_output then ["prores_videotoolbox"] else []))%list
       in
       ret {| platform := platform system_info; machine := machine system_info;
              processor := processor system_info;
              is_macos := is_macos system_info;
              is_apple_silicon := is_apple_silicon system_info;
              has_videotoolbox := (0 <? Z.of_nat (List.length hw_encoders));
              available_hw_encoders := hw_encoders |}
     else ret system_info)%io.

(** ** The size-constrained re-encode *)

Definition get_file_size_mb (filepath : string) : IO num :=
  (found <- exists_path filepath ;;
   if negb found then ret (Int 0)
   else
     n <- getsize filepath ;;
     lift (num_truediv (Int n) (Int (1024 * 1024))))%io.

Definition reencode_to_target_size (input_path output_path : string)
           (target_size_mb duration : num) : IO bool :=
  (record (Reencoding target_size_mb) ;;
   let audio_bitrate := 128 in
   target_video_bitrate <-
     lift (calculate_target_bitrate duration target_size_mb (Int audio_bitrate)) ;;
   temp_dir <- mkdtemp ;;
   let log_file := path_join temp_dir "ffmpeg2pass" in
   try_finally
     (bitrate <- lift (num_int target_video_bitrate) ;;
      maxrate <- lift (bind (num_mul target_video_bitrate (Float (float_lit (12 # 10)))) num_int) ;;
      bufsize <- lift (bind (num_mul target_video_bitrate (Int 2)) num_int) ;;
      '(success, _, _) <- run_ffmpeg (Pass1 input_path bitrate maxrate bufsize log_file) ;;
      if negb success then ret false
      else
        bitrate <- lift (num_int target_video_bitrate) ;;
        maxrate <- lift (bind (num_mul target_video_bitrate (Float (float_lit (12 # 10)))) num_int) ;;
        bufsize <- lift (bind (num_mul target_video_bitrate (Int 2)) num_int) ;;
        start_time <- time ;;
        '(success, stderr_lines) <-
          spawn_with_progress
            (Pass2 input_path output_path bitrate maxrate bufsize audio_bitrate log_file)
            duration start_time ;;
        if negb success then ret false
        else
          final_size <- get_file_size_mb output_path ;;
          ret true)
     (attempt (rmtree temp_dir)))%io.

Definition enforce_size_limit (output_path : string) (target_size_mb duration : num)
  : IO bool :=
  (found <- exists_path output_path ;;
   if negb found then ret false
   else
     file_size <- get_file_size_mb output_path ;;
     if num_le file_size target_size_mb then ret true
     else
       excess <- lift (num_sub file_size target_size_mb) ;;
       let temp_input := output_path ++ ".oversized.tmp" in
       copy2 output_path temp_input ;;
       try_finally
         (success <- reencode_to_target_size temp_input output_path target_size_mb duration ;;
          if success then
            final_size <- get_file_size_mb output_path ;;
            if num_le final_size target_size_mb then ret true
            else
              reduced <- lift (num_mul target_size_mb (Float (float_lit (95 # 100)))) ;;
              target_video_bitrate <- lift (calculate_target_bitrate duration reduced (Int 128)) ;;
              reduced <- lift (num_mul target_size_mb (Float (float_lit (95 # 100)))) ;;
              success <- reencode_to_target_size temp_input output_path reduced duration ;;
              final_size <- get_file_size_mb output_path ;;
              ret (num_le final_size target_size_mb)
          else ret false)
         (attempt (found <- exists_path temp_input ;;
                   if found then remove temp_input else ret tt)))%io.

(** ** Processing one file: the body of the loop of [process_videos_in_folder] *)

Definition get_optimal_codec_settings (system_info : SystemInfo) (output_codec : string)
  : list string :=
  let available name := existsb (String.eqb name) (available_hw_encoders system_info) in
  let codec_settings :=
    if is_apple_silicon system_info && has_videotoolbox system_info then
      if String.eqb output_codec "h264" && available "h264_videotoolbox" then
        ["-c:v"; "h264_videotoolbox"; "-b:v"; "3M"; "-profile:v"; "main"; "-allow_sw"; "1"]
      else if String.eqb output_codec "h265" && available "hevc_videotoolbox" then
        ["-c:v"; "hevc_videotoolbox"; "-b:v"; "3M"; "-maxrate"; "4M"; "-bufsize"; "6M";
         "-profile:v"; "main"; "-tag:v"; "hvc1"; "-allow_sw"; "1"]
      else if String.eqb output_codec "prores" && available "prores_videotoolbox" then
        ["-c:v"; "prores_videotoolbox"; "-profile:v"; "2"; "-vendor"; "apl0"]
      else
        ["-c:v";
         if String.eqb output_codec "x264" || String.eqb output_codec "x265"
         then "lib" ++ output_codec else output_codec;
         "-preset"; "medium"; "-crf"; "18"]
    else if String.eqb output_codec "h264" then
      ["-c:v"; "libx264"; "-preset"; "medium"; "-crf"; "18"; "-profile:v"; "high";
       "-level"; "4.1"]
    else if String.eqb output_codec "h265" then
      ["-c:v"; "libx265"; "-preset"; "medium"; "-crf"; "20"; "-tag:v"; "hvc1"]
    else ["-c:v"; output_codec; "-preset"; "medium"; "-crf"; "18"]
  in
  (codec_settings ++ ["-movflags"; "+faststart"])%list.

(** [os.path.splitext(name)[0]] for a file name without directory part: the
    name up to its last dot, unless only dots precede that dot. *)
Fixpoint last_dot (cs : list ascii) (i : nat) (seen_other : bool) (found : option nat)
  : option nat :=
  match cs with
  | [] => found
  | c :: rest =>
      if Ascii.eqb c "."
      then last_dot rest (S i) seen_other (if seen_other then Some i else found)
      else last_dot rest (S i) true found
  end.

Definition splitext_root (name : string) : string :=
  let cs := list_ascii_of_string name in
  match last_dot cs 0%nat false None with
  | Some i => string_of_list_ascii (firstn i cs)
  | None => name
  end.

(** What the loop does with its counters for one file. *)
Inductive counted := Processed | Failed.

Definition process_file (output_folder output_codec output_format : string)
           (system_info : SystemInfo) (max_output_size_mb : num)
           (filename video_path : string) : IO counted :=
  except_Exception
    (let output_filename := splitext_root filename ++ "." ++ output_format in
     let output_path := path_join output_folder output_filename in
     video_info <- get_video_info video_path ;;
     match video_info with
     | None => ret Failed
     | Some video_info =>
         let original_width := width video_info in
         let original_height := height video_info in
         let duration := Float (duration video_info) in
         plan <- lift (plan_geometry original_width original_height) ;;
         tmpdir <- mkdtemp ;;
         let base_name := splitext_root filename in
         let mask_name := base_name ++ "_mask.png" in
         let border_name := base_name ++ "_border.png" in
         let mask_path := path_join tmpdir mask_name in
         let border_path := path_join tmpdir border_name in
         save_image tmpdir mask_name ;;
         save_image tmpdir border_name ;;
         let output_exceeds_hw_limits :=
           (4096 <? canvas_width plan) || (2304 <? canvas_height plan) in
         let effective_system_info :=
           if output_exceeds_hw_limits then
             {| platform := platform system_info; machine := machine system_info;
                processor := processor system_info; is_macos := is_macos system_info;
                is_apple_silicon := is_apple_silicon system_info;
                has_videotoolbox := false;
                available_hw_encoders := available_hw_encoders system_info |}
           else system_info in
         let codec_settings := get_optimal_codec_settings effective_system_info output_codec in
         let cmd := Encode video_path mask_path border_path output_path plan
                           (if num_gt duration (Int 0) then Some duration else None)
                           codec_settings in
         duration_text <- lift (if num_gt duration (Int 0) then format_time duration
                                else Ok "Unknown") ;;
         start_time <- time ;;
         except_Exception
           ('(success, stderr_lines) <- spawn_with_progress cmd duration start_time ;;
            attempt (rmtree tmpdir) ;;
            if success then
              end_time <- time ;;
              processing_time <- lift (num_sub (Float end_time) (Float start_time)) ;;
              processing_text <- lift (format_time processing_time) ;;
              size_ok <- enforce_size_limit output_path max_output_size_mb duration ;;
              if size_ok then ret Processed else ret Failed
            else ret Failed)
           (fun e => ret Failed)
     end)%io
    (fun e => ret Failed).

(** ** What a run leaves in the log *)

(** The re-encode attempts a run has started, by the size each aimed at. *)
Definition reencode_attempts (l : list event) : list num :=
  flat_map (fun ev => match ev with Reencoding t => [t] | _ => [] end) l.

(** An encoder run of a re-encode, at video bitrate [b] kbps. *)
Definition at_bitrate (b : Z) (ev : event) : Prop :=
  match ev with
  | Ran (Pass1 _ bitrate _ _ _) => bitrate = b
  | Spawned (Pass2 _ _ bitrate _ _ audio _) => bitrate = b /\ audio = 128
  | _ => False
  end.

(** At most [n] encoder runs, each at the bitrate [b]. *)
Definition runs_at (b : Z) (n : nat) (l : list event) : Prop :=
  (List.length l <= n)%nat /\ forall ev, In ev l -> at_bitrate b ev.

(** The encoder runs of one re-encode aiming at [target_size_mb]: at most two,
    each at the bitrate that [calculate_target_bitrate] gives for that size. *)
Definition encoder_runs (duration target_size_mb : num) (cmds : list event) : Prop :=
  (List.length cmds <= 2)%nat /\
  forall ev, In ev cmds ->
    exists kbps b,
      calculate_target_bitrate duration target_size_mb (Int 128) = Ok kbps /\
      num_int kbps = Ok b /\ at_bitrate b ev.

(** What one call of [enforce_size_limit] may append to the log. *)
Definition enforcement_log (duration target_size_mb : num) (l : list event) : Prop :=
  l = [] \/
  (exists cmds, l = Reencoding target_size_mb :: cmds /\
                encoder_runs duration target_size_mb cmds) \/
  (exists reduced cmds1 cmds2,
     num_mul target_size_mb (Float (float_lit (95 # 100))) = Ok reduced /\
     l = (Reencoding target_size_mb :: cmds1 ++ Reencoding reduced :: cmds2)%list /\
     encoder_runs duration target_size_mb cmds1 /\
     encoder_runs duration reduced cmds2).

(** The file at [path], as [get_file_size_mb] measures it in [w] (a missing
    file measuring 0), is within the budget; it exceeds the budget. *)
Definition within_budget (path : string) (target_size_mb : num) (w : World) : Prop :=
  exists size, fst (get_file_size_mb path w) = Ok size /\ num_le size target_size_mb = true.

Definition exceeds_budget (path : string) (target_size_mb : num) (w : World) : Prop :=
  exists size, fst (get_file_size_mb path w) = Ok size /\ num_le size target_size_mb = false.

(** The verdict of one call of [enforce_size_limit] from [w] to [w'] against
    the re-encode attempts it has made: without an attempt the file is missing
    ([False]) or there and within the budget as it is ([True]); otherwise the file was
    there and over the budget, the first attempt aimed at the full budget and
    a second one at 0.95 times the budget; [True] is answered for a file that
    is then within the budget, [False] after a first attempt that did not
    succeed or after a second attempt that left the file over the budget. *)
Definition verdict_after (output_path : string) (target_size_mb duration : num)
           (w w' : World) (attempts : list num) (verdict : bool) : Prop :=
  let temp_input := output_path ++ ".oversized.tmp" in
  match attempts with
  | [] =>
      if verdict
      then lookup output_path (files w) <> None /\
           within_budget output_path target_size_mb w
      else lookup output_path (files w) = None
  | [first] =>
      first = target_size_mb /\
      lookup output_path (files w) <> None /\
      exceeds_budget output_path target_size_mb w /\
      if verdict then within_budget output_path target_size_mb w'
      else fst (reencode_to_target_size temp_input output_path target_size_mb duration
                  (snd (copy2 output_path temp_input w))) = Ok false
  | [first; second] =>
      first = target_size_mb /\
      num_mul target_size_mb (Float (float_lit (95 # 100))) = Ok second /\
      lookup output_path (files w) <> None /\
      exceeds_budget output_path target_size_mb w /\
      fst (reencode_to_target_size temp_input output_path target_size_mb duration
             (snd (copy2 output_path temp_input w))) = Ok true /\
      if verdict then within_budget output_path target_size_mb w'
      else exceeds_budget output_path target_size_mb w'
  | _ => False
  end.

(** [c] appends to the log a list in [S]; [c] leaves the log as it is. *)
Definition emits {A} (c : IO A) (S : list event -> Prop) : Prop :=
  forall w, exists l, log (snd (c w)) = (log w ++ l)%list /\ S l.

Definition quiet {A} (c : IO A) : Prop := forall w, log (snd (c w)) = log w.

(** ** Sample worlds *)

Definition empty_world : World :=
  {| files := []; tmpdirs := []; fresh_names := []; probes := []; runs := [];
     children := []; faults := []; clock := Fin 0; log := [] |}.

(** A host without the ffmpeg binary: every attempt to run it fails to start. *)
Definition world_without_ffmpeg : World := empty_world.

Definition apple_silicon_host : SystemInfo := detect_system "Darwin" "arm64" "arm".
Definition linux_host : SystemInfo := detect_system "Linux" "x86_64" "x86_64".

Definition sample_info : VideoInfo :=
  {| width := 800; height := 400; codec := "h264"; duration := Fin 10; fps := Fin 25 |}.

(** An encoder that reports progress up to a little under the end and exits
    with 0 unless it is sent SIGINT, after which it exits with 255. *)
Definition demo_process : process :=
  {| stderr_events :=
       [Line "ffmpeg version 6.0" (Fin 1);
        Line "frame=  100 fps= 25 time=00:00:04.00 bitrate= 900kbits/s" (Fin 2);
        Line "frame=  250 fps= 25 time=00:00:09.98 bitrate= 900kbits/s" (Fin 3)];
     exit_delay := Some 1%Q;
     exit_code := fun sigint => if sigint then 255 else 0;
     term_code := -15;
     interrupt_in_wait := false |}.

Definition quiet_child (code : Z) : process :=
  {| stderr_events :=
       [Line "frame=  100 fps= 25 time=00:00:04.00 bitrate= 900kbits/s" (Fin 2)];
     exit_delay := Some 1%Q;
     exit_code := fun _ => code;
     term_code := -15;
     interrupt_in_wait := false |}.

(** The operator presses Ctrl-C while the encoder of the file is running. *)
Definition interrupted_child : process :=
  {| stderr_events :=
       [Line "frame=  100 fps= 25 time=00:00:04.00 bitrate= 900kbits/s" (Fin 2);
        ReadRaises KeyboardInterrupt];
     exit_delay := None;
     exit_code := fun _ => 255;
     term_code := -15;
     interrupt_in_wait := false |}.

(** An encoder that reaches the end of a 10 second clip, does not react to
    SIGINT, and exits with 0 once it is told to terminate. *)
Definition stubborn_child : process :=
  {| stderr_events :=
       [Line "frame=  250 fps= 25 time=00:00:09.98 bitrate= 900kbits/s" (Fin 3)];
     exit_delay := None;
     exit_code := fun _ => 255;
     term_code := 0;
     interrupt_in_wait := false |}.

Definition writes (path : string) (bytes : Z) : Files -> Files :=
  fun fs => (path, bytes) :: delete path fs.

Definition MB : Z := 1024 * 1024.

(** One 800x400 clip of 10 seconds to process, the given children to meet,
    and file operations that fail as [failing] says. *)
Definition world_with (kids : list (option (process * (Files -> Files))))
           (failing : list bool) : World :=
  {| files := [("in/clip.mov", 50 * MB)]; tmpdirs := [];
     fresh_names := ["/tmp/tmp1"; "/tmp/tmp2"; "/tmp/tmp3"];
     probes := [Some sample_info];
     runs := [Completed 0 "" "" (fun fs => fs); Completed 0 "" "" (fun fs => fs)];
     children := kids; faults := failing; clock := Fin 0; log := [] |}.

Definition process_clip : IO counted :=
  process_file "out" "h264" "mp4" linux_host (Int 10) "clip.mov" "in/clip.mov".

(** ** Notions used by the further properties *)

(** The lines a child writes to its stderr, in the order it writes them. *)
Definition lines_of (events : list read_event) : list string :=
  flat_map (fun ev => match ev with Line text _ => [text] | _ => [] end) events.

(** The local variables of the monitoring loop when it is left. *)
Definition monitor_at_exit (x : loop_exit) : monitor :=
  match x with
  | Break m _ _ | Raised _ m _ _ => m
  end.

(** The [Popen] object when the monitoring loop is left. *)
Definition popen_at_exit (x : loop_exit) : Popen :=
  match x with
  | Break _ p _ | Raised _ _ p _ => p
  end.

(** The events the monitoring loop has left unread. *)
Definition unread_at_exit (x : loop_exit) : list read_event :=
  match x with
  | Break _ _ unread | Raised _ _ _ unread => unread
  end.

(** Among the lines there is a progress line whose time stamp is at least
    99.5% of the positive duration: the condition under which the loop
    asks the child to finish. *)
Definition reached_end (duration : num) (lines : list string) : Prop :=
  num_gt duration (Int 0) = true /\
  exists line hours minutes hundredths percentage,
    In line lines /\ contains "time=" line = true /\
    search_time line = Some (hours, minutes, hundredths) /\
    percentage_of hours minutes hundredths duration = Ok percentage /\
    num_ge percentage (Float (float_lit (995 # 10))) = true.

(** The names of the hardware encoders the program knows. *)
Definition videotoolbox_encoders : list string :=
  ["h264_videotoolbox"; "hevc_videotoolbox"; "prores_videotoolbox"].


(** The canvas is beyond what the hardware encoder takes (4096x2304). *)
Definition exceeds_hw_limits (plan : GeometryPlan) : bool :=
  (4096 <? canvas_width plan) || (2304 <? canvas_height plan).

(** The encode that the processing of one file starts in the world [w],
    if it gets that far.  The probe must report a video stream, the geometry
    step must not raise, [mkdtemp] must have a name to hand out, none of the
    next three file operations ([mkdtemp] and the saving of the two overlay
    images) may fail, and a positive duration must be one that [format_time]
    can format.  The encode reads the clip, the two overlay images in the
    directory that [mkdtemp] has made, and writes to
    [os.path.join(output_folder, stem + '.' + output_format)], with the plan
    computed from the probed width and height. *)
Definition planned_encode (output_folder output_codec output_format : string)
           (system_info : SystemInfo) (filename video_path : string) (w : World)
  : option command :=
  match probes w, fresh_names w with
  | Some video_info :: _, tmpdir :: _ =>
      match plan_geometry (width video_info) (height video_info) with
      | Ok plan =>
          let duration := Float (duration video_info) in
          let stem := splitext_root filename in
          if nth 0 (faults w) false || nth 1 (faults w) false || nth 2 (faults w) false
          then None
          else
            match (if num_gt duration (Int 0) then format_time duration else Ok "Unknown") with
            | Ok _ =>
                Some (Encode video_path
                             (path_join tmpdir (stem ++ "_mask.png"))
                             (path_join tmpdir (stem ++ "_border.png"))
                             (path_join output_folder (stem ++ "." ++ output_format))
                             plan
                             (if num_gt duration (Int 0) then Some duration else None)
                             (get_optimal_codec_settings
                                (if exceeds_hw_limits plan then
                                   {| platform := platform system_info;
                                      machine := machine system_info;
                                      processor := processor system_info;
                                      is_macos := is_macos system_info;
                                      is_apple_silicon := is_apple_silicon system_info;
                                      has_videotoolbox := false;
                                      available_hw_encoders :=
                                        available_hw_encoders system_info |}
                                 else system_info)
                                output_codec))
            | Raise _ => None
            end
      | Raise _ => None
      end
  | _, _ => None
  end.

(** The duration that the next probe of [w] reports. *)
Definition probed_duration (w : World) : num :=
  match probes w with
  | Some video_info :: _ => Float (duration video_info)
  | _ => Int 0
  end.

(** What the processing of one file appends to the log, from the world [w]:
    nothing when no encode is started, else that encode, followed by what the
    size enforcement appends. *)
Definition file_log (output_folder output_codec output_format : string)
           (system_info : SystemInfo) (max_output_size_mb : num)
           (filename video_path : string) (w : World) (l : list event) : Prop :=
  match planned_encode output_folder output_codec output_format system_info
                       filename video_path w with
  | None => l = []
  | Some cmd =>
      exists rest, l = Spawned cmd :: rest /\
                   enforcement_log (probed_duration w) max_output_size_mb rest
  end.

(** A host that reports the hardware h264 encoder, and a world with one
    8K clip to process. *)
Definition videotoolbox_host : SystemInfo :=
  {| platform := "Darwin"; machine := "arm64"; processor := "arm";
     is_macos := true; is_apple_silicon := true; has_videotoolbox := true;
     available_hw_encoders := ["h264_videotoolbox"] |}.

(** A macOS host on which [ffmpeg -encoders] lists two VideoToolbox
    encoders. *)
Definition world_with_videotoolbox : World :=
  {| files := []; tmpdirs := []; fresh_names := []; probes := [];
     runs := [Completed 0
                "V....D h264_videotoolbox    VideoToolbox H.264 Encoder (codec h264)  V....D hevc_videotoolbox    VideoToolbox H.265 Encoder (codec hevc)  V....D libx264              libx264 H.264 / AVC (codec h264)"
                "ffmpeg version 6.0" (fun fs => fs)];
     children := []; faults := []; clock := Fin 0; log := [] |}.

Definition world_8k : World :=
  {| files := [("in/clip.mov", 50 * MB)]; tmpdirs := [];
     fresh_names := ["/tmp/tmp1"];
     probes := [Some {| width := 7680; height := 4320; codec := "h264";
                        duration := Fin 10; fps := Fin 25 |}];
     runs := [];
     children := [Some (quiet_child 0, writes "out/clip.mp4" (3 * MB))];
     faults := []; clock := Fin 0; log := [] |}.

(** [c] keeps the property [I] of the world, however it ends. *)
Definition keeps {A} (I : World -> Prop) (c : IO A) : Prop :=
  forall w, I w -> I (snd (c w)).

(** A property of the world that depends on its temporary directories and
    pending faults only. *)
Definition on_dirs_and_faults (I : World -> Prop) : Prop :=
  forall w w', tmpdirs w' = tmpdirs w -> faults w' = faults w -> I w -> I w'.

(** None of the file operations still to come fails. *)
Definition no_faults (w : World) : Prop := Forall (eq false) (faults w).

(** ** Finding the videos of a folder: [get_video_files] (lines 561-572)

    File names are byte strings, and [lower] maps the letters A-Z only: on
    ASCII names that is [str.lower]. *)

(** What [os.path.exists] and [os.listdir] find at a path. *)
Inductive folder :=
| NoSuchPath
| NotListable
| Entries (names : list string).

Definition allowed_extensions : list string :=
  [".mp4"; ".avi"; ".mov"; ".mkv"; ".flv"; ".wmv"; ".webm"; ".m4v"; ".mpg"; ".mpeg"].

(** [sorted] on names: ascending by code points. *)
Fixpoint insert_sorted (name : string) (l : list string) : list string :=
  match l with
  | [] => [name]
  | x :: rest => if String.leb name x then name :: l else x :: insert_sorted name rest
  end.

Definition sorted (l : list string) : list string := fold_right insert_sorted [] l.

Definition is_video (filename : string) : bool :=
  existsb (endswith (lower filename)) allowed_extensions.

Definition get_video_files (folder_path : string) (found : folder)
  : result (list (string * string)) :=
  match found with
  | NoSuchPath => Ok []
  | NotListable => Raise OtherError
  | Entries names =>
      Ok (map (fun filename => (filename, path_join folder_path filename))
              (filter is_video (sorted names)))
  end.

(** ** The selection menu: [display_video_menu] (lines 574-639)

    The operator's answer is a byte string; white space and digits are the
    ASCII ones.  The limit that recent CPython versions put on the number of
    digits [int] accepts is not modelled. *)

(** The white space of [str.strip] and [str.split] among the ASCII characters. *)
Definition is_space (c : ascii) : bool :=
  let n := nat_of_ascii c in
  ((9 <=? n)%nat && (n <=? 13)%nat) || ((28 <=? n)%nat && (n <=? 32)%nat).

Fixpoint drop_spaces (cs : list ascii) : list ascii :=
  match cs with
  | c :: rest => if is_space c then drop_spaces rest else cs
  | [] => []
  end.

(** [s.strip()] *)
Definition str_strip (s : string) : string :=
  string_of_list_ascii (rev (drop_spaces (rev (drop_spaces (list_ascii_of_string s))))).

(** [s.split()]: the maximal runs of characters other than white space;
    [current] holds the run being read, last character first. *)
Fixpoint split_chars (cs current : list ascii) : list string :=
  match cs with
  | [] =>
      match current with
      | [] => []
      | _ => [string_of_list_ascii (rev current)]
      end
  | c :: rest =>
      if is_space c then
        match current with
        | [] => split_chars rest []
        | _ => string_of_list_ascii (rev current) :: split_chars rest []
        end
      else split_chars rest (c :: current)
  end.

Definition str_split (s : string) : list string := split_chars (list_ascii_of_string s) [].

(** The digits of an int literal, with single underscores between digits. *)
Fixpoint digits_value (s : string) (value : Z) (need_digit : bool) : option Z :=
  match s with
  | EmptyString => if need_digit then None else Some value
  | String c rest =>
      match digit c with
      | Some d => digits_value rest (10 * value + d) false
      | None =>
          if Ascii.eqb c "_" && negb need_digit then digits_value rest value true
          else None
      end
  end.

(** [int(s)] on a string without surrounding white space. *)
Definition int_of_str (s : string) : result Z :=
  let parse sign body :=
    match digits_value body 0 true with
    | Some v => Ok (sign * v)
    | None => Raise ValueError
    end in
  match s with
  | String "-" rest => parse (-1) rest
  | String "+" rest => parse 1 rest
  | _ => parse 1 s
  end.

(** The loop over the numbers of the answer. *)
Fixpoint collect_indices (tokens : list string) (count : Z) (selected_indices : list Z)
  : result (list Z) :=
  match tokens with
  | [] => Ok selected_indices
  | num :: rest =>
      n <- int_of_str num ;;
      let index := n - 1 in
      if (0 <=? index) && (index <? count) then
        if existsb (Z.eqb index) selected_indices
        then collect_indices rest count selected_indices
        else collect_indices rest count (selected_indices ++ [index])
      else collect_indices rest count selected_indices
  end.

(** The listing of the videos probes each of them. *)
Fixpoint probe_each (video_files : list (string * string)) : IO unit :=
  match video_files with
  | [] => ret tt
  | (_, path) :: rest => bindIO (get_video_info path) (fun _ => probe_each rest)
  end.

(** [display_video_menu] when [input()] returns [answer]: [None] to exit,
    the empty list to create sample videos, else the selected indices. *)
Definition display_video_menu (video_files : list (string * string)) (answer : string)
  : IO (option (list Z)) :=
  match video_files with
  | [] =>
      let choice := lower (str_strip answer) in
      ret (if String.eqb choice "y" then Some [] else None)
  | _ =>
      bindIO (probe_each video_files) (fun _ =>
        let selection := lower (str_strip answer) in
        if String.eqb selection "" then ret None
        else if String.eqb selection "sample" then ret (Some [])
        else if String.eqb selection "all" then
          ret (Some (map Z.of_nat (seq 0 (List.length video_files))))
        else
          match collect_indices (str_split selection) (Z.of_nat (List.length video_files)) [] with
          | Ok [] => ret None
          | Ok selected_indices => ret (Some selected_indices)
          | Raise ValueError => ret None
          | Raise e => lift (Raise e)
          end)
  end.

(** ** The loop of [process_videos_in_folder] over the files (lines 769-996),
    with its two counters *)


(** * Part II: properties *)

(** ** Facts on rounding *)

Module Binary64Facts.
Import Binary64.
Local Open Scope Q_scope.

Lemma pow2_pos e : 0 < pow2 e.
Proof. apply Qpower_0_lt. reflexivity. Qed.

Lemma pow2_add a b : pow2 (a + b) == pow2 a * pow2 b.
Proof. apply Qpower_plus. discriminate. Qed.

Lemma pow2_succ a : pow2 (a + 1) == 2 * pow2 a.
Proof. rewrite pow2_add. unfold pow2 at 2. simpl. ring. Qed.

Lemma pow2_le a b : (a <= b)%Z -> pow2 a <= pow2 b.
Proof. intros. apply Qpower_le_compat_l; [lia | lra]. Qed.

Lemma pow2_lt a b : (a < b)%Z -> pow2 a < pow2 b.
Proof. intros. apply Qpower_lt_compat_l; [lia | lra]. Qed.

Lemma pow2_lt_inv a b : pow2 a < pow2 b -> (a < b)%Z.
Proof.
  intros H. destruct (Z_lt_le_dec a b) as [|L]; [assumption|].
  apply pow2_le in L. lra.
Qed.

Lemma pow2_Z n : (0 <= n)%Z -> pow2 n == inject_Z (2 ^ n).
Proof. intros. unfold pow2. rewrite Zpower_Qpower by assumption. reflexivity. Qed.

Lemma ilog2_spec x : 0 < x -> pow2 (ilog2 x) <= x /\ x < pow2 (ilog2 x + 1).
Proof.
  intros Hx. unfold ilog2.
  destruct x as [n d]. cbn [Qnum Qden].
  assert (Hn : (0 < n)%Z). { unfold Qlt in Hx. cbn in Hx. lia. }
  set (a := Z.log2 n). set (b := Z.log2 (Zpos d)).
  destruct (Z.log2_spec n Hn) as [Ha1 Ha2]. fold a in Ha1, Ha2.
  destruct (Z.log2_spec (Zpos d) eq_refl) as [Hb1 Hb2]. fold b in Hb1, Hb2.
  assert (Ha0 : (0 <= a)%Z) by apply Z.log2_nonneg.
  assert (Hb0 : (0 <= b)%Z) by apply Z.log2_nonneg.
  assert (HA : pow2 a == inject_Z (2 ^ a)) by (apply pow2_Z; lia).
  assert (HB : pow2 b == inject_Z (2 ^ b)) by (apply pow2_Z; lia).
  assert (Hk : pow2 (a - b) * pow2 b == pow2 a).
  { rewrite <- pow2_add. replace (a - b + b)%Z with a by lia. reflexivity. }
  assert (HN1 : pow2 a <= inject_Z n) by (rewrite HA, <- Zle_Qle; lia).
  assert (HN2 : inject_Z n < 2 * pow2 a).
  { rewrite HA. change 2 with (inject_Z 2). rewrite <- inject_Z_mult, <- Zlt_Qlt.
    rewrite Z.pow_succ_r in Ha2 by lia. lia. }
  assert (HD1 : pow2 b <= inject_Z (Zpos d)) by (rewrite HB, <- Zle_Qle; lia).
  assert (HD2 : inject_Z (Zpos d) < 2 * pow2 b).
  { rewrite HB. change 2 with (inject_Z 2). rewrite <- inject_Z_mult, <- Zlt_Qlt.
    rewrite Z.pow_succ_r in Hb2 by lia. lia. }
  assert (Hx' : (n # d) * inject_Z (Zpos d) == inject_Z n).
  { rewrite (Qmake_Qdiv n d). field. discriminate. }
  pose proof (pow2_pos (a - b)) as Pk. pose proof (pow2_pos b) as Pb.
  pose proof (pow2_pos a) as Pa.
  destruct (Qle_bool (pow2 (a - b)) (n # d)) eqn:E.
  - apply Qle_bool_iff in E. split; [assumption|].
    rewrite pow2_succ. 
    set (X := n # d) in *. set (D := inject_Z (Zpos d)) in *. set (N := inject_Z n) in *.
    set (K := pow2 (a - b)) in *. set (B := pow2 b) in *. set (A := pow2 a) in *.
    assert (0 < D) by lra.
    apply Qnot_le_lt. intros C.
    assert (2 * K * D <= X * D) by nra. nra.
  - assert (E' : n # d < pow2 (a - b)).
    { apply Qnot_le_lt. intros C. apply Qle_bool_iff in C. congruence. }
    replace (a - b - 1 + 1)%Z with (a - b)%Z by lia. split; [|assumption].
    assert (Hk1 : 2 * pow2 (a - b - 1) == pow2 (a - b)).
    { rewrite <- pow2_succ. replace (a - b - 1 + 1)%Z with (a - b)%Z by lia. reflexivity. }
    pose proof (pow2_pos (a - b - 1)) as Pk1.
    set (X := n # d) in *. set (D := inject_Z (Zpos d)) in *. set (N := inject_Z n) in *.
    set (K := pow2 (a - b)) in *. set (B := pow2 b) in *. set (A := pow2 a) in *.
    set (K1 := pow2 (a - b - 1)) in *.
    assert (0 < D) by lra.
    apply Qnot_lt_le. intros C.
    assert (X * D < K1 * D) by nra. nra.
Qed.


Lemma ilog2_unique x k : 0 < x -> pow2 k <= x -> x < pow2 (k + 1) -> ilog2 x = k.
Proof.
  intros Hx H1 H2. destruct (ilog2_spec x Hx) as [S1 S2].
  assert (pow2 k < pow2 (ilog2 x + 1)) by lra.
  assert (pow2 (ilog2 x) < pow2 (k + 1)) by lra.
  apply pow2_lt_inv in H, H0. lia.
Qed.

Lemma ilog2_mono x y : 0 < x -> x <= y -> (ilog2 x <= ilog2 y)%Z.
Proof.
  intros Hx Hxy. destruct (ilog2_spec x Hx) as [S1 _].
  destruct (ilog2_spec y) as [_ T2]; [lra|].
  assert (H : pow2 (ilog2 x) < pow2 (ilog2 y + 1)) by lra.
  apply pow2_lt_inv in H. lia.
Qed.

Lemma ilog2_lt x n : 0 < x -> x < pow2 n -> (ilog2 x < n)%Z.
Proof.
  intros Hx H. destruct (ilog2_spec x Hx) as [S1 _].
  apply pow2_lt_inv. lra.
Qed.

Lemma ilog2_ge x n : pow2 n <= x -> (n <= ilog2 x)%Z.
Proof.
  intros H. pose proof (pow2_pos n).
  destruct (ilog2_spec x) as [_ S2]; [lra|].
  assert (K : pow2 n < pow2 (ilog2 x + 1)) by lra.
  apply pow2_lt_inv in K. lia.
Qed.

Lemma ilog2_eq x y : 0 < x -> x == y -> ilog2 x = ilog2 y.
Proof.
  intros Hx E. destruct (ilog2_spec x Hx) as [S1 S2].
  symmetry. apply ilog2_unique; rewrite <- E; assumption.
Qed.

(** ** Rounding to the nearest integer, ties to even *)

Lemma round_half_even_cases x :
  let f := Qfloor x in
  (round_half_even x = f /\ x - inject_Z f <= 1 # 2) \/
  (round_half_even x = (f + 1)%Z /\ 1 # 2 <= x - inject_Z f).
Proof.
  intros f. unfold round_half_even. fold f.
  destruct (Qcompare_spec (x - inject_Z f) (1 # 2)) as [E|L|G].
  - destruct (Z.even f); [left | right]; (split; [reflexivity | lra]).
  - left. split; [reflexivity | lra].
  - right. split; [reflexivity | lra].
Qed.

Lemma round_half_even_err x :
  Qabs (inject_Z (round_half_even x) - x) <= 1 # 2.
Proof.
  pose proof (Qfloor_le x) as F1. pose proof (Qlt_floor x) as F2.
  rewrite inject_Z_plus in F2. change (inject_Z 1) with 1 in F2.
  apply Qabs_Qle_condition.
  destruct (round_half_even_cases x) as [[-> H]|[-> H]];
    rewrite ?inject_Z_plus; change (inject_Z 1) with 1; lra.
Qed.

Lemma round_half_even_near x k :
  Qabs (x - inject_Z k) < 1 # 2 -> round_half_even x = k.
Proof.
  intros H. apply Qabs_Qlt_condition in H. destruct H as [H1 H2].
  pose proof (Qfloor_le x) as F1. pose proof (Qlt_floor x) as F2.
  rewrite inject_Z_plus in F2. change (inject_Z 1) with 1 in F2.
  set (f := Qfloor x) in *.
  assert (Hk : (k = f \/ k = f + 1)%Z).
  { assert (A : inject_Z k < inject_Z (f + 2)).
    { rewrite inject_Z_plus. change (inject_Z 2) with 2. lra. }
    assert (B : inject_Z (f - 1) < inject_Z k).
    { unfold Z.sub. rewrite inject_Z_plus, inject_Z_opp. change (inject_Z 1) with 1. lra. }
    rewrite <- Zlt_Qlt in A, B. lia. }
  destruct (round_half_even_cases x) as [[-> H]|[-> H]]; fold f in H;
    destruct Hk as [-> | ->]; try reflexivity; exfalso;
    rewrite ?inject_Z_plus in *; change (inject_Z 1) with 1 in *; lra.
Qed.

Lemma round_half_even_Z x z : x == inject_Z z -> round_half_even x = z.
Proof.
  intros E. apply round_half_even_near. rewrite E.
  setoid_replace (inject_Z z - inject_Z z) with 0 by ring. reflexivity.
Qed.

#[global] Instance round_half_even_comp : Proper (Qeq ==> eq) round_half_even.
Proof.
  intros x y E. unfold round_half_even.
  assert (F : Qfloor x = Qfloor y) by (rewrite E; reflexivity).
  rewrite F.
  assert (C : (x - inject_Z (Qfloor y) ?= 1 # 2) = (y - inject_Z (Qfloor y) ?= 1 # 2))
    by (rewrite E; reflexivity).
  rewrite C. reflexivity.
Qed.

Lemma round_half_even_mono x y : x <= y -> (round_half_even x <= round_half_even y)%Z.
Proof.
  intros L. pose proof (Qfloor_resp_le x y L) as F.
  destruct (round_half_even_cases x) as [[Ex Hx]|[Ex Hx]];
  destruct (round_half_even_cases y) as [[Ey Hy]|[Ey Hy]]; try lia.
  (* x rounds up, y rounds down *)
  destruct (Z.eq_dec (Qfloor x) (Qfloor y)) as [E|N]; [|lia].
  exfalso. rewrite E in *.
  assert (Exy : x == y) by lra.
  rewrite Exy in Ex. lia.
Qed.


(** ** Rounding to binary64 *)

Lemma fexp_ge_emin x : (-1074 <= fexp x)%Z.
Proof. unfold fexp. lia. Qed.

Lemma fexp_ge_ilog2 x : (ilog2 x - 52 <= fexp x)%Z.
Proof. unfold fexp. lia. Qed.

Lemma fexp_lt x n : 0 < x -> x < pow2 n -> (-1074 <= n - 53)%Z -> (fexp x <= n - 53)%Z.
Proof.
  intros Hx H Hn. pose proof (ilog2_lt x n Hx H). unfold fexp. lia.
Qed.

Lemma fexp_mono x y : 0 < x -> x <= y -> (fexp x <= fexp y)%Z.
Proof. intros Hx L. pose proof (ilog2_mono x y Hx L). unfold fexp. lia. Qed.

Lemma fexp_eq x y : 0 < x -> x == y -> fexp x = fexp y.
Proof. intros Hx E. unfold fexp. rewrite (ilog2_eq x y Hx E). reflexivity. Qed.

Lemma rne_pos_eq x :
  rne_pos x == inject_Z (round_half_even (x / pow2 (fexp x))) * pow2 (fexp x).
Proof. unfold rne_pos. apply Qred_correct. Qed.

Lemma scale_unscale x e : x / pow2 e * pow2 e == x.
Proof. field. pose proof (pow2_pos e). lra. Qed.

Lemma rne_pos_err x : Qabs (rne_pos x - x) <= pow2 (fexp x) * (1 # 2).
Proof.
  rewrite rne_pos_eq. set (E := fexp x). set (s := x / pow2 E).
  pose proof (pow2_pos E) as PE.
  pose proof (round_half_even_err s) as R.
  apply Qabs_Qle_condition in R. apply Qabs_Qle_condition.
  assert (Hs : x == s * pow2 E) by (unfold s; rewrite scale_unscale; reflexivity).
  set (m := inject_Z (round_half_even s)) in *.
  destruct R as [R1 R2]. split.
  - setoid_replace (m * pow2 E - x) with ((m - s) * pow2 E) by (rewrite Hs at 1; ring). nra.
  - setoid_replace (m * pow2 E - x) with ((m - s) * pow2 E) by (rewrite Hs at 1; ring). nra.
Qed.

Lemma rne_pos_nonneg x : 0 <= x -> 0 <= rne_pos x.
Proof.
  intros Hx. rewrite rne_pos_eq. pose proof (pow2_pos (fexp x)) as PE.
  assert (0 <= x / pow2 (fexp x)).
  { apply Qle_shift_div_l; [assumption | lra]. }
  pose proof (round_half_even_mono _ _ H) as M.
  rewrite (round_half_even_Z 0 0%Z) in M by reflexivity.
  apply Qmult_le_0_compat; [| lra].
  change 0 with (inject_Z 0). rewrite <- Zle_Qle. assumption.
Qed.

Lemma rne_pos_fix x m e :
  0 < x -> x == inject_Z m * pow2 e -> (m < 2 ^ 53)%Z -> (-1074 <= e)%Z ->
  rne_pos x == x.
Proof.
  intros Hx Hm Hb He. rewrite rne_pos_eq.
  pose proof (pow2_pos e) as Pe.
  assert (Hlt : x < pow2 (53 + e)).
  { rewrite Hm, pow2_add. rewrite (pow2_Z 53) by lia.
    apply Qmult_lt_compat_r; [assumption|]. rewrite <- Zlt_Qlt. assumption. }
  assert (HE : (fexp x <= e)%Z).
  { pose proof (fexp_lt x (53 + e) Hx Hlt). lia. }
  set (E := fexp x) in *.
  assert (Hs : x / pow2 E == inject_Z (m * 2 ^ (e - E))).
  { rewrite Hm. rewrite inject_Z_mult, <- pow2_Z by lia.
    replace e with (e - E + E)%Z at 1 by lia. rewrite pow2_add.
    field. pose proof (pow2_pos E). lra. }
  rewrite (round_half_even_Z _ _ Hs). rewrite <- Hs. apply scale_unscale.
Qed.

Lemma rne_pos_mono x y : 0 < x -> x <= y -> rne_pos x <= rne_pos y.
Proof.
  intros Hx L. assert (Hy : 0 < y) by lra.
  pose proof (fexp_mono x y Hx L) as FE.
  rewrite !rne_pos_eq.
  set (Ex := fexp x) in *. set (Ey := fexp y) in *.
  pose proof (pow2_pos Ex) as PEx. pose proof (pow2_pos Ey) as PEy.
  destruct (Z.eq_dec Ex Ey) as [E|N].
  - rewrite E in *. apply Qmult_le_compat_r; [| lra].
    rewrite <- Zle_Qle. apply round_half_even_mono.
    apply Qmult_le_compat_r; [assumption|]. apply Qlt_le_weak, Qinv_lt_0_compat. assumption.
  - assert (Lt : (Ex < Ey)%Z) by lia.
    (* the smaller one stays below 2^(Ex+53), the larger one above 2^(Ey+52) *)
    destruct (ilog2_spec x Hx) as [_ Sx]. destruct (ilog2_spec y Hy) as [Sy _].
    assert (Kx : (ilog2 x + 1 <= Ex + 53)%Z) by (unfold Ex, fexp; lia).
    assert (Ky : (Ey + 52 = ilog2 y)%Z) by (unfold Ex, Ey, fexp in *; lia).
    assert (Bx : x / pow2 Ex <= inject_Z (2 ^ 53)).
    { apply Qle_shift_div_r; [assumption|]. rewrite <- pow2_Z, <- pow2_add by lia.
      apply Qlt_le_weak. eapply Qlt_le_trans; [exact Sx|]. apply pow2_le. lia. }
    assert (By : inject_Z (2 ^ 52) <= y / pow2 Ey).
    { apply Qle_shift_div_l; [assumption|]. rewrite <- pow2_Z, <- pow2_add by lia.
      eapply Qle_trans; [|exact Sy]. apply pow2_le. lia. }
    apply round_half_even_mono in Bx, By.
    rewrite (round_half_even_Z _ _ (Qeq_refl _)) in Bx.
    rewrite (round_half_even_Z _ _ (Qeq_refl _)) in By.
    apply Qle_trans with (pow2 (Ex + 53)).
    + rewrite pow2_add, (Qmult_comm (pow2 Ex)), (pow2_Z 53) by lia.
      apply Qmult_le_compat_r; [| lra]. rewrite <- Zle_Qle. assumption.
    + apply Qle_trans with (pow2 (Ey + 52)); [apply pow2_le; lia|].
      rewrite pow2_add, (Qmult_comm (pow2 Ey)), (pow2_Z 52) by lia.
      apply Qmult_le_compat_r; [| lra]. rewrite <- Zle_Qle. assumption.
Qed.

Lemma rne_pos_comp x y : 0 < x -> x == y -> rne_pos x == rne_pos y.
Proof.
  intros Hx E. rewrite !rne_pos_eq. rewrite (fexp_eq x y Hx E).
  rewrite E. reflexivity.
Qed.

Lemma rne_gt x : 0 < x -> rne x = rne_pos x.
Proof. intros H. unfold rne. destruct (Qcompare_spec x 0); [lra | lra | reflexivity]. Qed.

Lemma rne_lt x : x < 0 -> rne x = - rne_pos (- x).
Proof. intros H. unfold rne. destruct (Qcompare_spec x 0); [lra | reflexivity | lra]. Qed.

Lemma rne_zero x : x == 0 -> rne x = 0.
Proof. intros H. unfold rne. destruct (Qcompare_spec x 0); [reflexivity | lra | lra]. Qed.

Lemma rne_cases x :
  (x == 0 /\ rne x = 0) \/ (0 < x /\ rne x = rne_pos x) \/ (x < 0 /\ rne x = - rne_pos (- x)).
Proof.
  destruct (Q_dec x 0) as [[L|G]|E].
  - right; right. split; [assumption | apply rne_lt; assumption].
  - right; left. split; [assumption | apply rne_gt; assumption].
  - left. split; [assumption | apply rne_zero; assumption].
Qed.

#[global] Instance rne_comp : Proper (Qeq ==> Qeq) rne.
Proof.
  intros x y E.
  destruct (rne_cases x) as [[Hx ->]|[[Hx ->]|[Hx ->]]].
  - rewrite rne_zero by (rewrite <- E; assumption). reflexivity.
  - rewrite rne_gt by (rewrite <- E; assumption). apply rne_pos_comp; assumption.
  - rewrite rne_lt by (rewrite <- E; assumption).
    apply Qopp_comp. apply rne_pos_comp; [lra | rewrite E; reflexivity].
Qed.

Lemma rne_opp x : rne (- x) == - rne x.
Proof.
  destruct (rne_cases x) as [[Hx ->]|[[Hx ->]|[Hx ->]]].
  - rewrite rne_zero by lra. reflexivity.
  - rewrite rne_lt by lra. apply Qopp_comp, rne_pos_comp; [lra | ring].
  - rewrite rne_gt by lra. ring.
Qed.

Lemma rne_nonneg x : 0 <= x -> 0 <= rne x.
Proof.
  intros H. destruct (rne_cases x) as [[Hx ->]|[[Hx ->]|[Hx ->]]]; try lra.
  apply rne_pos_nonneg. lra.
Qed.

Lemma rne_mono x y : x <= y -> rne x <= rne y.
Proof.
  intros L.
  destruct (rne_cases x) as [[Hx ->]|[[Hx ->]|[Hx ->]]].
  - apply rne_nonneg. lra.
  - rewrite rne_gt by lra. apply rne_pos_mono; assumption.
  - destruct (rne_cases y) as [[Hy ->]|[[Hy ->]|[Hy ->]]].
    + pose proof (rne_pos_nonneg (- x)). lra.
    + pose proof (rne_pos_nonneg (- x)). pose proof (rne_pos_nonneg y). lra.
    + assert (rne_pos (- y) <= rne_pos (- x)) by (apply rne_pos_mono; lra). lra.
Qed.

Lemma rne_fix x m e :
  x == inject_Z m * pow2 e -> (Z.abs m < 2 ^ 53)%Z -> (-1074 <= e)%Z -> rne x == x.
Proof.
  intros Hm Hb He.
  destruct (rne_cases x) as [[Hx ->]|[[Hx ->]|[Hx ->]]].
  - symmetry. assumption.
  - apply (rne_pos_fix x m e); try assumption. lia.
  - rewrite (rne_pos_fix (- x) (- m) e); try lra; try lia.
    rewrite Hm, inject_Z_opp. ring.
Qed.

Lemma rne_Z z : (Z.abs z < 2 ^ 53)%Z -> rne (inject_Z z) == inject_Z z.
Proof.
  intros H. apply (rne_fix _ z 0); [| assumption | lia].
  unfold pow2. simpl. ring.
Qed.

Lemma rne_err x : Qabs (rne x - x) <= pow2 (fexp (Qabs x)) * (1 # 2).
Proof.
  pose proof (pow2_pos (fexp (Qabs x))) as P.
  destruct (rne_cases x) as [[Hx ->]|[[Hx ->]|[Hx ->]]].
  - setoid_replace (0 - x) with 0 by lra. simpl. lra.
  - pose proof (rne_pos_err x) as R.
    rewrite (fexp_eq (Qabs x) x); [assumption | | apply Qabs_pos; lra].
    rewrite Qabs_pos; lra.
  - pose proof (rne_pos_err (- x)) as R.
    rewrite (fexp_eq (Qabs x) (- x)); [ | | apply Qabs_neg; lra].
    + setoid_replace (- rne_pos (- x) - x) with (- (rne_pos (- x) - - x)) by ring.
      rewrite Qabs_opp. assumption.
    + rewrite Qabs_neg; lra.
Qed.

Lemma rne_err_below x n :
  Qabs x < pow2 n -> (-1074 <= n - 53)%Z -> Qabs (rne x - x) <= pow2 (n - 54).
Proof.
  intros H Hn. destruct (Qeq_dec x 0) as [E|N].
  - rewrite (rne_zero x E). setoid_replace (0 - x) with 0 by lra.
    simpl. apply Qlt_le_weak, pow2_pos.
  - assert (Hp : 0 < Qabs x).
    { pose proof (Qabs_nonneg x). destruct (Qeq_dec (Qabs x) 0) as [Z|Z]; [|lra].
      exfalso. apply N. revert Z. apply Qabs_case; intros; lra. }
    eapply Qle_trans; [apply rne_err|].
    pose proof (fexp_lt (Qabs x) n Hp H Hn) as F.
    apply pow2_le in F.
    setoid_replace (pow2 (n - 53)) with (2 * pow2 (n - 54)) in F
      by (rewrite <- pow2_succ; replace (n - 54 + 1)%Z with (n - 53)%Z by lia; reflexivity).
    lra.
Qed.

Lemma rne_err_rel x :
  pow2 (-1022) <= Qabs x -> Qabs (rne x - x) <= pow2 (-53) * Qabs x.
Proof.
  intros H. eapply Qle_trans; [apply rne_err|].
  pose proof (pow2_pos (-1022)) as P.
  destruct (ilog2_spec (Qabs x)) as [S1 _]; [lra|].
  pose proof (ilog2_ge _ _ H) as G.
  replace (fexp (Qabs x)) with (ilog2 (Qabs x) - 52)%Z by (unfold fexp; lia).
  setoid_replace (pow2 (ilog2 (Qabs x) - 52) * (1 # 2))
    with (pow2 (-53) * pow2 (ilog2 (Qabs x))).
  - apply Qmult_le_l; [apply pow2_pos | assumption].
  - replace (ilog2 (Qabs x) - 52)%Z with (-52 + ilog2 (Qabs x))%Z by lia.
    rewrite pow2_add. unfold pow2 at 1 3. simpl. field.
Qed.


Lemma rne_abs_le x m e :
  Qabs x <= inject_Z m * pow2 e -> (0 <= m < 2 ^ 53)%Z -> (-1074 <= e)%Z ->
  Qabs (rne x) <= inject_Z m * pow2 e.
Proof.
  intros H Hm He. set (b := inject_Z m * pow2 e) in *.
  assert (Fb : rne b == b) by (apply (rne_fix b m e); [reflexivity | lia | lia]).
  apply Qabs_Qle_condition in H. destruct H as [H1 H2].
  apply Qabs_Qle_condition. split.
  - rewrite <- Fb, <- rne_opp. apply rne_mono. assumption.
  - rewrite <- Fb. apply rne_mono. assumption.
Qed.

Lemma rne_gt_inv x m e :
  inject_Z m * pow2 e < rne x -> (Z.abs m < 2 ^ 53)%Z -> (-1074 <= e)%Z ->
  inject_Z m * pow2 e < x.
Proof.
  intros H Hm He. apply Qnot_le_lt. intros C. apply rne_mono in C.
  rewrite (rne_fix (inject_Z m * pow2 e) m e) in C; [lra | reflexivity | lia | lia].
Qed.

Lemma rne_lt_inv x m e :
  rne x < inject_Z m * pow2 e -> (Z.abs m < 2 ^ 53)%Z -> (-1074 <= e)%Z ->
  x < inject_Z m * pow2 e.
Proof.
  intros H Hm He. apply Qnot_le_lt. intros C. apply rne_mono in C.
  rewrite (rne_fix (inject_Z m * pow2 e) m e) in C; [lra | reflexivity | lia | lia].
Qed.

Lemma rne_rel_up x : pow2 (-1022) <= x -> rne x <= x * (1 + u53).
Proof.
  intros H. pose proof (pow2_pos (-1022)).
  assert (A : Qabs x == x) by (apply Qabs_pos; lra).
  pose proof (rne_err_rel x) as R. rewrite A in R. specialize (R H).
  apply Qabs_Qle_condition in R. unfold u53. lra.
Qed.

Lemma rne_rel_down x : pow2 (-1022) <= x -> x * (1 - u53) <= rne x.
Proof.
  intros H. pose proof (pow2_pos (-1022)).
  assert (A : Qabs x == x) by (apply Qabs_pos; lra).
  pose proof (rne_err_rel x) as R. rewrite A in R. specialize (R H).
  apply Qabs_Qle_condition in R. unfold u53. lra.
Qed.

Lemma rne_ge_1 x : 1 <= x -> 1 <= rne x.
Proof.
  intros H. apply rne_mono in H.
  rewrite (rne_fix 1 1 0) in H; [assumption | reflexivity | lia | lia].
Qed.

Lemma pow2_m1022_small : pow2 (-1022) <= 3 # 4.
Proof.
  apply Qle_trans with (pow2 (-1)); [apply pow2_le; lia|].
  vm_compute. discriminate.
Qed.

(** [rne] agrees with the Standard Library's IEEE 754 multiplication,
    division and subtraction on the sample operands, among them subnormal
    results, ties and the constants of the program. *)
Lemma rne_agrees_with_SpecFloat :
  (forallb (Reference.agrees (SFmul 53 1024) Qmult) Reference.products &&
   forallb (Reference.agrees (SFdiv 53 1024) Qdiv) Reference.quotients &&
   forallb (Reference.agrees (SFsub 53 1024) Qminus) Reference.differences)%bool = true.
Proof. vm_compute. reflexivity. Qed.

End Binary64Facts.

Import Binary64 Binary64Facts.

(** ** Inversion of the monadic steps *)

Lemma bind_Ok {A B} (c : result A) (k : A -> result B) (b : B) :
  bind c k = Ok b -> exists a, c = Ok a /\ k a = Ok b.
Proof. destruct c as [a|e]; cbn; [eauto | discriminate]. Qed.

Lemma round_float_inv x v :
  round_float x = Fin v -> v = Binary64.rne x /\ overflows (Binary64.rne x) = false.
Proof.
  unfold round_float. destruct (overflows _) eqn:E; [discriminate|].
  intros [= <-]. auto.
Qed.

Lemma float_of_int_inv z f :
  float_of_int z = Ok f -> f = Fin (Binary64.rne (inject_Z z)).
Proof.
  unfold float_of_int. destruct (overflows _); [discriminate|]. congruence.
Qed.

Lemma int_truediv_inv a b f :
  int_truediv a b = Ok f -> b <> 0 /\ f = Fin (Binary64.rne (inject_Z a / inject_Z b)).
Proof.
  unfold int_truediv. destruct (Z.eqb_spec b 0); [discriminate|].
  destruct (overflows _); [discriminate|]. intros [= <-]. auto.
Qed.

Lemma py_int_inv f z :
  py_int f = Ok z -> exists x, f = Fin x /\ z = trunc x.
Proof. destruct f; cbn; try discriminate. intros [= <-]. eauto. Qed.

Lemma py_round_inv f z :
  py_round f = Ok z -> exists x, f = Fin x /\ z = Binary64.round_half_even x.
Proof. destruct f; cbn; try discriminate. intros [= <-]. eauto. Qed.

Lemma fdiv_Fin_inv x y v :
  fdiv (Fin x) (Fin y) = Ok (Fin v) -> ~ (y == 0)%Q /\ v = Binary64.rne (x / y).
Proof.
  cbn. destruct (Qeq_bool y 0) eqn:E; [discriminate|].
  intros [= H]. apply round_float_inv in H. split; [|tauto].
  intros C. apply Qeq_bool_iff in C. congruence.
Qed.

Lemma force_even_even n : Z.even (force_even n) = true.
Proof.
  unfold force_even. destruct (Z.eqb_spec (n mod 2) 0) as [E|N].
  - rewrite Zeven_mod, E. reflexivity.
  - rewrite Zeven_mod. replace (n - 1) with (n + (-1) * 2 + 1) by lia.
    pose proof (Z.mod_pos_bound n 2 eq_refl).
    replace ((n + -1 * 2 + 1) mod 2) with 0; [reflexivity|].
    rewrite Z.add_comm, Z.add_assoc, Z_mod_plus_full.
    rewrite Z.add_comm, <- Zplus_mod_idemp_l.
    replace (n mod 2) with 1 by lia. reflexivity.
Qed.

Lemma force_even_le n : force_even n <= n.
Proof. unfold force_even. destruct (n mod 2 =? 0); lia. Qed.

Lemma force_even_ge n : n - 1 <= force_even n.
Proof. unfold force_even. destruct (n mod 2 =? 0); lia. Qed.

Lemma force_even_id n : Z.even n = true -> force_even n = n.
Proof.
  intros H. unfold force_even. rewrite Zeven_mod in H.
  apply Z.eqb_eq in H. rewrite H. reflexivity.
Qed.

Lemma plan_geometry_inv W H g :
  plan_geometry W H = Ok g ->
  exists cw0 ch0 cx cy rad r w h,
    plan_crop W H = Ok (cw0, ch0, cx, cy) /\
    (c <- int_truediv 2 360 ;; x <- int_mul_float (force_even cw0) c ;; py_round x) = Ok r /\
    plan_canvas (force_even cw0) (force_even ch0) (Z.max 1 r) = Ok (w, h) /\
    g = {| crop_width := force_even cw0; crop_height := force_even ch0;
           crop_x := cx; crop_y := cy; radius := rad; border_size := Z.max 1 r;
           canvas_width := force_even w; canvas_height := force_even h;
           paste_x := (force_even w - (force_even cw0 + Z.max 1 r * 2)) / 2;
           paste_y := 0 |}.
Proof.
  unfold plan_geometry. intros E.
  apply bind_Ok in E. destruct E as ([[[cw0 ch0] cx] cy] & Ecrop & E).
  apply bind_Ok in E. destruct E as (c16 & _ & E).
  apply bind_Ok in E. destruct E as (x16 & _ & E).
  apply bind_Ok in E. destruct E as (rad & _ & E).
  apply bind_Ok in E. destruct E as (c2 & E2 & E).
  apply bind_Ok in E. destruct E as (x2 & E3 & E).
  apply bind_Ok in E. destruct E as (r & E4 & E).
  apply bind_Ok in E. destruct E as ([w h] & Ecan & E).
  injection E as <-.
  exists cw0, ch0, cx, cy, rad, r, w, h.
  rewrite E2. cbn [bind]. rewrite E3. cbn [bind]. auto.
Qed.

(** ** The crop step *)


Lemma overflows_false_small y b :
  (Qabs y <= b)%Q -> (b < pow2 1024)%Q -> overflows y = false.
Proof.
  intros H1 H2. unfold overflows.
  destruct (Qle_bool (pow2 1024) (Qabs y)) eqn:E; [|reflexivity].
  apply Qle_bool_iff in E. lra.
Qed.

Lemma flt_Fin x y : flt (Fin x) (Fin y) = true <-> (x < y)%Q.
Proof.
  cbn. split.
  - intros H. apply Qnot_le_lt. intros C. apply Qle_bool_iff in C.
    rewrite C in H. discriminate.
  - intros H. destruct (Qle_bool y x) eqn:E; [|reflexivity].
    apply Qle_bool_iff in E. lra.
Qed.

Lemma float_lit_0_01 :
  float_lit (1 # 100) = Fin (5764607523034235 # 576460752303423488).
Proof. vm_compute. reflexivity. Qed.

Lemma target_ratio_exact : int_truediv 3 4 = Ok (Fin (3 # 4)).
Proof. vm_compute. reflexivity. Qed.

(** Ratios within 2^-7 of 3/4 pass the tolerance test of the source. *)
Lemma near_target r :
  (Qabs (r - (3 # 4)) <= pow2 (-7))%Q ->
  flt (fabs (fsub (Fin r) (Fin (3 # 4)))) (float_lit (1 # 100)) = true.
Proof.
  intros H. cbn [fsub]. unfold round_float.
  assert (B : (Qabs (rne (r - (3 # 4))) <= inject_Z 1 * pow2 (-7))%Q).
  { apply rne_abs_le; [| lia | lia]. setoid_replace (inject_Z 1 * pow2 (-7))%Q
      with (pow2 (-7)) by ring. assumption. }
  rewrite (overflows_false_small _ _ B).
  - cbn [fabs]. rewrite float_lit_0_01. apply flt_Fin.
    eapply Qle_lt_trans; [exact B|]. vm_compute. reflexivity.
  - vm_compute. reflexivity.
Qed.

Lemma trunc_nonneg x : (0 <= x)%Q -> trunc x = Qfloor x.
Proof. intros H. unfold trunc. apply Qle_bool_iff in H. rewrite H. reflexivity. Qed.

Lemma crop_width_bound H fh x cw :
  0 < H -> float_of_int H = Ok fh -> fmul fh (Fin (3 # 4)) = x -> py_int x = Ok cw ->
  0 <= cw /\ (inject_Z cw <= inject_Z H * (97 # 128))%Q.
Proof.
  intros HH Eh Ex Ec. apply float_of_int_inv in Eh. subst fh.
  apply py_int_inv in Ec. destruct Ec as (v & Ev & ->). subst x.
  cbn [fmul] in Ev. apply round_float_inv in Ev. destruct Ev as [-> _].
  set (h := rne (inject_Z H)) in *.
  assert (H1 : (1 <= inject_Z H)%Q) by (change 1%Q with (inject_Z 1); rewrite <- Zle_Qle; lia).
  pose proof pow2_m1022_small as S.
  assert (Hh1 : (1 <= h)%Q) by (apply rne_ge_1; assumption).
  assert (Hh2 : (h <= inject_Z H * (1 + u53))%Q) by (apply rne_rel_up; lra).
  assert (Hp : (pow2 (-1022) <= h * (3 # 4))%Q) by lra.
  pose proof (rne_rel_up _ Hp) as Hv.
  assert (Hv0 : (0 <= rne (h * (3 # 4)))%Q) by (apply rne_nonneg; lra).
  set (v := rne (h * (3 # 4))) in *.
  rewrite trunc_nonneg by assumption. split.
  - change 0 with (Qfloor 0). apply Qfloor_resp_le. assumption.
  - eapply Qle_trans; [apply Qfloor_le|].
    assert (U : (u53 == 1 # 9007199254740992)%Q) by (vm_compute; reflexivity).
    rewrite U in *. nra.
Qed.

Lemma crop_height_bound W fw x ch :
  0 < W -> float_of_int W = Ok fw -> fdiv fw (Fin (3 # 4)) = Ok x -> py_int x = Ok ch ->
  0 <= ch /\ (inject_Z ch <= inject_Z W * (128 # 95))%Q.
Proof.
  intros HW Ew Ex Ec. apply float_of_int_inv in Ew. subst fw.
  apply py_int_inv in Ec. destruct Ec as (v & -> & ->).
  apply fdiv_Fin_inv in Ex. destruct Ex as [_ ->].
  set (w := rne (inject_Z W)) in *.
  assert (H1 : (1 <= inject_Z W)%Q) by (change 1%Q with (inject_Z 1); rewrite <- Zle_Qle; lia).
  pose proof pow2_m1022_small as S.
  assert (Hw1 : (1 <= w)%Q) by (apply rne_ge_1; assumption).
  assert (Hw2 : (w <= inject_Z W * (1 + u53))%Q) by (apply rne_rel_up; lra).
  assert (Eq : (w / (3 # 4) == w * (4 # 3))%Q) by (field).
  assert (Hp : (pow2 (-1022) <= w / (3 # 4))%Q) by (rewrite Eq; lra).
  pose proof (rne_rel_up _ Hp) as Hv.
  assert (Hv0 : (0 <= rne (w / (3 # 4)))%Q) by (apply rne_nonneg; rewrite Eq; lra).
  set (v := rne (w / (3 # 4))) in *.
  rewrite trunc_nonneg by assumption. split.
  - change 0 with (Qfloor 0). apply Qfloor_resp_le. assumption.
  - eapply Qle_trans; [apply Qfloor_le|].
    assert (U : (u53 == 1 # 9007199254740992)%Q) by (vm_compute; reflexivity).
    rewrite U, Eq in *. nra.
Qed.

Lemma Qdiv_gt_inv c w h : (0 < h)%Q -> (c < w / h)%Q -> (h * c < w)%Q.
Proof.
  intros Hh H. assert (E : (w == w / h * h)%Q) by (field; lra).
  rewrite E. apply Qmult_lt_compat_r with (z := h) in H; [|assumption]. lra.
Qed.

Lemma Qdiv_lt_inv c w h : (0 < h)%Q -> (w / h < c)%Q -> (w < h * c)%Q.
Proof.
  intros Hh H. assert (E : (w == w / h * h)%Q) by (field; lra).
  rewrite E. apply Qmult_lt_compat_r with (z := h) in H; [|assumption]. lra.
Qed.

Lemma inject_Z_pos z : 0 < z -> (0 < inject_Z z)%Q.
Proof. intros. change 0%Q with (inject_Z 0). rewrite <- Zlt_Qlt. assumption. Qed.

Lemma far_from_target r :
  flt (fabs (fsub (Fin r) (Fin (3 # 4)))) (float_lit (1 # 100)) = false ->
  (pow2 (-7) < Qabs (r - (3 # 4)))%Q.
Proof.
  intros T. apply Qnot_le_lt. intros C. rewrite (near_target r C) in T. discriminate.
Qed.

(** The three branches of the crop computation, with what the floating-point
    tests imply about the exact ratio W/H. *)
Lemma plan_crop_cases W H cw ch cx cy :
  0 < W -> 0 < H -> plan_crop W H = Ok (cw, ch, cx, cy) ->
  (cw = W /\ ch = H /\ cx = 0 /\ cy = 0) \/
  ((inject_Z H * (97 # 128) < inject_Z W)%Q /\ ch = H /\ cx = (W - cw) / 2 /\ cy = 0 /\
   exists fh, float_of_int H = Ok fh /\ py_int (fmul fh (Fin (3 # 4))) = Ok cw) \/
  ((inject_Z W < inject_Z H * (95 # 128))%Q /\ cw = W /\ cx = 0 /\ cy = 0 /\
   exists fw x, float_of_int W = Ok fw /\ fdiv fw (Fin (3 # 4)) = Ok x /\ py_int x = Ok ch).
Proof.
  intros HW HH. unfold plan_crop. rewrite target_ratio_exact. cbn [bind].
  intros E. apply bind_Ok in E. destruct E as (vr & Er & E).
  apply int_truediv_inv in Er. destruct Er as [_ ->].
  pose proof (inject_Z_pos H HH) as Hq.
  set (r := rne (inject_Z W / inject_Z H)) in *.
  assert (P7 : (pow2 (-7) == 1 # 128)%Q) by (vm_compute; reflexivity).
  destruct (flt (fabs _) _) eqn:T1.
  - left. injection E as <- <- <- <-. auto.
  - apply far_from_target in T1. rewrite P7 in T1.
    destruct (fgt (Fin r) (Fin (3 # 4))) eqn:T2.
    + right; left. unfold fgt in T2. apply flt_Fin in T2.
      assert (G : (inject_Z 97 * pow2 (-7) < r)%Q).
      { rewrite P7. revert T1. apply Qabs_case; intros; change (inject_Z 97) with 97%Q; lra. }
      apply rne_gt_inv in G; [| simpl; lia | lia].
      apply Qdiv_gt_inv in G; [|assumption].
      rewrite P7 in G. change (inject_Z 97) with 97%Q in G.
      apply bind_Ok in E. destruct E as (x & Ex & E).
      apply bind_Ok in E. destruct E as (c & Ec & E).
      injection E as <- <- <- <-.
      unfold int_mul_float in Ex. apply bind_Ok in Ex. destruct Ex as (fh & Efh & Ex).
      injection Ex as <-.
      split; [lra|]. repeat split; try reflexivity. exists fh. auto.
    + right; right.
      assert (T2' : (r <= 3 # 4)%Q).
      { apply Qnot_lt_le. intros C. apply flt_Fin in C. unfold fgt in T2. congruence. }
      assert (G : (r < inject_Z 95 * pow2 (-7))%Q).
      { rewrite P7. revert T1. apply Qabs_case; intros; change (inject_Z 95) with 95%Q; lra. }
      apply rne_lt_inv in G; [| simpl; lia | lia].
      apply Qdiv_lt_inv in G; [|assumption].
      rewrite P7 in G. change (inject_Z 95) with 95%Q in G.
      apply bind_Ok in E. destruct E as (x & Ex & E).
      apply bind_Ok in E. destruct E as (c & Ec & E).
      injection E as <- <- <- <-.
      unfold int_div_float in Ex. apply bind_Ok in Ex. destruct Ex as (fw & Efw & Ex).
      split; [lra|]. repeat split; try reflexivity. exists fw, x. auto.
Qed.

Lemma plan_crop_in_frame W H cw ch cx cy :
  0 < W -> 0 < H -> plan_crop W H = Ok (cw, ch, cx, cy) ->
  0 <= cx /\ cy = 0 /\ cx + cw <= W /\ 0 <= cw /\ 0 <= ch <= H.
Proof.
  intros HW HH E.
  pose proof (inject_Z_pos W HW) as Wq. pose proof (inject_Z_pos H HH) as Hq.
  destruct (plan_crop_cases W H cw ch cx cy HW HH E)
    as [(-> & -> & -> & ->) | [(R & -> & -> & -> & fh & Efh & Ec) |
                               (R & -> & -> & -> & fw & x & Efw & Ex & Ec)]].
  - lia.
  - destruct (crop_width_bound H fh _ cw HH Efh eq_refl Ec) as [C0 C1].
    assert (L : (inject_Z cw < inject_Z W)%Q) by lra.
    rewrite <- Zlt_Qlt in L.
    pose proof (Z.div_pos (W - cw) 2). 
    pose proof (Z.mul_div_le (W - cw) 2). lia.
  - destruct (crop_height_bound W fw x ch HW Efw Ex Ec) as [C0 C1].
    assert (L : (inject_Z ch < inject_Z H)%Q) by lra.
    rewrite <- Zlt_Qlt in L. lia.
Qed.

(** ** Evaluation of the floating-point steps on values that cannot overflow *)

Lemma pow2_1024_big n : (n < 1024)%Z -> (pow2 n < pow2 1024)%Q.
Proof. apply pow2_lt. Qed.

Lemma round_float_small x n :
  (Qabs x <= pow2 n)%Q -> (-1074 <= n < 1024)%Z -> round_float x = Fin (rne x).
Proof.
  intros Hx Hn. unfold round_float.
  rewrite (overflows_false_small (rne x) (pow2 n)); [reflexivity | | apply pow2_lt; lia].
  setoid_replace (pow2 n) with (inject_Z 1 * pow2 n)%Q by ring.
  apply rne_abs_le; [| lia | lia].
  setoid_replace (inject_Z 1 * pow2 n)%Q with (pow2 n) by ring. assumption.
Qed.

Lemma inject_Z_abs_lt z n : 0 <= n -> Z.abs z < 2 ^ n -> (Qabs (inject_Z z) <= pow2 n)%Q.
Proof.
  intros Hn Hz. rewrite pow2_Z by assumption.
  change (Qabs (inject_Z z)) with (inject_Z (Z.abs z)).
  rewrite <- Zle_Qle. lia.
Qed.

Lemma float_of_int_small z :
  Z.abs z < 2 ^ 53 -> float_of_int z = Ok (Fin (rne (inject_Z z))).
Proof.
  intros Hz. unfold float_of_int.
  rewrite (overflows_false_small (rne (inject_Z z)) (pow2 53)); [reflexivity | | apply pow2_lt; lia].
  rewrite rne_Z by assumption. apply inject_Z_abs_lt; lia.
Qed.

Lemma int_truediv_small a b n :
  b <> 0 -> (Qabs (inject_Z a / inject_Z b) <= pow2 n)%Q -> (-1074 <= n < 1024)%Z ->
  int_truediv a b = Ok (Fin (rne (inject_Z a / inject_Z b))).
Proof.
  intros Hb Hx Hn. unfold int_truediv.
  destruct (Z.eqb_spec b 0); [contradiction|].
  rewrite (overflows_false_small _ (pow2 n)); [reflexivity | | apply pow2_lt; lia].
  setoid_replace (pow2 n) with (inject_Z 1 * pow2 n)%Q by ring.
  apply rne_abs_le; [| lia | lia].
  setoid_replace (inject_Z 1 * pow2 n)%Q with (pow2 n) by ring. assumption.
Qed.

Lemma Qabs_nonneg_le x b : (0 <= x)%Q -> (x <= b)%Q -> (Qabs x <= b)%Q.
Proof. intros. rewrite Qabs_pos; assumption. Qed.

Lemma pow2_48 : (pow2 48 == 281474976710656)%Q.
Proof. vm_compute. reflexivity. Qed.

Lemma pow2_Zlt z n : 0 <= n -> z < 2 ^ n -> (inject_Z z < pow2 n)%Q.
Proof. intros Hn Hz. rewrite pow2_Z by assumption. rewrite <- Zlt_Qlt. assumption. Qed.

(** Multiplying a bounded non-negative integer with a constant in [0, 2]. *)
Lemma int_mul_float_small z c :
  0 <= z < 2 ^ 50 -> (0 <= c <= 2)%Q ->
  int_mul_float z (Fin c) = Ok (Fin (rne (rne (inject_Z z) * c))) /\
  (rne (inject_Z z) == inject_Z z)%Q /\
  (0 <= rne (rne (inject_Z z) * c) <= rne (inject_Z z * 2))%Q /\
  ((c <= 1)%Q -> (rne (rne (inject_Z z) * c) <= inject_Z z)%Q).
Proof.
  intros Hz Hc. unfold int_mul_float.
  rewrite float_of_int_small by lia. cbn [bind fmul].
  assert (Ez : (rne (inject_Z z) == inject_Z z)%Q) by (apply rne_Z; lia).
  assert (Z0 : (0 <= inject_Z z)%Q) by (change 0%Q with (inject_Z 0); rewrite <- Zle_Qle; lia).
  assert (Z1 : (inject_Z z < pow2 50)%Q) by (apply pow2_Zlt; lia).
  assert (P : (pow2 51 == 2 * pow2 50)%Q) by (vm_compute; reflexivity).
  rewrite (round_float_small _ 51); [| rewrite Ez; apply Qabs_nonneg_le; nra | lia].
  split; [reflexivity|]. split; [assumption|]. split; [split|].
  - apply rne_nonneg. rewrite Ez. nra.
  - apply rne_mono. rewrite Ez. nra.
  - intros C. rewrite <- Ez at 2. rewrite <- (rne_Z z) at 2 by lia.
    apply rne_mono. rewrite !Ez. nra.
Qed.

Lemma rne_Z_times2 z : 0 <= z < 2 ^ 50 -> (rne (inject_Z z * 2) == inject_Z (2 * z))%Q.
Proof.
  intros Hz. setoid_replace (inject_Z z * 2)%Q with (inject_Z (2 * z)).
  - apply rne_Z. lia.
  - rewrite inject_Z_mult. change (inject_Z 2) with 2%Q. ring.
Qed.

Lemma c16_360 : int_truediv 16 360 = Ok (Fin (6405119470038039 # 144115188075855872)).
Proof. vm_compute. reflexivity. Qed.

Lemma c2_360 : int_truediv 2 360 = Ok (Fin (6405119470038039 # 1152921504606846976)).
Proof. vm_compute. reflexivity. Qed.

Lemma c_1_2 : float_lit (12 # 10) = Fin (5404319552844595 # 4503599627370496).
Proof. vm_compute. reflexivity. Qed.

Lemma float_4 : float_of_int 4 = Ok (Fin 4).
Proof. vm_compute. reflexivity. Qed.

Lemma radius_total cw :
  0 <= cw < 2 ^ 50 ->
  exists rad, (c <- int_truediv 16 360 ;; x <- int_mul_float cw c ;; py_int x) = Ok rad.
Proof.
  intros H. rewrite c16_360. cbn [bind].
  destruct (int_mul_float_small cw (6405119470038039 # 144115188075855872) H) as (-> & _ & _ & _).
  { split; [unfold Qle; simpl; lia | unfold Qle; simpl; lia]. }
  cbn [bind py_int]. eauto.
Qed.

Lemma border_total cw :
  0 <= cw < 2 ^ 50 ->
  exists r, (c <- int_truediv 2 360 ;; x <- int_mul_float cw c ;; py_round x) = Ok r /\
            0 <= r <= cw.
Proof.
  intros H. rewrite c2_360. cbn [bind].
  destruct (int_mul_float_small cw (6405119470038039 # 1152921504606846976) H) as (-> & _ & [B0 _] & B1).
  { split; [unfold Qle; simpl; lia | unfold Qle; simpl; lia]. }
  cbn [bind py_round]. eexists. split; [reflexivity|].
  specialize (B1 ltac:(unfold Qle; simpl; lia)).
  apply round_half_even_mono in B0, B1.
  rewrite (round_half_even_Z 0 0) in B0 by reflexivity.
  rewrite (round_half_even_Z (inject_Z cw) cw) in B1 by reflexivity. lia.
Qed.

Lemma plan_crop_total W H :
  0 < W < 2 ^ 48 -> 0 < H < 2 ^ 48 ->
  exists cw ch cx cy, plan_crop W H = Ok (cw, ch, cx, cy).
Proof.
  intros HW HH. unfold plan_crop. rewrite target_ratio_exact. cbn [bind].
  pose proof (inject_Z_pos W (proj1 HW)) as Wq. pose proof (inject_Z_pos H (proj1 HH)) as Hq.
  assert (W1 : (inject_Z W < pow2 48)%Q) by (apply pow2_Zlt; lia).
  assert (H1 : (1 <= inject_Z H)%Q) by (change 1%Q with (inject_Z 1); rewrite <- Zle_Qle; lia).
  rewrite (int_truediv_small W H 48); [| lia | | lia].
  2:{ apply Qabs_nonneg_le.
      - apply Qle_shift_div_l; [assumption | lra].
      - apply Qle_shift_div_r; [assumption|]. pose proof (pow2_pos 48). nra. }
  cbn [bind].
  destruct (flt _ _); [eauto|].
  destruct (fgt _ _).
  - destruct (int_mul_float_small H (3 # 4)) as (-> & _ & _ & _); [lia | lra |].
    cbn [bind py_int]. eauto.
  - unfold int_div_float. rewrite float_of_int_small by lia. cbn [bind fdiv].
    change (Qeq_bool (3 # 4) 0) with false. cbv iota.
    assert (Ew : (rne (inject_Z W) == inject_Z W)%Q) by (apply rne_Z; lia).
    rewrite (round_float_small _ 49); [cbn [bind py_int]; eauto | | lia].
    rewrite Ew. assert (P : (pow2 49 == 2 * pow2 48)%Q) by (vm_compute; reflexivity).
    apply Qabs_nonneg_le.
    + apply Qle_shift_div_l; lra.
    + apply Qle_shift_div_r; lra.
Qed.


(** Moving integer (in)equalities to the rationals. *)
Ltac push_inject H :=
  unfold Z.sub in H;
  repeat (rewrite inject_Z_plus in H || rewrite inject_Z_mult in H || rewrite inject_Z_opp in H);
  repeat match type of H with
         | context [inject_Z (Zpos ?p)] => change (inject_Z (Zpos p)) with (Zpos p # 1)%Q in H
         end.
Ltac to_Q H := first [rewrite Zle_Qle in H | rewrite Zlt_Qlt in H]; push_inject H.

(** ** The canvas step against the rule of the specification *)

Lemma Qabs_lt_both x lo hi k :
  (lo <= x)%Q -> (x <= hi)%Q -> (inject_Z k - (1 # 2) < lo)%Q -> (hi < inject_Z k + (1 # 2))%Q ->
  round_half_even x = k.
Proof.
  intros. apply round_half_even_near. apply Qabs_Qlt_condition. split; lra.
Qed.

Lemma rne_err_interval x n :
  (Qabs x < pow2 n)%Q -> (-1074 <= n - 53)%Z ->
  (x - pow2 (n - 54) <= rne x <= x + pow2 (n - 54))%Q.
Proof.
  intros H Hn. pose proof (rne_err_below x n H Hn) as E.
  apply Qabs_Qle_condition in E. lra.
Qed.

Lemma canvas_height_round ch :
  0 <= ch < 2 ^ 48 -> Z.even ch = true ->
  round_half_even
    (rne (rne (rne (inject_Z ch) * (5404319552844595 # 4503599627370496)) / 4))
  = (3 * ch + 5) / 10 /\
  round_half_even (inject_Z ch * (12 # 10) / 4) = (3 * ch + 5) / 10.
Proof.
  intros Hch Hev.
  set (k := (3 * ch + 5) / 10).
  assert (Hk : 10 * k - 4 <= 3 * ch <= 10 * k + 4).
  { apply Z.even_spec in Hev. destruct Hev as [j ->].
    pose proof (Z.div_mod (3 * (2 * j) + 5) 10 ltac:(lia)) as D.
    pose proof (Z.mod_pos_bound (3 * (2 * j) + 5) 10 ltac:(lia)) as B.
    fold k in D. lia. }
  assert (Kq : (10 * inject_Z k - 4 <= 3 * inject_Z ch <= 10 * inject_Z k + 4)%Q).
  { destruct Hk as [K1 K2]. to_Q K1. to_Q K2. lra. }
  assert (Q0 : (0 <= inject_Z ch)%Q) by (change 0%Q with (inject_Z 0); rewrite <- Zle_Qle; lia).
  assert (Q1 : (inject_Z ch < pow2 48)%Q) by (apply pow2_Zlt; lia).
  rewrite pow2_48 in Q1.
  set (q := inject_Z ch) in *. set (K := inject_Z k) in *.
  split.
  - assert (E0 : (rne q == q)%Q) by (apply rne_Z; lia).
    set (c := (5404319552844595 # 4503599627370496)%Q).
    assert (A1 : (Qabs (rne q * c) < pow2 49)%Q).
    { rewrite E0. rewrite Qabs_pos by (unfold c; nra).
      assert (P : (pow2 49 == 562949953421312)%Q) by (vm_compute; reflexivity).
      rewrite P. unfold c. lra. }
    pose proof (rne_err_interval _ 49 A1 ltac:(lia)) as I1.
    replace (49 - 54)%Z with (-5)%Z in I1 by lia.
    assert (P5 : (pow2 (-5) == 1 # 32)%Q) by (vm_compute; reflexivity).
    set (x1 := rne (rne q * c)) in *.
    rewrite P5, E0 in I1.
    assert (D4 : (x1 / 4 == x1 * (1 # 4))%Q) by field.
    assert (A2 : (Qabs (x1 / 4) < pow2 49)%Q).
    { assert (P : (pow2 49 == 562949953421312)%Q) by (vm_compute; reflexivity).
      rewrite P, D4. apply Qabs_Qlt_condition. unfold c in I1. split; lra. }
    pose proof (rne_err_interval _ 49 A2 ltac:(lia)) as I2.
    replace (49 - 54)%Z with (-5)%Z in I2 by lia.
    set (x2 := rne (x1 / 4)) in *.
    rewrite P5, D4 in I2.
    apply (Qabs_lt_both _ (x1 * (1 # 4) - (1 # 32)) (x1 * (1 # 4) + (1 # 32)));
      unfold c in I1; fold K; lra.
  - apply round_half_even_near. apply Qabs_Qlt_condition.
    assert (D : (q * (12 # 10) / 4 == q * (3 # 10))%Q) by field.
    rewrite D. fold K. split; lra.
Qed.

Lemma recomputed_height_round c :
  0 <= c < 2 ^ 50 ->
  round_half_even (rne (rne (inject_Z (c * 4) / inject_Z 3) / 4)) = (2 * c + 3) / 6 /\
  round_half_even (inject_Z c * 4 / 3 / 4) = (2 * c + 3) / 6.
Proof.
  intros Hc. set (k := (2 * c + 3) / 6).
  assert (Hk : 3 * k - 1 <= c <= 3 * k + 1).
  { pose proof (Z.div_mod (2 * c + 3) 6 ltac:(lia)) as D.
    pose proof (Z.mod_pos_bound (2 * c + 3) 6 ltac:(lia)) as B.
    fold k in D. lia. }
  assert (Kq : (3 * inject_Z k - 1 <= inject_Z c <= 3 * inject_Z k + 1)%Q).
  { destruct Hk as [K1 K2]. to_Q K1. to_Q K2. lra. }
  assert (Q0 : (0 <= inject_Z c)%Q) by (change 0%Q with (inject_Z 0); rewrite <- Zle_Qle; lia).
  assert (Q1 : (inject_Z c < pow2 50)%Q) by (apply pow2_Zlt; lia).
  assert (P50 : (pow2 50 == 1125899906842624)%Q) by (vm_compute; reflexivity).
  rewrite P50 in Q1.
  set (q := inject_Z c) in *. set (K := inject_Z k) in *.
  split.
  - assert (E0 : (inject_Z (c * 4) / inject_Z 3 == q * (4 # 3))%Q).
    { rewrite inject_Z_mult. fold q. change (inject_Z 4) with 4%Q.
      change (inject_Z 3) with 3%Q. field. }
    assert (P : (pow2 51 == 2251799813685248)%Q) by (vm_compute; reflexivity).
    assert (A1 : (Qabs (inject_Z (c * 4) / inject_Z 3) < pow2 51)%Q).
    { rewrite E0, P. rewrite Qabs_pos by lra. lra. }
    pose proof (rne_err_interval _ 51 A1 ltac:(lia)) as I1.
    replace (51 - 54)%Z with (-3)%Z in I1 by lia.
    assert (P3 : (pow2 (-3) == 1 # 8)%Q) by (vm_compute; reflexivity).
    set (x1 := rne (inject_Z (c * 4) / inject_Z 3)) in *.
    rewrite P3, E0 in I1.
    assert (D4 : (x1 / 4 == x1 * (1 # 4))%Q) by field.
    assert (A2 : (Qabs (x1 / 4) < pow2 51)%Q).
    { rewrite P, D4. apply Qabs_Qlt_condition. split; lra. }
    pose proof (rne_err_interval _ 51 A2 ltac:(lia)) as I2.
    replace (51 - 54)%Z with (-3)%Z in I2 by lia.
    set (x2 := rne (x1 / 4)) in *.
    rewrite P3, D4 in I2.
    apply (Qabs_lt_both _ (x1 * (1 # 4) - (1 # 8)) (x1 * (1 # 4) + (1 # 8))); fold K; lra.
  - apply round_half_even_near. apply Qabs_Qlt_condition.
    assert (D : (q * 4 / 3 / 4 == q * (1 # 3))%Q) by field.
    rewrite D. fold K. split; lra.
Qed.

Lemma float_div_4 t :
  (0 <= t <= pow2 60)%Q -> float_div_int (Fin t) 4 = Ok (Fin (rne (t / 4))).
Proof.
  intros Ht. unfold float_div_int. rewrite float_4. cbn [bind fdiv].
  change (Qeq_bool 4 0) with false. cbv iota.
  rewrite (round_float_small _ 60); [reflexivity | | lia].
  pose proof (pow2_pos 60). apply Qabs_nonneg_le.
  - apply Qle_shift_div_l; lra.
  - apply Qle_shift_div_r; lra.
Qed.

Lemma plan_canvas_exact cw ch b :
  0 <= ch < 2 ^ 48 -> Z.even ch = true -> 0 <= cw + b * 2 < 2 ^ 50 ->
  plan_canvas cw ch b = Ok (spec_canvas cw ch b).
Proof.
  intros Hch Hev Hc. unfold plan_canvas, spec_canvas. rewrite c_1_2.
  destruct (int_mul_float_small ch (5404319552844595 # 4503599627370496)) as (-> & _ & [B0 B1] & _);
    [lia | split; unfold Qle; simpl; lia |].
  cbn [bind].
  rewrite rne_Z_times2 in B1 by lia.
  assert (P : (inject_Z (2 * ch) <= pow2 60)%Q).
  { rewrite pow2_Z by lia. rewrite <- Zle_Qle.
    assert (2 ^ 48 * 2 <= 2 ^ 60) by (vm_compute; discriminate). lia. }
  rewrite float_div_4 by (split; [tauto | lra]).
  cbn [bind py_round].
  destruct (canvas_height_round ch Hch Hev) as [-> ->].
  rewrite (Z.mul_comm 2 b).
  destruct (_ <? _); [|reflexivity].
  set (c := cw + b * 2) in *.
  assert (Q0 : (0 <= inject_Z c)%Q) by (change 0%Q with (inject_Z 0); rewrite <- Zle_Qle; lia).
  assert (Q1 : (inject_Z c < pow2 50)%Q) by (apply pow2_Zlt; lia).
  assert (P50 : (pow2 50 == 1125899906842624)%Q) by (vm_compute; reflexivity).
  assert (P52 : (pow2 52 == 4503599627370496)%Q) by (vm_compute; reflexivity).
  assert (P60 : (pow2 60 == 1152921504606846976)%Q) by (vm_compute; reflexivity).
  assert (E0 : (inject_Z (c * 4) / inject_Z 3 == inject_Z c * (4 # 3))%Q).
  { rewrite inject_Z_mult. change (inject_Z 4) with 4%Q.
    change (inject_Z 3) with 3%Q. field. }
  assert (A : (Qabs (inject_Z (c * 4) / inject_Z 3) <= pow2 52)%Q).
  { rewrite E0. apply Qabs_nonneg_le; lra. }
  rewrite (int_truediv_small (c * 4) 3 52); [| lia | assumption | lia].
  cbn [bind].
  rewrite float_div_4.
  - cbn [bind py_round]. destruct (recomputed_height_round c) as [-> ->]; [lia | reflexivity].
  - split.
    + apply rne_nonneg. rewrite E0. lra.
    + apply Qle_trans with (pow2 52); [| apply pow2_le; lia].
      setoid_replace (pow2 52) with (inject_Z 1 * pow2 52)%Q by ring.
      eapply Qle_trans; [apply Qle_Qabs|].
      apply rne_abs_le; [| lia | lia].
      setoid_replace (inject_Z 1 * pow2 52)%Q with (pow2 52) by ring. assumption.
Qed.

(** For every width and height below 2^48 the geometry step returns a plan. *)
Lemma plan_geometry_total W H :
  0 < W < 2 ^ 48 -> 0 < H < 2 ^ 48 -> exists g, plan_geometry W H = Ok g.
Proof.
  intros HW HH.
  destruct (plan_crop_total W H HW HH) as (cw0 & ch0 & cx & cy & Ec).
  destruct (plan_crop_in_frame W H cw0 ch0 cx cy (proj1 HW) (proj1 HH) Ec)
    as (Cx & Cy & Cw & Cw0 & Ch0).
  pose proof (force_even_le cw0). pose proof (force_even_ge cw0).
  pose proof (force_even_le ch0). pose proof (force_even_ge ch0).
  pose proof (force_even_even cw0) as Ecw. pose proof (force_even_even ch0) as Ech.
  assert (Pcw : 0 <= force_even cw0).
  { destruct (Z.eq_dec cw0 0) as [->|]; [vm_compute; discriminate | ].
    destruct (Z.eq_dec (force_even cw0) (-1)) as [E|]; [rewrite E in Ecw; discriminate | lia]. }
  assert (Pch : 0 <= force_even ch0).
  { destruct (Z.eq_dec ch0 0) as [->|]; [vm_compute; discriminate | ].
    destruct (Z.eq_dec (force_even ch0) (-1)) as [E|]; [rewrite E in Ech; discriminate | lia]. }
  assert (B50 : 2 ^ 48 * 4 = 2 ^ 50) by reflexivity.
  destruct (radius_total (force_even cw0)) as (rad & Er); [lia|].
  destruct (border_total (force_even cw0)) as (r & Eb & Br); [lia|].
  unfold plan_geometry. rewrite Ec. cbn [bind].
  apply bind_Ok in Er. destruct Er as (c16 & -> & Er). cbn [bind].
  apply bind_Ok in Er. destruct Er as (x16 & -> & Er). cbn [bind]. rewrite Er. cbn [bind].
  apply bind_Ok in Eb. destruct Eb as (c2 & -> & Eb). cbn [bind].
  apply bind_Ok in Eb. destruct Eb as (x2 & -> & Eb). cbn [bind]. rewrite Eb. cbn [bind].
  rewrite plan_canvas_exact; [| lia | assumption | lia].
  cbn [bind]. destruct (spec_canvas _ _ _) as [w h]. eauto.
Qed.

(** ** Inputs taller than the target *)

Lemma rne_0_74 : rne (74 # 100) = 3332663724254167 # 4503599627370496.
Proof. vm_compute. reflexivity. Qed.

Lemma taller_branch W H :
  0 < W -> 0 < H -> 100 * W < 74 * H ->
  let r := rne (inject_Z W / inject_Z H) in
  flt (fabs (fsub (Fin r) (Fin (3 # 4)))) (float_lit (1 # 100)) = false /\
  fgt (Fin r) (Fin (3 # 4)) = false.
Proof.
  intros HW HH L r.
  pose proof (inject_Z_pos W HW) as Wq. pose proof (inject_Z_pos H HH) as Hq.
  to_Q L.
  assert (X : (inject_Z W / inject_Z H <= 74 # 100)%Q).
  { apply Qle_shift_div_r; [assumption | lra]. }
  assert (R1 : (r <= 3332663724254167 # 4503599627370496)%Q).
  { rewrite <- rne_0_74. apply rne_mono. assumption. }
  assert (R0 : (0 <= r)%Q).
  { apply rne_nonneg. apply Qle_shift_div_l; [assumption | lra]. }
  set (a := (3332663724254167 # 4503599627370496)%Q) in *.
  assert (Fd : (rne (a - (3 # 4)) == a - (3 # 4))%Q).
  { apply (rne_fix _ (-90071992547410) (-53)); [vm_compute; reflexivity | simpl; lia | lia]. }
  assert (D : (rne (r - (3 # 4)) <= a - (3 # 4))%Q).
  { rewrite <- Fd. apply rne_mono. lra. }
  split.
  - cbn [fsub]. rewrite (round_float_small _ 0); [| | lia].
    2:{ change (pow2 0) with 1%Q. apply Qabs_Qle_condition. unfold a in R1. split; lra. }
    cbn [fabs]. rewrite float_lit_0_01.
    destruct (flt _ _) eqn:T; [|reflexivity]. exfalso.
    apply flt_Fin in T. revert T. unfold a in D.
    apply Qabs_case; intros; lra.
  - unfold fgt. destruct (flt _ _) eqn:T; [|reflexivity]. exfalso.
    apply flt_Fin in T. unfold a in R1. lra.
Qed.

Lemma Qfloor_unique y k : (inject_Z k <= y)%Q -> (y < inject_Z k + 1)%Q -> Qfloor y = k.
Proof.
  intros L U. pose proof (Qfloor_le y) as F1. pose proof (Qlt_floor y) as F2.
  rewrite inject_Z_plus in F2. change (inject_Z 1) with 1%Q in F2.
  assert (A : (inject_Z k < inject_Z (Qfloor y + 1))%Q).
  { rewrite inject_Z_plus. change (inject_Z 1) with 1%Q. lra. }
  assert (B : (inject_Z (Qfloor y) < inject_Z (k + 1))%Q).
  { rewrite inject_Z_plus. change (inject_Z 1) with 1%Q. lra. }
  rewrite <- Zlt_Qlt in A, B. lia.
Qed.

(** Below 2^51 the float computation [int(W / 0.75)] is the integer quotient 4W/3. *)
Lemma crop_height_exact W :
  0 < W < 2 ^ 51 ->
  exists x, int_div_float W (Fin (3 # 4)) = Ok x /\ py_int x = Ok (4 * W / 3).
Proof.
  intros HW. unfold int_div_float. rewrite float_of_int_small by lia.
  cbn [bind fdiv]. change (Qeq_bool (3 # 4) 0) with false. cbv iota.
  pose proof (inject_Z_pos W (proj1 HW)) as Wq.
  assert (W1 : (inject_Z W < pow2 51)%Q) by (apply pow2_Zlt; lia).
  assert (P51 : (pow2 51 == 2251799813685248)%Q) by (vm_compute; reflexivity).
  assert (P52 : (pow2 52 == 4503599627370496)%Q) by (vm_compute; reflexivity).
  assert (Ew : (rne (inject_Z W) == inject_Z W)%Q) by (apply rne_Z; lia).
  assert (Ex : (rne (inject_Z W) / (3 # 4) == inject_Z W * (4 # 3))%Q) by (rewrite Ew; field).
  assert (A : (Qabs (rne (inject_Z W) / (3 # 4)) < pow2 52)%Q).
  { rewrite Ex, Qabs_pos; lra. }
  rewrite (round_float_small _ 52); [| apply Qlt_le_weak; assumption | lia].
  eexists. split; [reflexivity|]. cbn [py_int]. f_equal.
  set (k := 4 * W / 3).
  assert (Hk : 3 * k <= 4 * W <= 3 * k + 2).
  { pose proof (Z.div_mod (4 * W) 3 ltac:(lia)) as D.
    pose proof (Z.mod_pos_bound (4 * W) 3 ltac:(lia)) as B. fold k in D. lia. }
  destruct Hk as [K1 K2]. to_Q K1. to_Q K2.
  pose proof (rne_err_interval _ 52 A ltac:(lia)) as I.
  replace (52 - 54)%Z with (-2)%Z in I by lia.
  assert (P2 : (pow2 (-2) == 1 # 4)%Q) by (vm_compute; reflexivity).
  assert (L : (inject_Z k <= rne (rne (inject_Z W) / (3 # 4)))%Q).
  { rewrite <- (rne_Z k).
    - apply rne_mono. rewrite Ex. lra.
    - assert (0 <= k) by (apply Z.div_pos; lia).
      assert (k < 2 ^ 53).
      { apply Z.div_lt_upper_bound; [lia|]. change (2 ^ 53) with (4 * 2 ^ 51). lia. }
      lia. }
  set (v := rne (rne (inject_Z W) / (3 # 4))) in *.
  rewrite P2, Ex in I.
  assert (V0 : (0 <= v)%Q).
  { assert (0 <= k) by (apply Z.div_pos; lia).
    assert (0 <= inject_Z k)%Q by (change 0%Q with (inject_Z 0); rewrite <- Zle_Qle; lia).
    lra. }
  rewrite trunc_nonneg by assumption.
  apply Qfloor_unique; lra.
Qed.

Lemma spec_canvas_height_even cw ch b : Z.even (snd (spec_canvas cw ch b)) = true.
Proof.
  unfold spec_canvas. destruct (_ <? _); cbn [snd];
    rewrite Z.even_mul, Bool.orb_true_r; reflexivity.
Qed.

(** ** The plan of the geometry step *)

Ltac simpl_plan :=
  cbn [crop_width crop_height crop_x crop_y radius border_size
       canvas_width canvas_height paste_x paste_y].


(** C4. For every positive width and height, crop width, crop height,
    canvas width and canvas height of the plan the geometry step returns are
    all even; and below 2^48 the step does return a plan. *)
Theorem dimensions_even W H :
  0 < W -> 0 < H ->
  (forall g, plan_geometry W H = Ok g ->
     Z.even (crop_width g) = true /\ Z.even (crop_height g) = true /\
     Z.even (canvas_width g) = true /\ Z.even (canvas_height g) = true) /\
  (W < 2 ^ 48 -> H < 2 ^ 48 -> exists g, plan_geometry W H = Ok g).
Proof.
  intros HW HH. split.
  - intros g E. apply plan_geometry_inv in E.
    destruct E as (cw0 & ch0 & cx & cy & rad & r & w & h & _ & _ & _ & ->).
    simpl_plan. repeat split; apply force_even_even.
  - intros BW BH. apply plan_geometry_total; lia.
Qed.

Lemma dimensions_even_witness :
  (forall g, plan_geometry 1920 1080 = Ok g ->
     Z.even (crop_width g) = true /\ Z.even (crop_height g) = true /\
     Z.even (canvas_width g) = true /\ Z.even (canvas_height g) = true) /\
  (1920 < 2 ^ 48 -> 1080 < 2 ^ 48 -> exists g, plan_geometry 1920 1080 = Ok g).
Proof. apply (dimensions_even 1920 1080); lia. Defined.

(** C9. For every positive width and height the crop rectangle of the plan
    lies inside the source frame: crop_x >= 0, crop_y = 0,
    crop_x + crop_width <= W and crop_height <= H, whichever of the three
    branches is taken; and below 2^48 the step does return a plan. *)
Theorem crop_within_frame W H :
  0 < W -> 0 < H ->
  (forall g, plan_geometry W H = Ok g ->
     0 <= crop_x g /\ crop_y g = 0 /\ crop_x g + crop_width g <= W /\ crop_height g <= H) /\
  (W < 2 ^ 48 -> H < 2 ^ 48 -> exists g, plan_geometry W H = Ok g).
Proof.
  intros HW HH. split.
  - intros g E. apply plan_geometry_inv in E.
    destruct E as (cw0 & ch0 & cx & cy & rad & r & w & h & Ec & _ & _ & ->).
    destruct (plan_crop_in_frame W H cw0 ch0 cx cy HW HH Ec) as (Cx & Cy & Cw & _ & Ch).
    pose proof (force_even_le cw0). pose proof (force_even_le ch0).
    simpl_plan. lia.
  - intros BW BH. apply plan_geometry_total; lia.
Qed.

Lemma crop_within_frame_witness :
  (forall g, plan_geometry 800 400 = Ok g ->
     0 <= crop_x g /\ crop_y g = 0 /\ crop_x g + crop_width g <= 800 /\ crop_height g <= 400) /\
  (800 < 2 ^ 48 -> 400 < 2 ^ 48 -> exists g, plan_geometry 800 400 = Ok g).
Proof. apply (crop_within_frame 800 400); lia. Defined.

(** C3, as stated, fails: for the tall input 401x800 the crop width is 400,
    not the full width 401. *)
Lemma full_width_not_kept :
  100 * 401 < 74 * 800 /\
  exists g, plan_geometry 401 800 = Ok g /\ crop_width g = 400 /\ crop_width g <> 401.
Proof.
  split; [lia|]. eexists. split; [vm_compute; reflexivity|]. cbn. split; [reflexivity | discriminate].
Qed.

(** C3, amended. For every positive W and H with W/H < 3/4 - 0.01, a returned
    plan has crop offsets 0 (top anchor, no centring), crop width W
    decremented to even, and crop height int(W / 0.75) decremented to even,
    which for W < 2^51 is the integer quotient 4W/3 decremented to even; a
    plan is returned whenever W and H are below 2^48; for 400x800 the crop
    height is 532 and crop_y is 0, not (800-532)/2. *)
Theorem taller_input_top_anchored :
  (forall W H g,
     0 < W -> 0 < H -> 100 * W < 74 * H -> plan_geometry W H = Ok g ->
     crop_x g = 0 /\ crop_y g = 0 /\ crop_width g = force_even W /\
     (exists x h, int_div_float W (Fin (3 # 4)) = Ok x /\ py_int x = Ok h /\
                  crop_height g = force_even h) /\
     (W < 2 ^ 51 -> crop_height g = force_even (4 * W / 3))) /\
  (forall W H, 0 < W < 2 ^ 48 -> 0 < H < 2 ^ 48 -> exists g, plan_geometry W H = Ok g) /\
  (exists g, plan_geometry 400 800 = Ok g /\ crop_width g = 400 /\ crop_height g = 532 /\
             crop_y g = 0 /\ crop_y g <> (800 - 532) / 2).
Proof.
  split; [|split].
  - intros W H g HW HH L E. apply plan_geometry_inv in E.
    destruct E as (cw0 & ch0 & cx & cy & rad & r & w & h & Ec & _ & _ & ->).
    unfold plan_crop in Ec. rewrite target_ratio_exact in Ec. cbn [bind] in Ec.
    apply bind_Ok in Ec. destruct Ec as (vr & Er & Ec).
    apply int_truediv_inv in Er. destruct Er as [_ ->].
    destruct (taller_branch W H HW HH L) as [T1 T2]. cbv zeta in T1, T2.
    rewrite T1, T2 in Ec.
    apply bind_Ok in Ec. destruct Ec as (x & Ex & Ec).
    apply bind_Ok in Ec. destruct Ec as (c & Ec & E).
    injection E as <- <- <- <-. simpl_plan.
    repeat split; eauto.
    intros B. destruct (crop_height_exact W ltac:(lia)) as (x' & Ex' & Ec').
    rewrite Ex in Ex'. injection Ex' as <-. rewrite Ec in Ec'. congruence.
  - intros W H BW BH. apply plan_geometry_total; lia.
  - eexists. split; [vm_compute; reflexivity|]. cbn.
    repeat split; discriminate.
Qed.

Lemma taller_input_top_anchored_witness :
  exists g, plan_geometry 1080 1920 = Ok g /\
    crop_x g = 0 /\ crop_y g = 0 /\ crop_width g = force_even 1080 /\
    (exists x h, int_div_float 1080 (Fin (3 # 4)) = Ok x /\ py_int x = Ok h /\
                 crop_height g = force_even h) /\
    (1080 < 2 ^ 51 -> crop_height g = force_even (4 * 1080 / 3)).
Proof.
  destruct (proj1 (proj2 taller_input_top_anchored) 1080 1920) as [g E]; [lia | lia |].
  exists g. split; [exact E|].
  apply (proj1 taller_input_top_anchored 1080 1920); [lia | lia | lia | exact E].
Defined.

(** C1, as stated, fails: for 800x410 the derived canvas width
    floor(492/4)*3 = 369 is odd and the plan carries 368; and for dimensions
    far beyond any video (2^60) the floating-point height differs from the
    exactly rounded one. *)
Lemma canvas_rule_as_stated_fails :
  (exists g, plan_geometry 800 410 = Ok g /\
     spec_canvas (crop_width g) (crop_height g) (border_size g) = (369, 492) /\
     canvas_width g = 368 /\ canvas_height g = 492) /\
  (exists g, plan_geometry (2 ^ 60) (2 ^ 60) = Ok g /\
     canvas_height g <> snd (spec_canvas (crop_width g) (crop_height g) (border_size g))).
Proof.
  split; eexists; (split; [vm_compute; reflexivity|]).
  - vm_compute. repeat split.
  - vm_compute. discriminate.
Qed.

(** C1, amended. For every positive W and H below 2^48 the geometry step
    returns a plan whose canvas is the one of the rule
    canvasHeight = round(cropHeight * 1.2 / 4) * 4,
    canvasWidth = floor(canvasHeight / 4) * 3, widened to
    cropWidth + 2 * borderThickness with the height recomputed as
    round((canvasWidth * 4 / 3) / 4) * 4 when narrower than that, with the
    canvas width finally decremented by one if odd; for 800x400 the crop is
    300x400 and the canvas 360x480. *)
Theorem canvas_rule :
  (forall W H, 0 < W < 2 ^ 48 -> 0 < H < 2 ^ 48 ->
     exists g, plan_geometry W H = Ok g /\
       canvas_width g =
         force_even (fst (spec_canvas (crop_width g) (crop_height g) (border_size g))) /\
       canvas_height g = snd (spec_canvas (crop_width g) (crop_height g) (border_size g))) /\
  (exists g, plan_geometry 800 400 = Ok g /\
     crop_width g = 300 /\ crop_height g = 400 /\
     canvas_width g = 360 /\ canvas_height g = 480).
Proof.
  split.
  - intros W H HW HH. destruct (plan_geometry_total W H HW HH) as (g & E).
    exists g. split; [assumption|].
    apply plan_geometry_inv in E.
    destruct E as (cw0 & ch0 & cx & cy & rad & r & w & h & Ec & Er & Ecan & ->).
    destruct (plan_crop_in_frame W H cw0 ch0 cx cy (proj1 HW) (proj1 HH) Ec)
      as (Cx & Cy & Cw & Cw0 & Ch0).
    pose proof (force_even_le cw0). pose proof (force_even_ge cw0).
    pose proof (force_even_le ch0). pose proof (force_even_ge ch0).
    pose proof (force_even_even cw0) as Ecw. pose proof (force_even_even ch0) as Ech.
    assert (Pcw : 0 <= force_even cw0).
    { destruct (Z.eq_dec cw0 0) as [->|]; [vm_compute; discriminate | ].
      destruct (Z.eq_dec (force_even cw0) (-1)) as [E|]; [rewrite E in Ecw; discriminate | lia]. }
    assert (Pch : 0 <= force_even ch0).
    { destruct (Z.eq_dec ch0 0) as [->|]; [vm_compute; discriminate | ].
      destruct (Z.eq_dec (force_even ch0) (-1)) as [E|]; [rewrite E in Ech; discriminate | lia]. }
    assert (B50 : 2 ^ 48 * 4 = 2 ^ 50) by reflexivity.
    destruct (border_total (force_even cw0)) as (r' & Eb & Br); [lia|].
    rewrite Er in Eb. injection Eb as <-.
    rewrite plan_canvas_exact in Ecan; [| lia | assumption | lia].
    injection Ecan as Ecan. simpl_plan. rewrite Ecan. cbn [fst snd].
    split; [reflexivity|].
    apply force_even_id.
    pose proof (spec_canvas_height_even (force_even cw0) (force_even ch0) (Z.max 1 r)) as Ev.
    rewrite Ecan in Ev. exact Ev.
  - eexists. split; [vm_compute; reflexivity|]. cbn. repeat split.
Qed.

Lemma canvas_rule_witness :
  exists g, plan_geometry 1080 1920 = Ok g /\
    canvas_width g =
      force_even (fst (spec_canvas (crop_width g) (crop_height g) (border_size g))) /\
    canvas_height g = snd (spec_canvas (crop_width g) (crop_height g) (border_size g)).
Proof.
  apply (proj1 canvas_rule 1080 1920); split; try lia; reflexivity.
Defined.

(** ** Bitrate targeting *)

(** C10. For every duration <= 0 the function returns the fallback 2000,
    whatever the size and audio arguments are, and so it does for the
    duration 0.0 that [get_video_info] reports when the probe printed no
    duration. *)
Theorem nonpositive_duration_fallback :
  (forall duration target_size_mb audio_bitrate_kbps,
     num_le duration (Int 0) = true ->
     calculate_target_bitrate duration target_size_mb audio_bitrate_kbps = Ok (Int 2000)) /\
  (forall target_size_mb audio_bitrate_kbps,
     calculate_target_bitrate (Float (probe_duration None)) target_size_mb audio_bitrate_kbps
     = Ok (Int 2000)).
Proof.
  split.
  - intros d s a H. unfold calculate_target_bitrate. rewrite H. reflexivity.
  - intros s a. reflexivity.
Qed.

Lemma nonpositive_duration_fallback_witness :
  num_le (Float (Inf true)) (Int 0) = true /\
  calculate_target_bitrate (Float (Inf true)) (Float NaN) (Int (-7)) = Ok (Int 2000).
Proof.
  split; [reflexivity|].
  apply (proj1 nonpositive_duration_fallback). reflexivity.
Defined.

(** C5, as stated, fails: the result for (60, 10, 192) and the formula both
    are 1085.49..., more than 12 kbps away from 1098. *)
Lemma bitrate_is_not_1098 :
  exists v, calculate_target_bitrate (Int 60) (Int 10) (Int 192) = Ok (Float (Fin v)) /\
    (v < 1086)%Q /\ round_half_even v = 1085 /\
    (bitrate_formula_60_10_192 < 1086)%Q /\ ~ (1097 <= v <= 1099)%Q.
Proof.
  eexists. split; [vm_compute; reflexivity|].
  split; [reflexivity|]. split; [vm_compute; reflexivity|].
  split; [reflexivity|]. intros [C _]. revert C. vm_compute. intros C. apply C. reflexivity.
Qed.

(** C5, amended. calculate_target_bitrate(60, 10, 192) returns a float
    strictly between 500 and 5000 that equals the formula
    (10*8*1024*1024 - 192000*60)/60/1000*0.90 = 1085.4912 up to a rounding
    error below 10^-9. *)
Theorem bitrate_60_10_192 :
  exists v, calculate_target_bitrate (Int 60) (Int 10) (Int 192) = Ok (Float (Fin v)) /\
    (500 < v < 5000)%Q /\
    (bitrate_formula_60_10_192 == 10854912 # 10000)%Q /\
    (Qabs (v - bitrate_formula_60_10_192) < 1 # 1000000000)%Q.
Proof.
  eexists. split; [vm_compute; reflexivity|].
  split; [split; reflexivity|]. split; vm_compute; reflexivity.
Qed.

(** ** The process runner *)

(** Leaving the monitoring loop: the child is not terminated there; its exit
    status, if the loop has recorded one, is its own; and an exception leaves
    the [Popen] object as it was. *)
Lemma monitor_loop_popen proc duration start_time events m q :
  terminated (popen_at_exit (monitor_loop proc duration start_time events m q))
  = terminated q /\
  (returncode (popen_at_exit (monitor_loop proc duration start_time events m q))
   = returncode q \/
   returncode (popen_at_exit (monitor_loop proc duration start_time events m q))
   = Some (exit_code proc
             (sigint_sent (popen_at_exit (monitor_loop proc duration start_time events m q))))) /\
  (forall e m' p' u,
     monitor_loop proc duration start_time events m q = Raised e m' p' u -> p' = q).
Proof.
  revert m. induction events as [|ev rest IH]; intros m; cbn [monitor_loop].
  - cbn. repeat split; auto. discriminate.
  - destruct ev as [line now | ex now | e0].
    + cbv zeta.
      repeat match goal with
             | |- context [if ?b then _ else _] => destruct b
             | |- context [match ?x with _ => _ end] => destruct x
             end; try apply IH; cbn; repeat split; auto;
        try (intros; discriminate); intros ? ? ? ? [= _ _ <- _]; reflexivity.
    + destruct ex; [cbn; repeat split; auto; discriminate|].
      destruct (_ && _); [cbn; repeat split; auto; discriminate | apply IH].
    + cbn. repeat split; auto. intros ? ? ? ? [= _ _ <- _]. reflexivity.
Qed.

Lemma monitor_loop_raised proc duration start_time events m p e m' p' u :
  monitor_loop proc duration start_time events m p = Raised e m' p' u -> p' = p.
Proof.
  intros E. pose proof (monitor_loop_popen proc duration start_time events m p) as (_ & _ & H).
  eapply H. exact E.
Qed.

Lemma monitor_loop_break proc duration start_time events m p m' p' u :
  monitor_loop proc duration start_time events m p = Break m' p' u ->
  terminated p' = terminated p.
Proof.
  intros E. pose proof (monitor_loop_popen proc duration start_time events m p) as (H & _).
  rewrite E in H. exact H.
Qed.

Lemma timeout_seconds_total duration : exists t, timeout_seconds duration = Ok t.
Proof.
  unfold timeout_seconds. destruct (num_gt duration (Int 0)); [|eauto].
  destruct duration as [z|f]; cbn; eauto.
Qed.

(** The final wait: the child has exited by itself and the status is its
    own, or it has been terminated and the status is the one it then exits
    with; an exception leaves the [Popen] object without a status. *)
Lemma wait_for_exit_cases proc duration q :
  terminated q = false ->
  returncode q = None \/ returncode q = Some (exit_code proc (sigint_sent q)) ->
  match wait_for_exit proc duration q with
  | Waited p =>
      sigint_sent p = sigint_sent q /\
      (terminated p = false /\ returncode p = Some (exit_code proc (sigint_sent p)) \/
       terminated p = true /\ returncode p = Some (term_code proc))
  | WaitRaised e p => p = q /\ returncode q = None
  end.
Proof.
  intros T R. unfold wait_for_exit. destruct (timeout_seconds_total duration) as [t ->].
  destruct (returncode q) as [rc|] eqn:Rq.
  - destruct R as [R|R]; [discriminate|]. rewrite Rq. auto.
  - destruct (interrupt_in_wait proc); [auto|].
    assert (O : match on_timeout proc t q with
                | Waited p =>
                    sigint_sent p = sigint_sent q /\
                    (terminated p = false /\
                     returncode p = Some (exit_code proc (sigint_sent p)) \/
                     terminated p = true /\ returncode p = Some (term_code proc))
                | WaitRaised e p => p = q /\ None = (None : option Z)
                end).
    { unfold on_timeout. destruct (format_time t); cbn; auto. }
    destruct (exit_delay proc) as [d|]; [|exact O].
    destruct (num_le _ _); [|exact O]. cbn. auto.
Qed.

(** C8 as stated fails: a child that does not exit within the timeout is
    terminated, and when it then exits with status 0 the runner reports
    success. *)
Lemma terminated_child_reports_success :
  run_ffmpeg_with_progress stubborn_child (Float (Fin 10)) (Fin 0)
  = (Ok (true, ["frame=  250 fps= 25 time=00:00:09.98 bitrate= 900kbits/s"]),
     {| returncode := Some 0; sigint_sent := true; terminated := true |}).
Proof. vm_compute. reflexivity. Qed.

(** C8, amended.  Whenever the runner returns, the success flag is true
    exactly when the exit status it has read is 0, and that status is the
    child's: the one the child exited with by itself, or, for a child that the
    timeout forced to terminate, the one it exited with then.  A run that an
    exception ended before any status was read reports failure.  So a
    terminated child reports failure unless it exits with status 0. *)
Theorem success_iff_exit_code_zero proc duration start_time flag lines p :
  run_ffmpeg_with_progress proc duration start_time = (Ok (flag, lines), p) ->
  (forall rc, returncode p = Some rc ->
     (flag = true <-> rc = 0) /\
     rc = if terminated p then term_code proc else exit_code proc (sigint_sent p)) /\
  (returncode p = None -> flag = false) /\
  (terminated p = true -> (flag = true <-> term_code proc = 0)).
Proof.
  unfold run_ffmpeg_with_progress.
  set (m0 := {| last_percentage := Int (-1); stderr_lines := [];
                completion_detected := false; last_update_time := start_time |}).
  pose proof (monitor_loop_popen proc duration start_time (stderr_events proc) m0 spawned)
    as (T & R & X).
  destruct (monitor_loop _ _ _ _ _ _) as [m q u | e m q u] eqn:L; cbn [popen_at_exit] in T, R.
  - pose proof (wait_for_exit_cases proc duration q T R) as W.
    destruct (wait_for_exit proc duration q) as [q' | e q'].
    + destruct W as (_ & [[Tq Rq] | [Tq Rq]]).
      * intros E.
        assert (P : p = q' /\ (flag = true <-> exit_code proc (sigint_sent q') = 0)).
        { rewrite Rq in E. destruct (exit_code proc (sigint_sent q')) as [|c|c];
            injection E as <- _ <-; split; try reflexivity; split; congruence. }
        destruct P as [-> F]. split; [|split].
        -- intros rc H. rewrite Rq in H. injection H as <-. rewrite Tq.
           split; [exact F | reflexivity].
        -- rewrite Rq. discriminate.
        -- rewrite Tq. discriminate.
      * intros E.
        assert (P : p = q' /\ (flag = true <-> term_code proc = 0)).
        { rewrite Rq in E. destruct (term_code proc) as [|c|c];
            injection E as <- _ <-; split; try reflexivity; split; congruence. }
        destruct P as [-> F]. split; [|split].
        -- intros rc H. rewrite Rq in H. injection H as <-. rewrite Tq.
           split; [exact F | reflexivity].
        -- rewrite Rq. discriminate.
        -- intros _. exact F.
    + destruct W as [-> Rq]. unfold handle. destruct (is_Exception e); [|discriminate].
      intros [= <- _ <-]. rewrite Rq, T. repeat split; try discriminate; congruence.
  - assert (q = spawned) by (eapply X; reflexivity). subst q.
    unfold handle. destruct (is_Exception e); [|discriminate].
    intros [= <- _ <-]. cbn. repeat split; try discriminate; congruence.
Qed.

Lemma success_iff_exit_code_zero_witness :
  exists flag lines p,
    run_ffmpeg_with_progress demo_process (Float (Fin 20)) (Fin 0) = (Ok (flag, lines), p) /\
    flag = true /\ terminated p = false /\
    (forall rc, returncode p = Some rc ->
       (flag = true <-> rc = 0) /\
       rc = if terminated p then term_code demo_process
            else exit_code demo_process (sigint_sent p)) /\
    (returncode p = None -> flag = false) /\
    (terminated p = true -> (flag = true <-> term_code demo_process = 0)).
Proof.
  eexists _, _, _. split; [vm_compute; reflexivity|].
  split; [reflexivity|]. split; [reflexivity|].
  eapply (success_iff_exit_code_zero demo_process (Float (Fin 20)) (Fin 0)).
  vm_compute. reflexivity.
Defined.

(** ** Capability detection *)

(** Off macOS the encoders are not probed, and the snapshot has no hardware
    acceleration. *)
Lemma check_hardware_encoders_not_macos system_info w :
  is_macos system_info = false -> check_hardware_encoders system_info w = (Ok system_info, w).
Proof. intros H. unfold check_hardware_encoders. rewrite H. reflexivity. Qed.

(** A probe that starts and exits with a non-zero code leaves the snapshot as
    [detect_system] made it: no hardware acceleration. *)
Lemma check_hardware_encoders_failed_probe system_info w code out err effect rest :
  is_macos system_info = true -> runs w = Completed code out err effect :: rest -> code <> 0 ->
  fst (check_hardware_encoders system_info w) = Ok system_info.
Proof.
  intros H R C. unfold check_hardware_encoders, run_ffmpeg, bindIO, record. rewrite H.
  cbn [negb files tmpdirs fresh_names probes runs children faults clock log].
  rewrite R. destruct (Z.eqb_spec code 0); [contradiction|]. reflexivity.
Qed.

(** C7 on the code: on macOS, with the ffmpeg binary missing, the probe of
    the hardware encoders raises FileNotFoundError instead of returning a
    snapshot without hardware acceleration. *)
Theorem probe_without_ffmpeg_raises :
  is_macos apple_silicon_host = true /\
  fst (check_hardware_encoders apple_silicon_host world_without_ffmpeg)
  = Raise FileNotFoundError.
Proof. split; reflexivity. Qed.

(** ** The size enforcement: its log and its answer *)

Lemma quiet_emits {A} (c : IO A) (S : list event -> Prop) : quiet c -> S [] -> emits c S.
Proof. intros Q H w. exists []. rewrite app_nil_r. auto. Qed.

Lemma emits_weaken {A} (c : IO A) (S T : list event -> Prop) :
  emits c S -> (forall l, S l -> T l) -> emits c T.
Proof. intros E H w. destruct (E w) as (l & El & Sl). eauto. Qed.

Lemma emits_bind {A B} (c : IO A) (k : A -> IO B) (S T U : list event -> Prop) :
  emits c S -> (forall a, emits (k a) T) ->
  (forall l1, S l1 -> U l1) -> (forall l1 l2, S l1 -> T l2 -> U (l1 ++ l2)%list) ->
  emits (bindIO c k) U.
Proof.
  intros Ec Ek H1 H2 w. unfold bindIO.
  destruct (Ec w) as (l1 & E1 & S1). destruct (c w) as [[a|e] w1]; cbn [snd] in *.
  - destruct (Ek a w1) as (l2 & E2 & T2). exists (l1 ++ l2)%list.
    rewrite E2, E1, app_assoc. auto.
  - exists l1. auto.
Qed.

Lemma emits_bind_quiet {A B} (c : IO A) (k : A -> IO B) (T : list event -> Prop) :
  quiet c -> T [] -> (forall a, emits (k a) T) -> emits (bindIO c k) T.
Proof.
  intros Q T0 Ek. apply (emits_bind c k (eq []) T T).
  - apply quiet_emits; auto.
  - assumption.
  - intros l1 <-. assumption.
  - intros l1 l2 <- H. assumption.
Qed.

Lemma quiet_bind {A B} (c : IO A) (k : A -> IO B) :
  quiet c -> (forall a, quiet (k a)) -> quiet (bindIO c k).
Proof.
  intros Qc Qk w. unfold bindIO. specialize (Qc w).
  destruct (c w) as [[a|e] w1]; cbn [snd] in *; [rewrite Qk|]; assumption.
Qed.

Lemma quiet_ret {A} (a : A) : quiet (ret a).
Proof. intros w. reflexivity. Qed.

Lemma quiet_lift {A} (r : result A) : quiet (lift r).
Proof. intros w. reflexivity. Qed.

Lemma quiet_fallible : quiet fallible.
Proof. intros w. unfold fallible. destruct (faults w) as [|[|] ?]; reflexivity. Qed.

Lemma quiet_exists_path p : quiet (exists_path p).
Proof. intros w. reflexivity. Qed.

Lemma quiet_getsize p : quiet (getsize p).
Proof. intros w. unfold getsize. destruct (lookup p (files w)); reflexivity. Qed.

Lemma quiet_time : quiet time.
Proof. intros w. reflexivity. Qed.

Lemma quiet_if {A} (b : bool) (c d : IO A) : quiet c -> quiet d -> quiet (if b then c else d).
Proof. destruct b; auto. Qed.

Lemma quiet_except {A} (c : IO A) (h : exn -> IO A) :
  quiet c -> (forall e, quiet (h e)) -> quiet (except_Exception c h).
Proof.
  intros Qc Qh w. unfold except_Exception. specialize (Qc w).
  destruct (c w) as [[a|e] w1]; cbn [snd] in *; [assumption|].
  destruct (is_Exception e); [rewrite Qh|]; assumption.
Qed.

Create HintDb quiet.
#[local] Hint Resolve quiet_ret quiet_lift quiet_fallible quiet_exists_path quiet_getsize
  quiet_time : quiet.

Ltac quiet_step :=
  first [ apply quiet_bind; [| intros ?]
        | apply quiet_if
        | apply quiet_except; [| intros ?]
        | solve [auto with quiet]
        | (intros ?; reflexivity) ].

Lemma quiet_copy2 src dst : quiet (copy2 src dst).
Proof. unfold copy2. repeat quiet_step. Qed.

Lemma quiet_remove p : quiet (remove p).
Proof. unfold remove. repeat quiet_step. Qed.

Lemma quiet_mkdtemp : quiet mkdtemp.
Proof.
  unfold mkdtemp. apply quiet_bind; [auto with quiet|]. intros _ w.
  destruct (fresh_names w); reflexivity.
Qed.

Lemma quiet_rmtree d : quiet (rmtree d).
Proof.
  unfold rmtree. apply quiet_bind; [auto with quiet|]. intros _ w.
  destruct (lookup d (tmpdirs w)); reflexivity.
Qed.

Lemma quiet_save_image d n : quiet (save_image d n).
Proof.
  unfold save_image. apply quiet_bind; [auto with quiet|]. intros _ w.
  destruct (lookup d (tmpdirs w)); reflexivity.
Qed.

Lemma quiet_get_video_info p : quiet (get_video_info p).
Proof. intros w. reflexivity. Qed.

#[local] Hint Resolve quiet_copy2 quiet_remove quiet_mkdtemp quiet_rmtree quiet_save_image
  quiet_get_video_info : quiet.

Lemma quiet_get_file_size_mb p : quiet (get_file_size_mb p).
Proof. unfold get_file_size_mb. repeat quiet_step. Qed.

Lemma quiet_attempt (c : IO unit) : quiet c -> quiet (attempt c).
Proof. intros Q. unfold attempt. apply quiet_except; [assumption | intros; apply quiet_ret]. Qed.

#[local] Hint Resolve quiet_get_file_size_mb quiet_attempt : quiet.

Lemma emits_record ev : emits (record ev) (eq [ev]).
Proof. intros w. exists [ev]. auto. Qed.

Lemma emits_run_ffmpeg cmd : emits (run_ffmpeg cmd) (eq [Ran cmd]).
Proof.
  intros w. exists [Ran cmd]. split; [|reflexivity].
  unfold run_ffmpeg, bindIO, record. cbn [runs log files tmpdirs fresh_names probes children faults clock].
  destruct (runs w) as [|[|code out err eff] rest]; try reflexivity.
  destruct (negb (code =? 0)); reflexivity.
Qed.

Lemma emits_spawn cmd duration start_time :
  emits (spawn_with_progress cmd duration start_time) (eq [Spawned cmd]).
Proof.
  intros w. exists [Spawned cmd]. split; [|reflexivity].
  unfold spawn_with_progress, bindIO, record.
  cbn [runs log files tmpdirs fresh_names probes children faults clock].
  destruct (children w) as [|[[proc eff]|] rest]; reflexivity.
Qed.

Lemma emits_try_finally {A} (body : IO A) (final : IO unit) (S : list event -> Prop) :
  emits body S -> quiet final -> emits (try_finally body final) S.
Proof.
  intros Eb Qf w. unfold try_finally. destruct (Eb w) as (l & El & Sl).
  destruct (body w) as [r w1]. cbn [snd] in El. specialize (Qf w1).
  destruct (final w1) as [[u|e] w2]; cbn [snd] in *; exists l; rewrite Qf; auto.
Qed.

Lemma emits_if {A} (b : bool) (c d : IO A) (S : list event -> Prop) :
  emits c S -> emits d S -> emits (if b then c else d) S.
Proof. destruct b; auto. Qed.

Lemma emits_bind_lift {A B} (r : result A) (k : A -> IO B) (T : list event -> Prop) :
  T [] -> (forall a, r = Ok a -> emits (k a) T) -> emits (bindIO (lift r) k) T.
Proof.
  intros T0 Ek w. unfold bindIO, lift. destruct r as [a|e].
  - apply Ek. reflexivity.
  - exists []. rewrite app_nil_r. auto.
Qed.

Lemma runs_at_nil b n : runs_at b n [].
Proof. split; [cbn; lia | intros ev []]. Qed.

Lemma runs_at_cons b n ev l : at_bitrate b ev -> runs_at b n l -> runs_at b (S n) (ev :: l).
Proof.
  intros Hev [L H]. split; [cbn; lia|].
  intros ev' [<- | I]; auto.
Qed.

Lemma runs_at_weaken b n m l : (n <= m)%nat -> runs_at b n l -> runs_at b m l.
Proof. intros Le [L H]. split; [lia | assumption]. Qed.

Lemma encoder_runs_nil duration target_size_mb : encoder_runs duration target_size_mb [].
Proof. split; [cbn; lia | intros ev []]. Qed.

Lemma encoder_runs_no_attempt duration target_size_mb cmds :
  encoder_runs duration target_size_mb cmds -> reencode_attempts cmds = [].
Proof.
  intros [_ H]. induction cmds as [|ev rest IH]; [reflexivity|].
  destruct (H ev (or_introl eq_refl)) as (kbps & b & _ & _ & Hb).
  destruct ev as [c|c|t]; cbn in Hb; try contradiction;
    cbn [reencode_attempts flat_map app]; apply IH; intros ev' I; apply H; right; exact I.
Qed.

(** One re-encode prints its entry line and starts at most two encoder runs,
    at the bitrate of the formula for the size it aims at. *)
Lemma emits_reencode input_path output_path target_size_mb duration :
  emits (reencode_to_target_size input_path output_path target_size_mb duration)
        (fun l => exists cmds, l = Reencoding target_size_mb :: cmds /\
                               encoder_runs duration target_size_mb cmds).
Proof.
  unfold reencode_to_target_size.
  apply (emits_bind _ _ (eq [Reencoding target_size_mb])
                    (encoder_runs duration target_size_mb));
    [apply emits_record | intros _ | | ].
  - apply emits_bind_lift; [apply encoder_runs_nil | intros kbps Ek].
    apply emits_bind_quiet; [auto with quiet | apply encoder_runs_nil | intros temp_dir].
    apply emits_try_finally; [| auto with quiet].
    apply emits_bind_lift; [apply encoder_runs_nil | intros b Eb].
    apply (emits_weaken _ (runs_at b 2)).
    2:{ intros l [L H]. split; [assumption|]. intros ev I. exists kbps, b. auto. }
    apply emits_bind_quiet; [auto with quiet | apply runs_at_nil | intros maxrate].
    apply emits_bind_quiet; [auto with quiet | apply runs_at_nil | intros bufsize].
    eapply (emits_bind _ _ _ (runs_at b 1)); [apply emits_run_ffmpeg | intros [[success e1] o1] | | ].
    + cbv zeta.
      apply emits_if; [apply quiet_emits; [auto with quiet | apply runs_at_nil]|].
      apply emits_bind_lift; [apply runs_at_nil | intros b2 Eb2].
      assert (b2 = b) by congruence. subst b2.
      apply emits_bind_quiet; [auto with quiet | apply runs_at_nil | intros m2].
      apply emits_bind_quiet; [auto with quiet | apply runs_at_nil | intros f2].
      apply emits_bind_quiet; [auto with quiet | apply runs_at_nil | intros st].
      eapply (emits_bind _ _ _ (eq [])); [apply emits_spawn | intros [success2 lines] | | ].
      * cbv zeta.
        apply emits_if; [apply quiet_emits; [auto with quiet | reflexivity]|].
        apply quiet_emits; [| reflexivity]. repeat quiet_step.
      * intros l1 <-. apply runs_at_cons; [cbn; auto | apply runs_at_nil].
      * intros l1 l2 <- <-. apply runs_at_cons; [cbn; auto | apply runs_at_nil].
    + intros l1 <-. apply runs_at_cons; [reflexivity | apply runs_at_nil].
    + intros l1 l2 <- H. apply runs_at_cons; [reflexivity | exact H].
  - intros l1 <-. exists []. split; [reflexivity | apply encoder_runs_nil].
  - intros l1 l2 <- H. exists l2. auto.
Qed.

Lemma reencode_attempts_app l1 l2 :
  reencode_attempts (l1 ++ l2) = (reencode_attempts l1 ++ reencode_attempts l2)%list.
Proof. apply flat_map_app. Qed.

Lemma reencode_attempts_cons t l :
  reencode_attempts (Reencoding t :: l) = t :: reencode_attempts l.
Proof. reflexivity. Qed.

Lemma emits_enforce_size_limit output_path target_size_mb duration :
  emits (enforce_size_limit output_path target_size_mb duration)
        (enforcement_log duration target_size_mb).
Proof.
  assert (T0 : enforcement_log duration target_size_mb []) by (left; reflexivity).
  unfold enforce_size_limit.
  apply emits_bind_quiet; [auto with quiet | exact T0 | intros found].
  apply emits_if; [apply quiet_emits; [auto with quiet | exact T0]|].
  apply emits_bind_quiet; [auto with quiet | exact T0 | intros file_size].
  apply emits_if; [apply quiet_emits; [auto with quiet | exact T0]|].
  apply emits_bind_quiet; [auto with quiet | exact T0 | intros excess].
  apply emits_bind_quiet; [auto with quiet | exact T0 | intros _].
  apply emits_try_finally.
  2:{ apply quiet_attempt. repeat quiet_step. }
  eapply (emits_bind _ _ _
            (fun l => l = [] \/ exists reduced cmds,
               num_mul target_size_mb (Float (float_lit (95 # 100))) = Ok reduced /\
               l = Reencoding reduced :: cmds /\ encoder_runs duration reduced cmds));
    [apply emits_reencode | intros success | | ].
  - apply emits_if.
    + apply emits_bind_quiet; [auto with quiet | left; reflexivity | intros final_size].
      apply emits_if; [apply quiet_emits; [auto with quiet | left; reflexivity]|].
      apply emits_bind_lift; [left; reflexivity | intros reduced Er].
      apply emits_bind_quiet; [auto with quiet | left; reflexivity | intros kbps].
      apply emits_bind_lift; [left; reflexivity | intros reduced' Er'].
      assert (reduced' = reduced) by congruence. subst reduced'.
      eapply (emits_bind _ _ _ (eq [])); [apply emits_reencode | intros success2 | | ].
      * apply quiet_emits; [| reflexivity]. repeat quiet_step.
      * intros l1 (cmds & -> & C). right. eauto.
      * intros l1 l2 (cmds & -> & C) <-. right. exists reduced, cmds.
        rewrite app_nil_r. auto.
    + apply quiet_emits; [auto with quiet | left; reflexivity].
  - intros l1 (cmds & -> & C). right; left. eauto.
  - intros l1 l2 (cmds & -> & C) [-> | (reduced & cmds2 & Er & -> & D)].
    + rewrite app_nil_r. right; left. eauto.
    + right; right. exists reduced, cmds, cmds2. auto.
Qed.

Lemma lookup_delete_same {A} key (l : list (string * A)) : lookup key (delete key l) = None.
Proof.
  induction l as [|[k v] l IH]; [reflexivity|]. cbn [delete filter fst].
  destruct (String.eqb k key) eqn:E; cbn [negb].
  - exact IH.
  - cbn [lookup]. rewrite E. exact IH.
Qed.

Lemma lookup_delete_other {A} key other (l : list (string * A)) :
  other <> key -> lookup other (delete key l) = lookup other l.
Proof.
  intros N. induction l as [|[k v] l IH]; [reflexivity|]. cbn [delete filter fst lookup].
  destruct (String.eqb_spec k key) as [->|K]; cbn [negb].
  - destruct (String.eqb_spec key other) as [E|_]; [congruence | exact IH].
  - cbn [lookup]. destruct (String.eqb k other); [reflexivity | exact IH].
Qed.

Lemma delete_absent {A} key (l : list (string * A)) : lookup key l = None -> delete key l = l.
Proof.
  induction l as [|[k v] l IH]; [reflexivity|]. cbn [lookup delete filter fst].
  destruct (String.eqb k key); [discriminate|]. intros H. cbn [negb]. f_equal. apply IH. exact H.
Qed.

Lemma bindIO_Ok {A B} (c : IO A) (k : A -> IO B) w b w' :
  bindIO c k w = (Ok b, w') -> exists a w1, c w = (Ok a, w1) /\ k a w1 = (Ok b, w').
Proof.
  unfold bindIO. destruct (c w) as [[a|e] w1]; [eauto | discriminate].
Qed.

Lemma try_finally_Ok {A} (body : IO A) (final : IO unit) w b w' :
  try_finally body final w = (Ok b, w') ->
  exists w1 u, body w = (Ok b, w1) /\ final w1 = (Ok u, w').
Proof.
  unfold try_finally. destruct (body w) as [r w1].
  destruct (final w1) as [[u|e] w2] eqn:F; [|discriminate].
  intros [= -> <-]. exists w1, u. split; [reflexivity | exact F].
Qed.

Lemma get_file_size_mb_pure path w : snd (get_file_size_mb path w) = w.
Proof.
  unfold get_file_size_mb, bindIO, exists_path, getsize, lift, ret.
  destruct (lookup path (files w)) eqn:L; cbn; rewrite ?L; reflexivity.
Qed.

Lemma get_file_size_mb_ext path w w' :
  lookup path (files w') = lookup path (files w) ->
  fst (get_file_size_mb path w') = fst (get_file_size_mb path w).
Proof.
  intros E. unfold get_file_size_mb, bindIO, exists_path, getsize, lift, ret.
  rewrite E. destruct (lookup path (files w)) eqn:L; cbn; rewrite ?E, ?L; reflexivity.
Qed.

Lemma append_neq s t : t <> "" -> s ++ t <> s.
Proof.
  intros N. induction s as [|c s IH]; cbn; [exact N|]. intros [= E]. exact (IH E).
Qed.

Lemma cleanup_keeps_other path other w r w' :
  other <> path ->
  attempt (bindIO (exists_path path) (fun found => if found then remove path else ret tt)) w
  = (r, w') ->
  lookup other (files w') = lookup other (files w).
Proof.
  intros N. unfold attempt, except_Exception, bindIO, exists_path.
  destruct (lookup path (files w)) as [n|] eqn:L.
  - unfold remove, bindIO, fallible.
    destruct (faults w) as [|[|] fs]; cbn [is_Exception ret];
      try (intros [= _ <-]; reflexivity);
      unfold getsize; cbn [files]; rewrite L;
      intros [= _ <-]; cbn; apply lookup_delete_other; exact N.
  - intros [= _ <-]. reflexivity.
Qed.

(** The size measurement reads the files and changes nothing. *)
Lemma measured path w size w1 :
  get_file_size_mb path w = (Ok size, w1) ->
  w1 = w /\ fst (get_file_size_mb path w) = Ok size.
Proof.
  intros G. pose proof (get_file_size_mb_pure path w) as P.
  rewrite G in *. cbn in *. auto.
Qed.

Lemma log_unchanged (l0 l : list event) : l0 = (l0 ++ l)%list -> l = [].
Proof.
  intros E. apply (app_inv_head l0). rewrite app_nil_r. symmetry. exact E.
Qed.

(** C2. One call of the size enforcement makes at most two re-encode
    attempts before it answers: what it has started when it ends is nothing,
    or one re-encode at the full budget, or that one followed by one at
    budget * 0.95, never a third; each re-encode starts at most two encoder
    runs (pass 1, pass 2), at the bitrate that [calculate_target_bitrate]
    gives for the size it aims at and 128 kbps of audio.  The answer goes with
    the attempts: a file that is there and over the budget is never answered
    for without an attempt; [False] is answered for a missing file, after a
    first attempt that did not succeed, or after a second attempt that left
    the file over the budget; [True] only for a file that is within the
    budget when the call ends. *)
Theorem at_most_two_reencode_attempts output_path target_size_mb duration w :
  exists r w' l,
    enforce_size_limit output_path target_size_mb duration w = (r, w') /\
    log w' = (log w ++ l)%list /\
    enforcement_log duration target_size_mb l /\
    (List.length (reencode_attempts l) <= 2)%nat /\
    forall verdict,
      r = Ok verdict ->
      verdict_after output_path target_size_mb duration w w' (reencode_attempts l) verdict.
Proof.
  destruct (emits_enforce_size_limit output_path target_size_mb duration w) as (l & El & H).
  destruct (enforce_size_limit output_path target_size_mb duration w) as [r w'] eqn:E.
  exists r, w', l. cbn [snd] in El.
  split; [reflexivity|]. split; [exact El|]. split; [exact H|]. split.
  { destruct H as [-> | [(cmds & -> & C) | (reduced & cmds1 & cmds2 & _ & -> & C1 & C2)]].
    - cbn. lia.
    - rewrite reencode_attempts_cons, (encoder_runs_no_attempt _ _ _ C). cbn. lia.
    - rewrite reencode_attempts_cons, reencode_attempts_app, reencode_attempts_cons.
      rewrite (encoder_runs_no_attempt _ _ _ C1), (encoder_runs_no_attempt _ _ _ C2).
      cbn. lia. }
  clear H. intros verdict ->. revert E. unfold enforce_size_limit. cbv zeta.
  set (temp_input := output_path ++ ".oversized.tmp"). intros E.
  apply bindIO_Ok in E. destruct E as (found & w1 & E1 & E). injection E1 as <- <-.
  destruct (lookup output_path (files w)) as [n|] eqn:Lk; cbn [negb] in E.
  2:{ injection E as <- <-. apply log_unchanged in El. subst l. exact Lk. }
  apply bindIO_Ok in E. destruct E as (file_size & w1 & G & E).
  apply measured in G. destruct G as [-> G].
  destruct (num_le file_size target_size_mb) eqn:L.
  { injection E as <- <-. apply log_unchanged in El. subst l.
    split; [congruence | exists file_size; auto]. }
  assert (Over : exceeds_budget output_path target_size_mb w) by (exists file_size; auto).
  assert (There : lookup output_path (files w) <> None) by congruence.
  apply bindIO_Ok in E. destruct E as (excess & w1 & E1 & E).
  unfold lift in E1. assert (w1 = w) by congruence. subst w1. clear E1.
  apply bindIO_Ok in E. destruct E as (u & w2 & C & E).
  assert (L2 : log w2 = log w).
  { pose proof (quiet_copy2 output_path temp_input w) as Q. rewrite C in Q. exact Q. }
  assert (W2 : snd (copy2 output_path temp_input w) = w2) by (rewrite C; reflexivity).
  apply try_finally_Ok in E. destruct E as (w3 & u' & B & F).
  assert (L3 : log w' = log w3).
  { assert (Q : quiet (attempt (bindIO (exists_path temp_input)
                                  (fun found => if found then remove temp_input else ret tt))))
      by (apply quiet_attempt; repeat quiet_step).
    specialize (Q w3). rewrite F in Q. exact Q. }
  assert (Out : forall size, fst (get_file_size_mb output_path w3) = Ok size ->
                             fst (get_file_size_mb output_path w') = Ok size).
  { intros size <-. apply get_file_size_mb_ext. eapply cleanup_keeps_other; [|exact F].
    intros X. symmetry in X. revert X. apply append_neq. discriminate. }
  apply bindIO_Ok in B. destruct B as (success & w4 & R1 & B).
  destruct (emits_reencode temp_input output_path target_size_mb duration w2)
    as (l1 & E1 & cmds1 & -> & C1).
  rewrite R1 in E1. cbn [snd] in E1.
  assert (A1 : reencode_attempts (Reencoding target_size_mb :: cmds1) = [target_size_mb]).
  { rewrite reencode_attempts_cons, (encoder_runs_no_attempt _ _ _ C1). reflexivity. }
  assert (F1 : fst (reencode_to_target_size temp_input output_path target_size_mb duration
                      (snd (copy2 output_path temp_input w))) = Ok success).
  { rewrite W2, R1. reflexivity. }
  destruct success.
  2:{ injection B as <- <-.
      assert (l = Reencoding target_size_mb :: cmds1).
      { apply (app_inv_head (log w)). rewrite <- El, L3, E1, L2. reflexivity. }
      subst l. rewrite A1. cbn. auto. }
  apply bindIO_Ok in B. destruct B as (final_size & w5 & G1 & B).
  apply measured in G1. destruct G1 as [-> G1].
  destruct (num_le final_size target_size_mb) eqn:Lf.
  { injection B as <- <-.
    assert (l = Reencoding target_size_mb :: cmds1).
    { apply (app_inv_head (log w)). rewrite <- El, L3, E1, L2. reflexivity. }
    subst l. rewrite A1. cbn. repeat split; auto. exists final_size. auto. }
  apply bindIO_Ok in B. destruct B as (reduced & w5 & Er & B).
  unfold lift in Er. injection Er as Er <-.
  apply bindIO_Ok in B. destruct B as (kbps & w6 & Ek & B).
  unfold lift in Ek. injection Ek as _ <-.
  apply bindIO_Ok in B. destruct B as (reduced' & w7 & Er' & B).
  unfold lift in Er'. injection Er' as Er' <-.
  assert (reduced' = reduced) by congruence. subst reduced'.
  apply bindIO_Ok in B. destruct B as (success2 & w8 & R2 & B).
  destruct (emits_reencode temp_input output_path reduced duration w4)
    as (l2 & E2 & cmds2 & -> & C2).
  rewrite R2 in E2. cbn [snd] in E2.
  apply bindIO_Ok in B. destruct B as (final_size2 & w9 & G2 & B).
  apply measured in G2. destruct G2 as [-> G2].
  injection B as <- <-.
  assert (l = (Reencoding target_size_mb :: cmds1) ++ Reencoding reduced :: cmds2)%list.
  { apply (app_inv_head (log w)). rewrite <- El, L3, E2, E1, L2, <- app_assoc. reflexivity. }
  subst l. rewrite reencode_attempts_app, A1, reencode_attempts_cons,
             (encoder_runs_no_attempt _ _ _ C2).
  cbn [app verdict_after]. fold temp_input.
  repeat split; auto.
  destruct (num_le final_size2 target_size_mb) eqn:L9; exists final_size2; auto.
Qed.

Lemma at_most_two_reencode_attempts_witness :
  exists w' l reduced,
    enforce_size_limit "out/clip.mp4" (Int 10) (Float (Fin 10))
      (with_files (writes "out/clip.mp4" (20 * MB))
         (world_with [Some (quiet_child 0, writes "out/clip.mp4" (12 * MB));
                      Some (quiet_child 0, writes "out/clip.mp4" (11 * MB))] []))
    = (Ok false, w') /\
    log w' = l /\ reencode_attempts l = [Int 10; reduced] /\
    num_mul (Int 10) (Float (float_lit (95 # 100))) = Ok reduced /\
    exceeds_budget "out/clip.mp4" (Int 10) w'.
Proof.
  set (w := with_files (writes "out/clip.mp4" (20 * MB))
              (world_with [Some (quiet_child 0, writes "out/clip.mp4" (12 * MB));
                           Some (quiet_child 0, writes "out/clip.mp4" (11 * MB))] [])).
  destruct (at_most_two_reencode_attempts "out/clip.mp4" (Int 10) (Float (Fin 10)) w)
    as (r & w' & l & E & El & _ & _ & V).
  assert (R : fst (enforce_size_limit "out/clip.mp4" (Int 10) (Float (Fin 10)) w) = Ok false)
    by (vm_compute; reflexivity).
  rewrite E in R. cbn [fst] in R. subst r. specialize (V false eq_refl).
  change (log w) with (@nil event) in El. cbn [app] in El.
  assert (A : exists reduced, reencode_attempts (log w') = [Int 10; reduced]).
  { replace w' with (snd (enforce_size_limit "out/clip.mp4" (Int 10) (Float (Fin 10)) w))
      by (rewrite E; reflexivity).
    eexists. vm_compute. reflexivity. }
  destruct A as (reduced & A). rewrite <- El in V. rewrite A in V.
  destruct V as (_ & Er & _ & _ & _ & X).
  exists w', l, reduced. repeat split; try assumption; congruence.
Defined.

(** ** Temporary files of one file's processing *)

(** When the encoder returns, with success or with a failure code, the
    directory of the overlay images is removed. *)
Lemma overlay_assets_removed_after_encode :
  (let (r, w) := process_clip (world_with [Some (quiet_child 0, writes "out/clip.mp4" (8 * MB))] [])
   in r = Ok Processed /\ tmpdirs w = []) /\
  (let (r, w) := process_clip (world_with [Some (quiet_child 1, fun fs => fs)] [])
   in r = Ok Failed /\ tmpdirs w = []).
Proof. split; vm_compute; split; reflexivity. Qed.

(** The re-encode path cleans up in [finally] blocks: an interrupt in pass 2
    leaves neither the pass-log directory nor the oversized copy behind. *)
Lemma reencode_cleans_up_after_interrupt :
  let (r, w) :=
    process_clip
      (world_with [Some (quiet_child 0, writes "out/clip.mp4" (20 * MB));
                   Some (interrupted_child, fun fs => fs)] [])
  in r = Raise KeyboardInterrupt /\ tmpdirs w = [] /\
     lookup "out/clip.mp4.oversized.tmp" (files w) = None /\
     reencode_attempts (log w) = [Int 10].
Proof. vm_compute. repeat split. Qed.

(** Two re-encodes that both stay over the budget: the file counts as
    failed, after attempts at 10 MB and at 9.5 MB, and nothing temporary
    remains. *)
Lemma two_attempts_then_failure :
  let (r, w) :=
    process_clip
      (world_with [Some (quiet_child 0, writes "out/clip.mp4" (20 * MB));
                   Some (quiet_child 0, writes "out/clip.mp4" (12 * MB));
                   Some (quiet_child 0, writes "out/clip.mp4" (11 * MB))] [])
  in r = Ok Failed /\ tmpdirs w = [] /\
     lookup "out/clip.mp4.oversized.tmp" (files w) = None /\
     reencode_attempts (log w) = [Int 10; Float (Fin (19 # 2))].
Proof. vm_compute. repeat split. Qed.

(** C6 on the code: an operator interrupt while the encoder of the file runs
    leaves the processing of the file with the temporary directory and both
    overlay images still there, and a failure to save the mask image ends the
    file as failed with the directory still there: the directory is removed
    only on the path on which the encoder has returned. *)
Theorem overlay_assets_left_behind :
  (let (r, w) :=
     process_clip (world_with [Some (interrupted_child, writes "out/clip.mp4" (3 * MB))] [])
   in r = Raise KeyboardInterrupt /\
      tmpdirs w = [("/tmp/tmp1", ["clip_border.png"; "clip_mask.png"])]) /\
  (let (r, w) := process_clip (world_with [] [false; true])
   in r = Ok Failed /\ tmpdirs w = [("/tmp/tmp1", [])]).
Proof. split; vm_compute; split; reflexivity. Qed.

(** * Part III: further properties of the program *)

(** ** Bitrate targeting: the clamp *)

Lemma fle_Fin x y : fle (Fin x) (Fin y) = true <-> (x <= y)%Q.
Proof. cbn. apply Qle_bool_iff. Qed.

Lemma flt_Fin_false x y : flt (Fin x) (Fin y) = false <-> (y <= x)%Q.
Proof.
  cbn. destruct (Qle_bool y x) eqn:E; cbn.
  - apply Qle_bool_iff in E. tauto.
  - split; [discriminate|]. intros L. apply Qle_bool_iff in L. congruence.
Qed.

Lemma clamp_bounds x :
  num_le (Int 500) (py_max (Int 500) (py_min (Int 5000) x)) = true /\
  num_le (py_max (Int 500) (py_min (Int 5000) x)) (Int 5000) = true.
Proof.
  unfold py_max, py_min, num_gt, num_lt, num_le.
  destruct x as [z | [q | [|] |]]; cbn [as_float_exact].
  - destruct (flt (Fin (inject_Z z)) (Fin (inject_Z 5000))) eqn:E1; cbn [as_float_exact].
    + destruct (flt (Fin (inject_Z 500)) (Fin (inject_Z z))) eqn:E2; cbn [as_float_exact].
      * apply flt_Fin in E1, E2. rewrite !fle_Fin. split; apply Qlt_le_weak; assumption.
      * split; reflexivity.
    + split; reflexivity.
  - destruct (flt (Fin q) (Fin (inject_Z 5000))) eqn:E1; cbn [as_float_exact].
    + destruct (flt (Fin (inject_Z 500)) (Fin q)) eqn:E2; cbn [as_float_exact].
      * apply flt_Fin in E1, E2. rewrite !fle_Fin. split; apply Qlt_le_weak; assumption.
      * split; reflexivity.
    + split; reflexivity.
  - split; reflexivity.
  - split; reflexivity.
  - split; reflexivity.
Qed.

(** X1. Whatever the duration, the size and the audio bitrate, a value that
    [calculate_target_bitrate] returns lies between 500 and 5000 kbps, the
    fallback 2000 and the results of non-finite intermediate values included;
    and for a positive finite duration and int size and audio bitrate below
    2^1000 in magnitude the function does return. *)
Theorem bitrate_always_clamped :
  (forall duration target_size_mb audio_bitrate_kbps v,
     calculate_target_bitrate duration target_size_mb audio_bitrate_kbps = Ok v ->
     num_le (Int 500) v = true /\ num_le v (Int 5000) = true) /\
  (forall d s a,
     (0 < d)%Q -> Z.abs s < 2 ^ 1000 -> Z.abs a < 2 ^ 1000 ->
     exists v, calculate_target_bitrate (Float (Fin d)) (Int s) (Int a) = Ok v).
Proof.
  split.
  - intros duration target_size_mb audio v. unfold calculate_target_bitrate.
    destruct (num_le duration (Int 0)).
    + intros [= <-]. split; reflexivity.
    + intros E.
      repeat (apply bind_Ok in E; destruct E as (? & _ & E)).
      injection E as <-. apply clamp_bounds.
  - intros d s a Hd Hs Ha. unfold calculate_target_bitrate.
    assert (N : num_le (Float (Fin d)) (Int 0) = false).
    { unfold num_le. cbn [as_float_exact fle].
      destruct (Qle_bool d (inject_Z 0)) eqn:E; [|reflexivity].
      apply Qle_bool_iff in E. change (inject_Z 0) with 0%Q in E.
      exfalso. apply (Qlt_not_le _ _ Hd E). }
    rewrite N. cbn [num_mul bind to_float].
    assert (F : forall z, Z.abs z < 2 ^ 1023 -> exists y, float_of_int z = Ok (Fin y)).
    { intros z Hz. unfold float_of_int.
      rewrite (overflows_false_small (rne (inject_Z z)) (pow2 1023)).
      - eauto.
      - setoid_replace (pow2 1023) with (inject_Z 1 * pow2 1023)%Q by ring.
        apply rne_abs_le; [| lia | lia].
        setoid_replace (inject_Z 1 * pow2 1023)%Q with (pow2 1023) by ring.
        apply inject_Z_abs_lt; lia.
      - apply pow2_lt. lia. }
    destruct (F (a * 1000)) as [ya ->].
    { replace (2 ^ 1023) with (2 ^ 1000 * 8388608) by reflexivity.
      rewrite !Z.abs_mul. remember (2 ^ 1000) as P eqn:EP. clear EP. cbn [Z.abs]. lia. }
    cbn [bind num_sub to_float].
    destruct (F (s * 8 * 1024 * 1024)) as [yt ->].
    { replace (2 ^ 1023) with (2 ^ 1000 * 8388608) by reflexivity.
      rewrite !Z.abs_mul. remember (2 ^ 1000) as P eqn:EP. clear EP. cbn [Z.abs]. lia. }
    cbn [bind num_truediv to_float].
    assert (D : forall x, exists y, fdiv x (Fin d) = Ok y).
    { intros x. unfold fdiv.
      destruct (Qeq_bool d 0) eqn:E.
      - apply Qeq_bool_iff in E. rewrite E in Hd. discriminate.
      - destruct x; eauto. }
    destruct (D (fsub (Fin yt) (fmul (Fin ya) (Fin d)))) as [q ->]. cbn [bind].
    cbn [num_truediv to_float bind].
    assert (Ek : float_of_int 1000 = Ok (Fin 1000)) by (vm_compute; reflexivity).
    rewrite Ek. cbn [bind].
    assert (D' : exists y, fdiv q (Fin 1000) = Ok y) by (destruct q; cbn; eauto).
    destruct D' as [q' ->]. cbn [bind num_mul to_float]. eauto.
Qed.

Lemma bitrate_always_clamped_witness :
  exists v, calculate_target_bitrate (Float (Fin 60)) (Int 10) (Int 192) = Ok v /\
            num_le (Int 500) v = true /\ num_le v (Int 5000) = true.
Proof.
  destruct (proj2 bitrate_always_clamped 60%Q 10 192) as [v E]; [reflexivity ..|].
  exists v. split; [exact E|].
  apply (proj1 bitrate_always_clamped _ _ _ _ E).
Defined.

(** ** The process runner: exceptions, collected lines, early stop, timeout *)





Lemma lines_of_app a b : lines_of (a ++ b) = (lines_of a ++ lines_of b)%list.
Proof. apply flat_map_app. Qed.

(** The loop collects the line of every event it reads, the one it stops on
    included, and nothing else. *)
Lemma monitor_loop_lines proc duration start_time events m p :
  exists read,
    events = (read ++ unread_at_exit (monitor_loop proc duration start_time events m p))%list /\
    stderr_lines (monitor_at_exit (monitor_loop proc duration start_time events m p))
    = (stderr_lines m ++ lines_of read)%list.
Proof.
  revert m p. induction events as [|ev rest IH]; intros m p; cbn [monitor_loop].
  - exists []. split; [reflexivity|]. cbn. now rewrite app_nil_r.
  - assert (Stop : forall m0, stderr_lines m0 = (stderr_lines m ++ lines_of [ev])%list ->
              exists read,
                ev :: rest = (read ++ rest)%list /\
                stderr_lines m0 = (stderr_lines m ++ lines_of read)%list).
    { intros m0 E0. exists [ev]. split; [reflexivity | exact E0]. }
    assert (Next : forall m0 p0, stderr_lines m0 = (stderr_lines m ++ lines_of [ev])%list ->
              exists read,
                ev :: rest
                = (read ++ unread_at_exit (monitor_loop proc duration start_time rest m0 p0))%list /\
                stderr_lines (monitor_at_exit (monitor_loop proc duration start_time rest m0 p0))
                = (stderr_lines m ++ lines_of read)%list).
    { intros m0 p0 E0. destruct (IH m0 p0) as (read & E & M).
      exists (ev :: read). split; [cbn [app]; congruence|].
      change (ev :: read) with ([ev] ++ read)%list.
      rewrite M, E0, lines_of_app, <- app_assoc. reflexivity. }
    destruct ev as [line now | ex now | e0].
    + cbv zeta.
      repeat match goal with
             | |- context [if ?b then _ else _] => destruct b
             | |- context [match ?x with _ => _ end] => destruct x
             end; try (apply Next; reflexivity); apply Stop; reflexivity.
    + destruct ex.
      * apply Stop. cbn. now rewrite app_nil_r.
      * destruct (_ && _).
        -- apply Stop. cbn. now rewrite app_nil_r.
        -- apply Next. cbn. now rewrite app_nil_r.
    + apply Stop. cbn. now rewrite app_nil_r.
Qed.

(** X3. The lines the runner returns are exactly the lines of the events it
    has read from the child's stderr, in order, the line it stops on
    included: the child's stream is what was read followed by what was left
    unread, and no line of the first part is dropped, repeated or changed.
    After a run that read the stream to its end they are all the lines the
    child wrote. *)
Theorem runner_returns_the_lines_read proc duration start_time flag lines p :
  run_ffmpeg_with_progress proc duration start_time = (Ok (flag, lines), p) ->
  (exists read,
     stderr_events proc = (read ++ unread_events proc duration start_time)%list /\
     lines = lines_of read) /\
  (unread_events proc duration start_time = [] -> lines = lines_of (stderr_events proc)).
Proof.
  intros F.
  assert (R : exists read,
             stderr_events proc = (read ++ unread_events proc duration start_time)%list /\
             lines = lines_of read).
  { revert F. unfold run_ffmpeg_with_progress, unread_events.
    set (m0 := {| last_percentage := Int (-1); stderr_lines := [];
                  completion_detected := false; last_update_time := start_time |}).
    destruct (monitor_loop_lines proc duration start_time (stderr_events proc) m0 spawned)
      as (read & E & M).
    assert (H : forall e l q, handle e l q = (Ok (flag, lines), p) -> l = lines).
    { intros e l q. unfold handle. destruct (is_Exception e); [|discriminate].
      now intros [= <- <-]. }
    cbn [stderr_lines m0 app] in M.
    destruct (monitor_loop _ _ _ _ _ _) as [m q u | e m q u];
      cbn [monitor_at_exit unread_at_exit] in M, E.
    - destruct (wait_for_exit proc duration q) as [q' | e q'].
      + intros F. assert (stderr_lines m = lines)
          by (destruct (returncode q') as [[| |]|]; congruence).
        exists read. split; congruence.
      + intros F. apply H in F. exists read. split; congruence.
    - intros F. apply H in F. exists read. split; congruence. }
  split; [exact R|].
  intros U. destruct R as (read & E & ->). rewrite U, app_nil_r in E. congruence.
Qed.

Lemma runner_returns_the_lines_read_witness :
  run_ffmpeg_with_progress demo_process (Float (Fin 4)) (Fin 0)
  = (Ok (false, ["ffmpeg version 6.0";
                 "frame=  100 fps= 25 time=00:00:04.00 bitrate= 900kbits/s"]),
     {| returncode := Some 255; sigint_sent := true; terminated := false |}) /\
  unread_events demo_process (Float (Fin 4)) (Fin 0)
  = [Line "frame=  250 fps= 25 time=00:00:09.98 bitrate= 900kbits/s" (Fin 3)] /\
  (exists read,
     stderr_events demo_process
     = (read ++ unread_events demo_process (Float (Fin 4)) (Fin 0))%list /\
     ["ffmpeg version 6.0"; "frame=  100 fps= 25 time=00:00:04.00 bitrate= 900kbits/s"]
     = lines_of read).
Proof.
  assert (E : run_ffmpeg_with_progress demo_process (Float (Fin 4)) (Fin 0)
              = (Ok (false, ["ffmpeg version 6.0";
                             "frame=  100 fps= 25 time=00:00:04.00 bitrate= 900kbits/s"]),
                 {| returncode := Some 255; sigint_sent := true; terminated := false |}))
    by (vm_compute; reflexivity).
  split; [exact E|]. split; [vm_compute; reflexivity|].
  exact (proj1 (runner_returns_the_lines_read demo_process (Float (Fin 4)) (Fin 0) _ _ _ E)).
Defined.

Lemma reached_end_cons duration line lines :
  reached_end duration lines -> reached_end duration (line :: lines).
Proof.
  intros (G & l & h & mi & c & pc & I & R). split; [exact G|].
  exists l, h, mi, c, pc. split; [right; exact I | exact R].
Qed.

Lemma monitor_loop_sigint proc duration start_time events m p :
  sigint_sent (popen_at_exit (monitor_loop proc duration start_time events m p)) = true ->
  sigint_sent p = true \/ reached_end duration (lines_of events).
Proof.
  revert m p. induction events as [|ev rest IH]; intros m p; cbn [monitor_loop].
  - cbn. auto.
  - destruct ev as [line now | ex now | e0].
    + assert (Next : forall m0,
                sigint_sent (popen_at_exit (monitor_loop proc duration start_time rest m0 p))
                = true ->
                sigint_sent p = true \/ reached_end duration (lines_of (Line line now :: rest))).
      { intros m0 S. destruct (IH m0 p S) as [?|R]; [auto|].
        right. apply reached_end_cons. exact R. }
      cbv zeta.
      cbn [completion_detected last_percentage].
      match goal with |- context [if ?b then Break _ _ _ else _] => destruct b end; [cbn; auto|].
      destruct (contains "time=" line) eqn:C; [|apply Next].
      destruct (search_time line) as [[[h mi] c]|] eqn:T; [|apply Next].
      destruct (num_gt duration (Int 0)) eqn:G; [|apply Next].
      destruct (current_time_of h mi c) as [ct|e]; [|cbn; auto].
      destruct (percentage_of h mi c duration) as [pc|e] eqn:P; [|cbn; auto].
      destruct (num_ge pc (Float (float_lit (995 # 10)))) eqn:N.
      * intros _. right. split; [exact G|].
        exists line, h, mi, c, pc. repeat split; try assumption. left. reflexivity.
      * destruct (num_sub pc (last_percentage m)) as [delta|e]; [|cbn; auto].
        destruct (num_ge delta _); [|apply Next].
        destruct (display_progress _ _ _ _); [apply Next | cbn; auto].
    + destruct ex; [cbn; auto|].
      destruct (_ && _); [cbn; auto|]. apply IH.
    + cbn. auto.
Qed.

Lemma wait_for_exit_sigint proc duration p :
  match wait_for_exit proc duration p with
  | Waited p' | WaitRaised _ p' => sigint_sent p' = sigint_sent p
  end.
Proof.
  unfold wait_for_exit, on_timeout. destruct (timeout_seconds duration) as [t|]; [|reflexivity].
  destruct (returncode p); [reflexivity|].
  destruct (interrupt_in_wait proc); [reflexivity|].
  destruct (exit_delay proc); [destruct (num_le _ _)|]; destruct (format_time t); reflexivity.
Qed.

Lemma handle_sigint e l q : sigint_sent (snd (handle e l q)) = sigint_sent q.
Proof. unfold handle. destruct (is_Exception e); reflexivity. Qed.

(** X4. The runner asks the child to finish early (SIGINT) only after a
    progress line whose time stamp reached 99.5% of a positive duration; for
    a source of unknown duration (zero, negative or NaN) it never does. *)
Theorem early_stop_only_at_the_end proc duration start_time r p :
  run_ffmpeg_with_progress proc duration start_time = (r, p) ->
  (sigint_sent p = true -> reached_end duration (lines_of (stderr_events proc))) /\
  (num_gt duration (Int 0) = false -> sigint_sent p = false).
Proof.
  intros E.
  assert (S : sigint_sent p = true -> reached_end duration (lines_of (stderr_events proc))).
  { revert E. unfold run_ffmpeg_with_progress.
    set (m0 := {| last_percentage := Int (-1); stderr_lines := [];
                  completion_detected := false; last_update_time := start_time |}).
    pose proof (monitor_loop_sigint proc duration start_time (stderr_events proc) m0 spawned)
      as L.
    destruct (monitor_loop _ _ _ _ _ _) as [m q u | e m q u]; cbn [popen_at_exit] in L.
    - pose proof (wait_for_exit_sigint proc duration q) as W.
      destruct (wait_for_exit proc duration q) as [q' | e q'].
      + intros E S. destruct L as [L|L]; [|discriminate L|exact L].
        destruct (returncode q') as [[| |]|]; injection E as _ <-; congruence.
      + intros E S. pose proof (handle_sigint e (stderr_lines m) q') as Hs.
        rewrite E in Hs. cbn [snd] in Hs.
        destruct L as [L|L]; [congruence | discriminate L | exact L].
    - intros E S. pose proof (handle_sigint e (stderr_lines m) q) as Hs.
      rewrite E in Hs. cbn [snd] in Hs.
      destruct L as [L|L]; [congruence | discriminate L | exact L]. }
  split; [exact S|].
  intros G. destruct (sigint_sent p); [|reflexivity].
  destruct (S eq_refl) as [G' _]. congruence.
Qed.

Lemma early_stop_only_at_the_end_witness :
  exists r p,
    run_ffmpeg_with_progress demo_process (Float (Fin 10)) (Fin 0) = (r, p) /\
    sigint_sent p = true /\
    (sigint_sent p = true -> reached_end (Float (Fin 10)) (lines_of (stderr_events demo_process))) /\
    (num_gt (Float (Fin 10)) (Int 0) = false -> sigint_sent p = false).
Proof.
  eexists _, _. split; [vm_compute; reflexivity|]. split; [reflexivity|].
  eapply (early_stop_only_at_the_end demo_process (Float (Fin 10)) (Fin 0)).
  vm_compute. reflexivity.
Defined.







(** ** The geometry step: placement on the canvas and the two other branches *)

Lemma plan_canvas_inv cw ch b w h :
  plan_canvas cw ch b = Ok (w, h) -> cw + b * 2 <= w /\ exists r, h = r * 4.
Proof.
  unfold plan_canvas. intros E.
  apply bind_Ok in E. destruct E as (t & _ & E).
  apply bind_Ok in E. destruct E as (q & _ & E).
  apply bind_Ok in E. destruct E as (r & _ & E).
  destruct (Z.ltb_spec (r * 4 / 4 * 3) (cw + b * 2)) as [L|L].
  - apply bind_Ok in E. destruct E as (w' & _ & E).
    apply bind_Ok in E. destruct E as (q' & _ & E).
    apply bind_Ok in E. destruct E as (r' & _ & E).
    injection E as <- <-. split; [lia | eauto].
  - injection E as <- <-. split; [lia | eauto].
Qed.

(** X6. In every plan the geometry step returns, the border is at least one
    pixel, the canvas is at least as wide as the clip with its border, the
    bordered clip is placed at the top and exactly centred horizontally (the
    left and right margins are equal and not negative), and the canvas height
    is a multiple of 4. *)
Theorem bordered_clip_centred_on_canvas W H g :
  plan_geometry W H = Ok g ->
  1 <= border_size g /\
  crop_width g + 2 * border_size g <= canvas_width g /\
  0 <= paste_x g /\
  paste_x g = canvas_width g - (crop_width g + 2 * border_size g) - paste_x g /\
  paste_y g = 0 /\
  canvas_height g mod 4 = 0.
Proof.
  intros E. apply plan_geometry_inv in E.
  destruct E as (cw0 & ch0 & cx & cy & rad & r & w & h & _ & _ & Ec & ->).
  apply plan_canvas_inv in Ec. destruct Ec as (Lw & k & ->). simpl_plan.
  set (b := Z.max 1 r) in *. set (cw := force_even cw0) in *.
  assert (B1 : 1 <= b) by (unfold b; lia).
  assert (Ecw : Z.even cw = true) by apply force_even_even.
  assert (Ew : Z.even (force_even w) = true) by apply force_even_even.
  pose proof (force_even_ge w) as Gw. pose proof (force_even_le w) as Lw'.
  apply Z.even_spec in Ecw, Ew. destruct Ecw as [c Hc], Ew as [v Hv].
  assert (Fh : force_even (k * 4) = k * 4).
  { apply force_even_id. rewrite Z.even_mul. cbn. apply Bool.orb_true_r. }
  rewrite Fh, Hc, Hv in *.
  replace (2 * v - (2 * c + b * 2)) with ((v - c - b) * 2) by lia.
  rewrite Z.div_mul by lia.
  repeat split; try lia. apply Z.mod_mul. lia.
Qed.

Lemma bordered_clip_centred_on_canvas_witness :
  exists g, plan_geometry 800 400 = Ok g /\
    1 <= border_size g /\
    crop_width g + 2 * border_size g <= canvas_width g /\
    0 <= paste_x g /\
    paste_x g = canvas_width g - (crop_width g + 2 * border_size g) - paste_x g /\
    paste_y g = 0 /\
    canvas_height g mod 4 = 0.
Proof.
  eexists. split; [vm_compute; reflexivity|].
  apply (bordered_clip_centred_on_canvas 800 400). vm_compute. reflexivity.
Defined.

Lemma rne_0_76 : rne (76 # 100) = 3422735716801577 # 4503599627370496.
Proof. vm_compute. reflexivity. Qed.

(** At a ratio of 0.76 or more the tolerance test fails and the ratio test
    selects the branch for wider input. *)
Lemma wider_branch W H :
  0 < W -> 0 < H -> 76 * H <= 100 * W ->
  let r := rne (inject_Z W / inject_Z H) in
  flt (fabs (fsub (Fin r) (Fin (3 # 4)))) (float_lit (1 # 100)) = false /\
  fgt (Fin r) (Fin (3 # 4)) = true.
Proof.
  intros HW HH L r.
  pose proof (inject_Z_pos W HW) as Wq. pose proof (inject_Z_pos H HH) as Hq.
  to_Q L.
  assert (X : (76 # 100 <= inject_Z W / inject_Z H)%Q).
  { apply Qle_shift_div_l; [assumption | lra]. }
  assert (R1 : (3422735716801577 # 4503599627370496 <= r)%Q).
  { rewrite <- rne_0_76. apply rne_mono. assumption. }
  set (b := (3422735716801577 # 4503599627370496)%Q) in *.
  assert (Fd : (rne (b - (3 # 4)) == b - (3 # 4))%Q).
  { apply (rne_fix _ 90071992547410 (-53)); [vm_compute; reflexivity | simpl; lia | lia]. }
  assert (D : (b - (3 # 4) <= rne (r - (3 # 4)))%Q).
  { rewrite <- Fd. apply rne_mono. lra. }
  split.
  - cbn [fsub]. unfold round_float. set (y := rne (r - (3 # 4))) in *.
    assert (Y : (0 <= y)%Q) by (unfold b in D; lra).
    destruct (overflows y).
    + unfold is_neg. apply Qle_bool_iff in Y. rewrite Y. reflexivity.
    + cbn [fabs]. rewrite float_lit_0_01. apply flt_Fin_false.
      rewrite Qabs_pos by assumption. unfold b in D. lra.
  - unfold fgt. apply flt_Fin. unfold b in R1. lra.
Qed.

(** Below 2^51 the float computation [int(H * 0.75)] is the integer quotient 3H/4. *)
Lemma crop_width_exact H :
  0 < H < 2 ^ 51 ->
  exists x, int_mul_float H (Fin (3 # 4)) = Ok x /\ py_int x = Ok (3 * H / 4).
Proof.
  intros HH. unfold int_mul_float. rewrite float_of_int_small by lia.
  cbn [bind fmul].
  pose proof (inject_Z_pos H (proj1 HH)) as Hq.
  assert (H1 : (inject_Z H < pow2 51)%Q) by (apply pow2_Zlt; lia).
  assert (P51 : (pow2 51 == 2251799813685248)%Q) by (vm_compute; reflexivity).
  assert (P52 : (pow2 52 == 4503599627370496)%Q) by (vm_compute; reflexivity).
  assert (Eh : (rne (inject_Z H) == inject_Z H)%Q) by (apply rne_Z; lia).
  assert (A : (Qabs (rne (inject_Z H) * (3 # 4)) <= pow2 52)%Q).
  { rewrite Eh, Qabs_pos; lra. }
  rewrite (round_float_small _ 52); [| assumption | lia].
  eexists. split; [reflexivity|]. cbn [py_int]. f_equal.
  assert (P2 : (pow2 (-2) == 1 # 4)%Q) by (vm_compute; reflexivity).
  assert (Ev : (rne (rne (inject_Z H) * (3 # 4)) == rne (inject_Z H) * (3 # 4))%Q).
  { apply (rne_fix _ (3 * H) (-2)).
    - rewrite Eh, inject_Z_mult, P2. change (inject_Z 3) with 3%Q. ring.
    - change (2 ^ 53) with (4 * 2 ^ 51). lia.
    - lia. }
  set (v := rne (rne (inject_Z H) * (3 # 4))) in *.
  rewrite Eh in Ev.
  assert (V0 : (0 <= v)%Q) by lra.
  rewrite trunc_nonneg by assumption.
  set (k := 3 * H / 4).
  assert (Hk : 4 * k <= 3 * H <= 4 * k + 3).
  { pose proof (Z.div_mod (3 * H) 4 ltac:(lia)) as D.
    pose proof (Z.mod_pos_bound (3 * H) 4 ltac:(lia)) as B. fold k in D. lia. }
  destruct Hk as [K1 K2]. to_Q K1. to_Q K2.
  apply Qfloor_unique; lra.
Qed.

(** X7. For every input at least 0.01 wider than the 3:4 target
    (W/H >= 0.76) a returned plan keeps the height (made even), crops the
    width to [int(H * 0.75)] made even, which below 2^51 is the integer
    quotient 3H/4 made even, and centres the crop horizontally: the margin
    left of the crop and the margin right of it differ by at most two
    pixels, the right one being the larger. *)
Theorem wider_input_centred :
  forall W H g,
    0 < W -> 0 < H -> 76 * H <= 100 * W -> plan_geometry W H = Ok g ->
    crop_height g = force_even H /\ crop_y g = 0 /\
    (exists x w, int_mul_float H (Fin (3 # 4)) = Ok x /\ py_int x = Ok w /\
                 crop_width g = force_even w /\ crop_x g = (W - w) / 2) /\
    crop_x g <= W - crop_x g - crop_width g <= crop_x g + 2 /\
    (H < 2 ^ 51 -> crop_width g = force_even (3 * H / 4)).
Proof.
  intros W H g HW HH L E. apply plan_geometry_inv in E.
  destruct E as (cw0 & ch0 & cx & cy & rad & r & w & h & Ec & _ & _ & ->).
  unfold plan_crop in Ec. rewrite target_ratio_exact in Ec. cbn [bind] in Ec.
  apply bind_Ok in Ec. destruct Ec as (vr & Er & Ec).
  apply int_truediv_inv in Er. destruct Er as [_ ->].
  destruct (wider_branch W H HW HH L) as [T1 T2]. cbv zeta in T1, T2.
  rewrite T1, T2 in Ec.
  apply bind_Ok in Ec. destruct Ec as (x & Ex & Ec).
  apply bind_Ok in Ec. destruct Ec as (c & Ec & E).
  injection E as <- <- <- <-. simpl_plan.
  split; [reflexivity|]. split; [reflexivity|].
  split; [exists x, c; auto|]. split.
  - pose proof (force_even_le c). pose proof (force_even_ge c).
    pose proof (Z.div_mod (W - c) 2 ltac:(lia)) as D.
    pose proof (Z.mod_pos_bound (W - c) 2 ltac:(lia)) as B. lia.
  - intros B. destruct (crop_width_exact H ltac:(lia)) as (x' & Ex' & Ec').
    rewrite Ex in Ex'. injection Ex' as <-. rewrite Ec in Ec'. congruence.
Qed.

Lemma wider_input_centred_witness :
  exists g, plan_geometry 1920 1080 = Ok g /\
    crop_height g = force_even 1080 /\ crop_y g = 0 /\
    (exists x w, int_mul_float 1080 (Fin (3 # 4)) = Ok x /\ py_int x = Ok w /\
                 crop_width g = force_even w /\ crop_x g = (1920 - w) / 2) /\
    crop_x g <= 1920 - crop_x g - crop_width g <= crop_x g + 2 /\
    (1080 < 2 ^ 51 -> crop_width g = force_even (3 * 1080 / 4)).
Proof.
  eexists. split; [vm_compute; reflexivity|].
  apply (wider_input_centred 1920 1080); [lia | lia | lia | vm_compute; reflexivity].
Defined.

(** For dimensions below 2^46 a ratio strictly between 0.74 and 0.76 passes
    the tolerance test: the quotient is at least one unit in the last place
    away from the two values where the test changes. *)
Lemma near_branch W H :
  0 < W -> 0 < H < 2 ^ 46 -> 74 * H < 100 * W < 76 * H ->
  flt (fabs (fsub (Fin (rne (inject_Z W / inject_Z H))) (Fin (3 # 4)))) (float_lit (1 # 100))
  = true.
Proof.
  intros HW HH [L1 L2].
  pose proof (inject_Z_pos H (proj1 HH)) as Hq.
  set (lo := (6665327448508335 # 9007199254740992)%Q).
  set (hi := (6845471433603153 # 9007199254740992)%Q).
  assert (A1 : 6665327448508335 * H <= 9007199254740992 * W) by lia.
  assert (A2 : 9007199254740992 * W <= 6845471433603153 * H) by lia.
  to_Q A1. to_Q A2.
  assert (X1 : (lo <= inject_Z W / inject_Z H)%Q).
  { apply Qle_shift_div_l; [assumption | unfold lo; lra]. }
  assert (X2 : (inject_Z W / inject_Z H <= hi)%Q).
  { apply Qle_shift_div_r; [assumption | unfold hi; lra]. }
  set (r := rne (inject_Z W / inject_Z H)) in *.
  assert (Flo : (rne lo == lo)%Q).
  { apply (rne_fix _ 6665327448508335 (-53)); [vm_compute; reflexivity | simpl; lia | lia]. }
  assert (Fhi : (rne hi == hi)%Q).
  { apply (rne_fix _ 6845471433603153 (-53)); [vm_compute; reflexivity | simpl; lia | lia]. }
  assert (R1 : (lo <= r)%Q) by (rewrite <- Flo; apply rne_mono; assumption).
  assert (R2 : (r <= hi)%Q) by (rewrite <- Fhi; apply rne_mono; assumption).
  assert (Dlo : (rne (lo - (3 # 4)) == lo - (3 # 4))%Q).
  { apply (rne_fix _ (-90071992547409) (-53)); [vm_compute; reflexivity | simpl; lia | lia]. }
  assert (Dhi : (rne (hi - (3 # 4)) == hi - (3 # 4))%Q).
  { apply (rne_fix _ 90071992547409 (-53)); [vm_compute; reflexivity | simpl; lia | lia]. }
  assert (D1 : (lo - (3 # 4) <= rne (r - (3 # 4)))%Q) by (rewrite <- Dlo; apply rne_mono; lra).
  assert (D2 : (rne (r - (3 # 4)) <= hi - (3 # 4))%Q) by (rewrite <- Dhi; apply rne_mono; lra).
  cbn [fsub]. rewrite (round_float_small _ 0); [| | lia].
  2:{ change (pow2 0) with 1%Q. apply Qabs_Qle_condition. unfold lo, hi in *. split; lra. }
  cbn [fabs]. rewrite float_lit_0_01. apply flt_Fin.
  unfold lo, hi in *. apply Qabs_case; intros; lra.
Qed.

(** X8. An input whose ratio W/H lies strictly between 0.74 and 0.76 (the
    3:4 target with the tolerance 0.01 of the source), with a height below
    2^46, is not cropped: a returned plan keeps the whole frame, each
    dimension made even, with both crop offsets 0. *)
Theorem near_target_input_not_cropped W H g :
  0 < W -> 0 < H < 2 ^ 46 -> 74 * H < 100 * W < 76 * H ->
  plan_geometry W H = Ok g ->
  crop_width g = force_even W /\ crop_height g = force_even H /\
  crop_x g = 0 /\ crop_y g = 0.
Proof.
  intros HW HH L E. apply plan_geometry_inv in E.
  destruct E as (cw0 & ch0 & cx & cy & rad & r & w & h & Ec & _ & _ & ->).
  unfold plan_crop in Ec. rewrite target_ratio_exact in Ec. cbn [bind] in Ec.
  apply bind_Ok in Ec. destruct Ec as (vr & Er & Ec).
  apply int_truediv_inv in Er. destruct Er as [_ ->].
  rewrite (near_branch W H HW HH L) in Ec.
  injection Ec as <- <- <- <-. simpl_plan. auto.
Qed.

Lemma near_target_input_not_cropped_witness :
  exists g, plan_geometry 1080 1440 = Ok g /\
    crop_width g = force_even 1080 /\ crop_height g = force_even 1440 /\
    crop_x g = 0 /\ crop_y g = 0.
Proof.
  eexists. split; [vm_compute; reflexivity|].
  apply (near_target_input_not_cropped 1080 1440); [lia | lia | lia | vm_compute; reflexivity].
Defined.

(** ** Capability detection and the choice of the encoder *)

(** X9. Whatever the host and whatever ffmpeg answers, a snapshot that the
    capability probe returns for a freshly detected system reports
    VideoToolbox exactly when its encoder list is not empty, and lists an
    encoder only on macOS, only after [ffmpeg -encoders] exited with 0, and
    only if it is one of the three VideoToolbox encoders and its name occurs
    in what ffmpeg printed; the other fields are those of [detect_system]. *)
Theorem hardware_snapshot_is_consistent platform_system platform_machine platform_processor w s :
  fst (check_hardware_encoders
         (detect_system platform_system platform_machine platform_processor) w) = Ok s ->
  (has_videotoolbox s = true <-> available_hw_encoders s <> []) /\
  (forall enc, In enc (available_hw_encoders s) ->
     is_macos s = true /\ In enc videotoolbox_encoders /\
     exists out err effect rest,
       runs w = Completed 0 out err effect :: rest /\ contains enc out = true) /\
  platform s = platform_system /\ machine s = platform_machine /\
  processor s = platform_processor /\
  is_macos s = String.eqb platform_system "Darwin" /\
  is_apple_silicon s
  = String.eqb platform_system "Darwin" && String.eqb platform_machine "arm64".
Proof.
  unfold check_hardware_encoders, detect_system.
  cbn [is_macos platform machine processor is_apple_silicon].
  destruct (String.eqb platform_system "Darwin") eqn:M; cbn [negb].
  - unfold run_ffmpeg, bindIO, record.
    cbn [files tmpdirs fresh_names probes runs children faults clock log].
    destruct (runs w) as [|[|code out err effect] rest] eqn:R; cbn [fst]; try discriminate.
    destruct (Z.eqb_spec code 0) as [->|N]; cbn [negb fst with_files ret].
    + intros [= <-].
      cbn [has_videotoolbox available_hw_encoders is_macos platform machine processor
           is_apple_silicon].
      split; [|split; [|repeat split; reflexivity]].
      * destruct (contains "h264_videotoolbox" out), (contains "hevc_videotoolbox" out),
          (contains "prores_videotoolbox" out); cbn; split; congruence.
      * intros enc I. split; [reflexivity|].
        destruct (contains "h264_videotoolbox" out) eqn:C1,
                 (contains "hevc_videotoolbox" out) eqn:C2,
                 (contains "prores_videotoolbox" out) eqn:C3;
          cbn in I;
          repeat match goal with
                 | I : _ \/ _ |- _ => destruct I as [<-|I]
                 | I : False |- _ => destruct I
                 end;
          (split; [cbn; tauto | exists out, err, effect, rest; split; [reflexivity | assumption]]).
    + intros [= <-]. cbn. repeat split; try congruence; tauto.
  - cbn. intros [= <-]. cbn. repeat split; try congruence; tauto.
Qed.

Lemma hardware_snapshot_is_consistent_witness :
  exists s,
    fst (check_hardware_encoders (detect_system "Darwin" "arm64" "arm")
           world_with_videotoolbox) = Ok s /\
    available_hw_encoders s = ["h264_videotoolbox"; "hevc_videotoolbox"] /\
    (has_videotoolbox s = true <-> available_hw_encoders s <> []) /\
    (forall enc, In enc (available_hw_encoders s) ->
       is_macos s = true /\ In enc videotoolbox_encoders /\
       exists out err effect rest,
         runs world_with_videotoolbox = Completed 0 out err effect :: rest /\
         contains enc out = true) /\
    platform s = "Darwin" /\ machine s = "arm64" /\ processor s = "arm" /\
    is_macos s = String.eqb "Darwin" "Darwin" /\
    is_apple_silicon s = String.eqb "Darwin" "Darwin" && String.eqb "arm64" "arm64".
Proof.
  eexists. split; [vm_compute; reflexivity|]. split; [reflexivity|].
  apply (hardware_snapshot_is_consistent "Darwin" "arm64" "arm" world_with_videotoolbox).
  vm_compute. reflexivity.
Defined.

Lemma existsb_eqb_In name l : existsb (String.eqb name) l = true -> In name l.
Proof.
  intros E. apply existsb_exists in E. destruct E as (x & I & E).
  apply String.eqb_eq in E. subst x. exact I.
Qed.

(** X10. The codec settings always name the encoder first ([-c:v]) and end
    with the fast-start flags.  A VideoToolbox encoder is chosen only on
    Apple Silicon with VideoToolbox reported, only if the snapshot lists that
    encoder, and only for the codec it implements; with no VideoToolbox
    reported the encoder is libx264 for h264, libx265 for h265 and the codec
    name itself otherwise. *)
Theorem encoder_choice system_info output_codec :
  exists enc opts,
    get_optimal_codec_settings system_info output_codec
    = (("-c:v" :: enc :: opts) ++ ["-movflags"; "+faststart"])%list /\
    (In enc videotoolbox_encoders -> enc <> output_codec ->
       is_apple_silicon system_info = true /\ has_videotoolbox system_info = true /\
       In enc (available_hw_encoders system_info) /\
       (enc = "h264_videotoolbox" /\ output_codec = "h264" \/
        enc = "hevc_videotoolbox" /\ output_codec = "h265" \/
        enc = "prores_videotoolbox" /\ output_codec = "prores")) /\
    (has_videotoolbox system_info = false ->
       enc = if String.eqb output_codec "h264" then "libx264"
             else if String.eqb output_codec "h265" then "libx265"
             else output_codec).
Proof.
  unfold get_optimal_codec_settings.
  destruct (is_apple_silicon system_info) eqn:A, (has_videotoolbox system_info) eqn:V;
    cbn [andb].
  2-4: destruct (String.eqb_spec output_codec "h264") as [->|N1];
       [|destruct (String.eqb_spec output_codec "h265") as [->|N2]];
       (eexists _, _; split; [reflexivity|]);
       (split; [|try discriminate; intros _; reflexivity]);
       intros I D; cbn in I;
       repeat match goal with
              | I : _ \/ _ |- _ => destruct I as [I|I]
              | I : False |- _ => destruct I
              end; try discriminate; congruence.
  destruct (String.eqb_spec output_codec "h264") as [->|N1]; cbn [andb].
  - destruct (existsb _ _) eqn:E1.
    + eexists _, _. split; [reflexivity|]. split; [|discriminate].
      intros _ _. apply existsb_eqb_In in E1. repeat split; auto 10.
    + cbn -[app]. eexists _, _. split; [reflexivity|]. split; [|discriminate].
      intros I D. cbn in I.
      repeat match goal with
             | I : _ \/ _ |- _ => destruct I as [I|I]
             | I : False |- _ => destruct I
             end; discriminate.
  - destruct (String.eqb_spec output_codec "h265") as [->|N2]; cbn [andb].
    + destruct (existsb _ _) eqn:E1.
      * eexists _, _. split; [reflexivity|]. split; [|discriminate].
        intros _ _. apply existsb_eqb_In in E1. repeat split; auto 10.
      * cbn -[app]. eexists _, _. split; [reflexivity|]. split; [|discriminate].
        intros I D. cbn in I.
        repeat match goal with
               | I : _ \/ _ |- _ => destruct I as [I|I]
               | I : False |- _ => destruct I
               end; discriminate.
    + destruct (String.eqb_spec output_codec "prores") as [->|N3]; cbn [andb].
      * destruct (existsb _ _) eqn:E1.
        -- eexists _, _. split; [reflexivity|]. split; [|discriminate].
           intros _ _. apply existsb_eqb_In in E1. repeat split; auto 10.
        -- cbn -[app]. eexists _, _. split; [reflexivity|]. split; [|discriminate].
           intros I D. congruence.
      * destruct (String.eqb_spec output_codec "x264") as [->|N4];
          [|destruct (String.eqb_spec output_codec "x265") as [->|N5]]; cbn [orb];
          (eexists _, _; split; [reflexivity|]);
          (split; [|discriminate]); intros I D; cbn in I;
          repeat match goal with
                 | I : _ \/ _ |- _ => destruct I as [I|I]
                 | I : False |- _ => destruct I
                 end; try discriminate; congruence.
Qed.

(** ** Processing one file: what is run *)

Lemma emits_except_quiet {A} (c : IO A) (h : exn -> IO A) (S : list event -> Prop) :
  emits c S -> (forall e, quiet (h e)) -> emits (except_Exception c h) S.
Proof.
  intros Ec Qh w. unfold except_Exception. destruct (Ec w) as (l & El & Sl).
  destruct (c w) as [[a|e] w1]; cbn [snd] in *; [eauto|].
  destruct (is_Exception e); [|eauto].
  exists l. rewrite Qh. auto.
Qed.

Lemma log_except_ret {A} (c : IO A) (x : A) w :
  log (snd (except_Exception c (fun _ => ret x) w)) = log (snd (c w)).
Proof.
  unfold except_Exception. destruct (c w) as [[a|e] w1]; [reflexivity|].
  destruct (is_Exception e); reflexivity.
Qed.

Lemma log_bind_Ok {A B} (c : IO A) (k : A -> IO B) w a w1 :
  c w = (Ok a, w1) -> log (snd (bindIO c k w)) = log (snd (k a w1)).
Proof. intros E. unfold bindIO. rewrite E. reflexivity. Qed.

Lemma log_bind_Raise {A B} (c : IO A) (k : A -> IO B) w e w1 :
  c w = (Raise e, w1) -> log (snd (bindIO c k w)) = log w1.
Proof. intros E. unfold bindIO. rewrite E. reflexivity. Qed.

Lemma nth_tl (l : list bool) k : nth k (tl l) false = nth (S k) l false.
Proof. destruct l; [destruct k|]; reflexivity. Qed.

Lemma fallible_run w :
  fallible w
  = (if nth 0 (faults w) false then Raise OtherError else Ok tt,
     {| files := files w; tmpdirs := tmpdirs w; fresh_names := fresh_names w;
        probes := probes w; runs := runs w; children := children w;
        faults := tl (faults w); clock := clock w; log := log w |}).
Proof. unfold fallible. destruct (faults w) as [|[|] fs]; reflexivity. Qed.

(** [mkdtemp] and [save_image], by what the next pending fault says. *)
Lemma mkdtemp_Ok w name rest :
  nth 0 (faults w) false = false -> fresh_names w = name :: rest ->
  exists w1, mkdtemp w = (Ok name, w1) /\ log w1 = log w /\ faults w1 = tl (faults w) /\
             clock w1 = clock w /\ lookup name (tmpdirs w1) = Some [].
Proof.
  intros F N. unfold mkdtemp, bindIO. rewrite fallible_run, F.
  cbn [files tmpdirs fresh_names probes runs children faults clock log]. rewrite N.
  eexists. split; [reflexivity|]. cbn. rewrite String.eqb_refl. auto.
Qed.

Lemma mkdtemp_Raise w :
  nth 0 (faults w) false = true \/ fresh_names w = [] ->
  exists e w1, mkdtemp w = (Raise e, w1) /\ log w1 = log w.
Proof.
  intros H. unfold mkdtemp, bindIO. rewrite fallible_run.
  destruct (nth 0 (faults w) false).
  - eexists _, _. split; reflexivity.
  - destruct H as [H|H]; [discriminate|].
    cbn [files tmpdirs fresh_names probes runs children faults clock log]. rewrite H.
    eexists _, _. split; reflexivity.
Qed.

Lemma save_image_Ok w dir name names :
  nth 0 (faults w) false = false -> lookup dir (tmpdirs w) = Some names ->
  exists w1, save_image dir name w = (Ok tt, w1) /\ log w1 = log w /\
             faults w1 = tl (faults w) /\ clock w1 = clock w /\
             lookup dir (tmpdirs w1) = Some (name :: names).
Proof.
  intros F L. unfold save_image, bindIO. rewrite fallible_run, F.
  cbn [files tmpdirs fresh_names probes runs children faults clock log]. rewrite L.
  eexists. split; [reflexivity|]. cbn. rewrite String.eqb_refl. auto.
Qed.

Lemma save_image_Raise w dir name :
  nth 0 (faults w) false = true ->
  exists e w1, save_image dir name w = (Raise e, w1) /\ log w1 = log w.
Proof.
  intros F. unfold save_image, bindIO. rewrite fallible_run, F.
  eexists _, _. split; reflexivity.
Qed.

Lemma process_file_log output_folder output_codec output_format system_info
      max_output_size_mb filename video_path w :
  exists l,
    log (snd (process_file output_folder output_codec output_format system_info
                           max_output_size_mb filename video_path w)) = (log w ++ l)%list /\
    file_log output_folder output_codec output_format system_info
             max_output_size_mb filename video_path w l.
Proof.
  assert (Nothing : forall x : list event, x = log w -> exists l, x = (log w ++ l)%list /\ l = []).
  { intros x ->. exists []. rewrite app_nil_r. auto. }
  unfold process_file. rewrite log_except_ret. cbv zeta.
  unfold file_log, planned_encode, probed_duration.
  unfold bindIO at 1. unfold get_video_info.
  destruct (probes w) as [|[video_info|] ps] eqn:Pw;
    [apply Nothing; reflexivity | | destruct (fresh_names w); apply Nothing; reflexivity].
  set (w1 := {| files := files w; tmpdirs := tmpdirs w; fresh_names := fresh_names w;
                probes := tl (Some video_info :: ps); runs := runs w;
                children := children w; faults := faults w; clock := clock w;
                log := log w |}).
  assert (L1 : log w1 = log w) by reflexivity.
  assert (F1 : faults w1 = faults w) by reflexivity.
  assert (N1 : fresh_names w1 = fresh_names w) by reflexivity.
  clearbody w1.
  unfold bindIO at 1, lift at 1.
  destruct (plan_geometry (width video_info) (height video_info)) as [plan|e] eqn:Ep.
  2:{ destruct (fresh_names w); apply Nothing; exact L1. }
  destruct (fresh_names w) as [|tmpdir names] eqn:Fn.
  { destruct (mkdtemp_Raise w1 (or_intror N1)) as (e & w2 & M & L2).
    rewrite (log_bind_Raise _ _ _ _ _ M). apply Nothing. congruence. }
  destruct (nth 0 (faults w) false) eqn:F0; cbn [orb].
  { destruct (mkdtemp_Raise w1 (or_introl (eq_trans (f_equal (fun l => nth 0 l false) F1) F0)))
      as (e & w2 & M & L2).
    rewrite (log_bind_Raise _ _ _ _ _ M). apply Nothing. congruence. }
  destruct (mkdtemp_Ok w1 tmpdir names) as (w2 & M & L2 & F2 & C2 & D2); [congruence..|].
  rewrite (log_bind_Ok _ _ _ _ _ M).
  assert (G1 : nth 0 (faults w2) false = nth 1 (faults w) false)
    by (rewrite F2, nth_tl, F1; reflexivity).
  destruct (nth 1 (faults w) false) eqn:Fa; cbn [orb].
  { destruct (save_image_Raise w2 tmpdir (splitext_root filename ++ "_mask.png") G1)
      as (e & w3 & S & L3).
    rewrite (log_bind_Raise _ _ _ _ _ S). apply Nothing. congruence. }
  destruct (save_image_Ok w2 tmpdir (splitext_root filename ++ "_mask.png") [] G1 D2)
    as (w3 & S3 & L3 & F3 & C3 & D3).
  rewrite (log_bind_Ok _ _ _ _ _ S3).
  assert (G2 : nth 0 (faults w3) false = nth 2 (faults w) false)
    by (rewrite F3, nth_tl, F2, nth_tl, F1; reflexivity).
  destruct (nth 2 (faults w) false) eqn:Fb.
  { destruct (save_image_Raise w3 tmpdir (splitext_root filename ++ "_border.png") G2)
      as (e & w4 & S & L4).
    rewrite (log_bind_Raise _ _ _ _ _ S). apply Nothing. congruence. }
  destruct (save_image_Ok w3 tmpdir (splitext_root filename ++ "_border.png") _ G2 D3)
    as (w4 & S4 & L4 & F4 & C4 & D4).
  rewrite (log_bind_Ok _ _ _ _ _ S4).
  unfold bindIO at 1, lift at 1.
  destruct (if num_gt (Float (duration video_info)) (Int 0)
            then format_time (Float (duration video_info)) else Ok "Unknown")
    as [text|e] eqn:Et.
  2:{ apply Nothing. cbn [snd]. congruence. }
  unfold bindIO at 1, time at 1. fold (exceeds_hw_limits plan).
  match goal with
  | |- context [except_Exception (bindIO (spawn_with_progress ?cmd ?d ?st) ?k) ?h w4] =>
      assert (EM : emits (except_Exception (bindIO (spawn_with_progress cmd d st) k) h)
                     (fun l => exists rest,
                        l = Spawned cmd :: rest /\
                        enforcement_log d max_output_size_mb rest))
  end.
  { apply emits_except_quiet; [|intros; auto with quiet].
    eapply (emits_bind _ _ _ (enforcement_log (Float (duration video_info))
                                              max_output_size_mb));
      [apply emits_spawn | intros [success stderr_lines] | | ].
    - apply emits_bind_quiet; [auto with quiet | left; reflexivity | intros _].
      apply emits_if; [|apply quiet_emits; [auto with quiet | left; reflexivity]].
      apply emits_bind_quiet; [auto with quiet | left; reflexivity | intros end_time].
      apply emits_bind_lift; [left; reflexivity | intros processing_time _].
      apply emits_bind_lift; [left; reflexivity | intros processing_text _].
      eapply (emits_bind _ _ _ (eq []));
        [apply emits_enforce_size_limit | intros size_ok | | ].
      + apply quiet_emits; [|reflexivity]. destruct size_ok; auto with quiet.
      + auto.
      + intros l1 l2 E <-. rewrite app_nil_r. exact E.
    - intros l1 <-. exists []. split; [reflexivity | left; reflexivity].
    - intros l1 l2 <- E. exists l2. auto. }
  destruct (EM w4) as (l & El & rest & -> & En).
  eexists. split; [rewrite El, L4, L3, L2, L1; reflexivity|].
  exists rest. split; [reflexivity | exact En].
Qed.

(** The encode that is started is the one built from the first probe, the
    plan for its dimensions and the directory that [mkdtemp] hands out. *)
Lemma planned_encode_Some output_folder output_codec output_format system_info
      filename video_path w cmd :
  planned_encode output_folder output_codec output_format system_info
                 filename video_path w = Some cmd ->
  exists video_info tmpdir plan effective,
    hd_error (probes w) = Some (Some video_info) /\
    hd_error (fresh_names w) = Some tmpdir /\
    plan_geometry (width video_info) (height video_info) = Ok plan /\
    has_videotoolbox effective
    = (if exceeds_hw_limits plan then false else has_videotoolbox system_info) /\
    cmd = Encode video_path
                 (path_join tmpdir (splitext_root filename ++ "_mask.png"))
                 (path_join tmpdir (splitext_root filename ++ "_border.png"))
                 (path_join output_folder (splitext_root filename ++ "." ++ output_format))
                 plan
                 (if num_gt (Float (duration video_info)) (Int 0)
                  then Some (Float (duration video_info)) else None)
                 (get_optimal_codec_settings effective output_codec).
Proof.
  unfold planned_encode.
  destruct (probes w) as [|[video_info|] ps]; try discriminate.
  destruct (fresh_names w) as [|tmpdir names]; try discriminate.
  destruct (plan_geometry _ _) as [plan|e] eqn:Ep; [|discriminate]. cbv zeta.
  destruct (_ || _); [discriminate|].
  destruct (if num_gt _ _ then _ else _); [|discriminate].
  intros [= <-]. exists video_info, tmpdir, plan. eexists.
  repeat split; try reflexivity; try exact Ep.
  destruct (exceeds_hw_limits plan); reflexivity.
Qed.




Lemma encoder_runs_no_encode duration target_size_mb cmds v m b o plan lim cs :
  encoder_runs duration target_size_mb cmds ->
  ~ In (Spawned (Encode v m b o plan lim cs)) cmds.
Proof.
  intros [_ C] I. destruct (C _ I) as (kbps & bitrate & _ & _ & F). exact F.
Qed.

Lemma enforcement_log_no_encode duration target_size_mb l v m b o plan lim cs :
  enforcement_log duration target_size_mb l ->
  ~ In (Spawned (Encode v m b o plan lim cs)) l.
Proof.
  intros [-> | [(cmds & -> & C) | (reduced & cmds1 & cmds2 & _ & -> & C1 & C2)]] I.
  - exact I.
  - destruct I as [I|I]; [discriminate|].
    exact (encoder_runs_no_encode _ _ _ _ _ _ _ _ _ _ C I).
  - destruct I as [I|I]; [discriminate|]. apply in_app_or in I.
    destruct I as [I|[I|I]];
      [ exact (encoder_runs_no_encode _ _ _ _ _ _ _ _ _ _ C1 I)
      | discriminate
      | exact (encoder_runs_no_encode _ _ _ _ _ _ _ _ _ _ C2 I) ].
Qed.



(** An encode in what the processing of one file has appended to the log is
    the planned one. *)
Lemma encode_in_file_log output_folder output_codec output_format system_info
      max_output_size_mb filename video_path w v m b o plan lim cs :
  In (Spawned (Encode v m b o plan lim cs))
     (skipn (List.length (log w))
            (log (snd (process_file output_folder output_codec output_format system_info
                                    max_output_size_mb filename video_path w)))) ->
  planned_encode output_folder output_codec output_format system_info
                 filename video_path w = Some (Encode v m b o plan lim cs).
Proof.
  intros I.
  destruct (process_file_log output_folder output_codec output_format system_info
              max_output_size_mb filename video_path w) as (l & El & Sl).
  rewrite El, skipn_app, skipn_all, Nat.sub_diag in I. cbn [app skipn] in I.
  unfold file_log in Sl. destruct (planned_encode _ _ _ _ _ _ _) as [cmd|].
  - destruct Sl as (rest & -> & E). destruct I as [I|I].
    + congruence.
    + exfalso. eapply enforcement_log_no_encode; eassumption.
  - subst l. destruct I.
Qed.



Lemma software_settings effective output_codec :
  has_videotoolbox effective = false ->
  exists opts,
    get_optimal_codec_settings effective output_codec
    = (("-c:v" :: (if String.eqb output_codec "h264" then "libx264"
                   else if String.eqb output_codec "h265" then "libx265"
                   else output_codec) :: opts) ++ ["-movflags"; "+faststart"])%list.
Proof.
  intros V. unfold get_optimal_codec_settings. rewrite V, Bool.andb_false_r.
  destruct (String.eqb output_codec "h264"); [eexists; reflexivity|].
  destruct (String.eqb output_codec "h265"); eexists; reflexivity.
Qed.

(** X12. The encode of a file whose canvas is wider than 4096 or taller
    than 2304 pixels never uses a VideoToolbox encoder, whatever the host
    reports: its settings are the software ones (libx264 for h264, libx265
    for h265, else the codec name as given). *)
Theorem software_encoder_beyond_hw_limits output_folder output_codec output_format
        system_info max_output_size_mb filename video_path w :
  forall v m b o plan lim cs,
    In (Spawned (Encode v m b o plan lim cs))
       (skipn (List.length (log w))
              (log (snd (process_file output_folder output_codec output_format system_info
                                      max_output_size_mb filename video_path w)))) ->
    exceeds_hw_limits plan = true ->
    exists opts,
      cs = (("-c:v" :: (if String.eqb output_codec "h264" then "libx264"
                        else if String.eqb output_codec "h265" then "libx265"
                        else output_codec) :: opts) ++ ["-movflags"; "+faststart"])%list.
Proof.
  intros v m b o plan lim cs I X.
  apply encode_in_file_log in I. apply planned_encode_Some in I.
  destruct I as (info & tmpdir & plan' & eff & _ & _ & _ & V & I).
  injection I as _ _ _ _ <- _ ->. rewrite X in V.
  apply software_settings. exact V.
Qed.

Lemma software_encoder_beyond_hw_limits_witness :
  exists v m b o plan lim cs,
    In (Spawned (Encode v m b o plan lim cs))
       (skipn (List.length (log world_8k))
              (log (snd (process_file "out" "h264" "mp4" videotoolbox_host (Int 10)
                                      "clip.mov" "in/clip.mov" world_8k)))) /\
    exceeds_hw_limits plan = true /\
    exists opts, cs = (("-c:v" :: "libx264" :: opts) ++ ["-movflags"; "+faststart"])%list.
Proof.
  eexists _, _, _, _, _, _, _. split; [vm_compute; left; reflexivity|].
  split; [reflexivity|].
  eapply (software_encoder_beyond_hw_limits "out" "h264" "mp4" videotoolbox_host (Int 10)
            "clip.mov" "in/clip.mov" world_8k);
    [vm_compute; left; reflexivity | reflexivity].
Defined.

(** ** Temporary files of the size enforcement *)

Lemma keeps_ret {A} I (a : A) : keeps I (ret a).
Proof. intros w H. exact H. Qed.

Lemma keeps_lift {A} I (r : result A) : keeps I (lift r).
Proof. intros w H. exact H. Qed.

Lemma keeps_bind {A B} I (c : IO A) (k : A -> IO B) :
  keeps I c -> (forall a, keeps I (k a)) -> keeps I (bindIO c k).
Proof.
  intros Kc Kk w H. unfold bindIO. specialize (Kc w H).
  destruct (c w) as [[a|e] w1]; cbn [snd] in *; [apply Kk|]; assumption.
Qed.

Lemma keeps_if {A} I (b : bool) (c d : IO A) : keeps I c -> keeps I d -> keeps I (if b then c else d).
Proof. destruct b; auto. Qed.

Lemma keeps_try_finally {A} I (body : IO A) (final : IO unit) :
  keeps I body -> keeps I final -> keeps I (try_finally body final).
Proof.
  intros Kb Kf w H. unfold try_finally. specialize (Kb w H).
  destruct (body w) as [r w1]. cbn [snd] in Kb. specialize (Kf w1 Kb).
  destruct (final w1) as [[u|e] w2]; exact Kf.
Qed.

Lemma keeps_except {A} I (c : IO A) (h : exn -> IO A) :
  keeps I c -> (forall e, keeps I (h e)) -> keeps I (except_Exception c h).
Proof.
  intros Kc Kh w H. unfold except_Exception. specialize (Kc w H).
  destruct (c w) as [[a|e] w1]; cbn [snd] in *; [assumption|].
  destruct (is_Exception e); [apply Kh|]; assumption.
Qed.

Lemma keeps_attempt I (c : IO unit) : keeps I c -> keeps I (attempt c).
Proof. intros K. apply keeps_except; [exact K | intros; apply keeps_ret]. Qed.

Lemma keeps_record I ev : on_dirs_and_faults I -> keeps I (record ev).
Proof. intros F w H. eapply F; [| |exact H]; reflexivity. Qed.

Lemma keeps_exists_path I p : keeps I (exists_path p).
Proof. intros w H. exact H. Qed.

Lemma keeps_getsize I p : keeps I (getsize p).
Proof. intros w H. unfold getsize. destruct (lookup p (files w)); exact H. Qed.

Lemma keeps_time I : keeps I time.
Proof. intros w H. exact H. Qed.

Lemma keeps_get_file_size_mb I p : keeps I (get_file_size_mb p).
Proof.
  unfold get_file_size_mb. apply keeps_bind; [apply keeps_exists_path | intros found].
  apply keeps_if; [apply keeps_ret|].
  apply keeps_bind; [apply keeps_getsize | intros n; apply keeps_lift].
Qed.

Lemma keeps_run_ffmpeg I cmd : on_dirs_and_faults I -> keeps I (run_ffmpeg cmd).
Proof.
  intros F w H. unfold run_ffmpeg, bindIO, record.
  cbn [files tmpdirs fresh_names probes runs children faults clock log].
  destruct (runs w) as [|[|code out err eff] rest]; cbn [snd];
    try (eapply F; [| |exact H]; reflexivity).
  destruct (negb (code =? 0)); cbn [snd]; (eapply F; [| |exact H]; reflexivity).
Qed.

Lemma keeps_spawn I cmd duration start_time :
  on_dirs_and_faults I -> keeps I (spawn_with_progress cmd duration start_time).
Proof.
  intros F w H. unfold spawn_with_progress, bindIO, record.
  cbn [files tmpdirs fresh_names probes runs children faults clock log].
  destruct (children w) as [|[[proc eff]|] rest]; cbn [snd];
    (eapply F; [| |exact H]; reflexivity).
Qed.

Ltac keeps_step :=
  first
    [ apply keeps_ret | apply keeps_lift | apply keeps_exists_path | apply keeps_getsize
    | apply keeps_time | apply keeps_get_file_size_mb
    | apply keeps_record; assumption | apply keeps_run_ffmpeg; assumption
    | apply keeps_spawn; assumption
    | apply keeps_if
    | apply keeps_bind; [|intros ?]
    | match goal with |- keeps _ (let (_, _) := ?x in _) => destruct x end ].

(** A temporary directory made by [mkdtemp] and removed in a [finally] block
    is gone when the block is left, however the body ends, unless the removal
    itself fails. *)
Lemma scoped_tmpdir {A} (body : string -> IO A) w :
  (forall d I, on_dirs_and_faults I -> keeps I (body d)) ->
  (forall name rest, fresh_names w = name :: rest -> lookup name (tmpdirs w) = None) ->
  nth 1 (faults w) false = false ->
  tmpdirs (snd (bindIO mkdtemp (fun d => try_finally (body d) (attempt (rmtree d))) w))
  = tmpdirs w.
Proof.
  intros K Fresh NoFault.
  unfold bindIO at 1. unfold mkdtemp, bindIO at 1, fallible.
  assert (Main : forall fs w1 name rest,
             nth 0 fs false = false -> fresh_names w1 = name :: rest ->
             tmpdirs w1 = tmpdirs w -> faults w1 = fs ->
             lookup name (tmpdirs w) = None ->
             tmpdirs (snd (try_finally (body name) (attempt (rmtree name))
                             {| files := files w1; tmpdirs := (name, []) :: tmpdirs w1;
                                fresh_names := rest; probes := probes w1; runs := runs w1;
                                children := children w1; faults := faults w1;
                                clock := clock w1; log := log w1 |}))
             = tmpdirs w).
  { intros fs w1 name rest N Fn Td Fl Lk. unfold try_finally.
    set (w2 := {| files := files w1; tmpdirs := (name, []) :: tmpdirs w1;
                  fresh_names := rest; probes := probes w1; runs := runs w1;
                  children := children w1; faults := faults w1;
                  clock := clock w1; log := log w1 |}).
    pose proof (K name (fun w' => tmpdirs w' = (name, []) :: tmpdirs w /\ faults w' = fs)) as Kb.
    specialize (Kb ltac:(intros a b E1 E2 [H1 H2]; split; congruence) w2).
    specialize (Kb ltac:(split; cbn; congruence)).
    destruct (body name w2) as [r w3]. cbn [snd] in Kb. destruct Kb as [T3 F3].
    assert (R : exists u w4, attempt (rmtree name) w3 = (Ok u, w4) /\ tmpdirs w4 = tmpdirs w).
    { assert (D : delete name ((name, []) :: tmpdirs w) = tmpdirs w).
      { cbn [delete filter fst]. rewrite String.eqb_refl. cbn [negb].
        apply delete_absent. exact Lk. }
      unfold attempt, except_Exception, rmtree, bindIO, fallible. rewrite F3.
      destruct fs as [|[|] fs']; cbn in N; try discriminate;
        cbn [files tmpdirs fresh_names probes runs children faults clock log fst snd];
        rewrite T3; cbn [lookup]; rewrite String.eqb_refl;
        cbn [with_tmpdirs files tmpdirs fresh_names probes runs children faults clock log];
        rewrite ?T3, ?D; eauto. }
    destruct R as (u & w4 & -> & T4). exact T4. }
  destruct (faults w) as [|[|] fs] eqn:Fw; cbn [snd fst].
  - destruct (fresh_names w) as [|name rest] eqn:Fn; [reflexivity|].
    cbn [files tmpdirs fresh_names probes runs children faults clock log].
    apply (Main [] {| files := files w; tmpdirs := tmpdirs w; fresh_names := fresh_names w;
                      probes := probes w; runs := runs w; children := children w;
                      faults := tl []; clock := clock w; log := log w |} name rest);
      cbn; eauto.
  - reflexivity.
  - destruct (fresh_names w) as [|name rest] eqn:Fn; [reflexivity|].
    cbn [files tmpdirs fresh_names probes runs children faults clock log].
    apply (Main fs {| files := files w; tmpdirs := tmpdirs w; fresh_names := fresh_names w;
                      probes := probes w; runs := runs w; children := children w;
                      faults := tl (false :: fs); clock := clock w; log := log w |} name rest);
      cbn; eauto.
Qed.

(** X13. The directory that a re-encode makes for its two-pass log is
    removed on every way out of the re-encode (pass 1 failed, pass 2 failed,
    success, any exception, an operator interrupt), unless the removal itself
    fails: afterwards the temporary directories are those from before the
    call.  ([mkdtemp] is taken to hand out a name that is not in use.) *)
Theorem pass_log_directory_removed input_path output_path target_size_mb duration w :
  (forall name rest, fresh_names w = name :: rest -> lookup name (tmpdirs w) = None) ->
  nth 1 (faults w) false = false ->
  tmpdirs (snd (reencode_to_target_size input_path output_path target_size_mb duration w))
  = tmpdirs w.
Proof.
  intros Fresh NoFault. unfold reencode_to_target_size. cbv zeta.
  unfold bindIO at 1, record.
  set (w1 := {| files := files w; tmpdirs := tmpdirs w; fresh_names := fresh_names w;
                probes := probes w; runs := runs w; children := children w;
                faults := faults w; clock := clock w;
                log := (log w ++ [Reencoding target_size_mb])%list |}).
  unfold bindIO at 1, lift.
  destruct (calculate_target_bitrate duration target_size_mb (Int 128)) as [kbps|e];
    [|reflexivity].
  change (tmpdirs w) with (tmpdirs w1).
  apply (scoped_tmpdir
           (fun temp_dir =>
              bindIO (lift (num_int kbps)) _) w1); [| exact Fresh | exact NoFault].
  intros d I F. repeat keeps_step.
Qed.

Lemma pass_log_directory_removed_witness :
  tmpdirs (snd (reencode_to_target_size "out/clip.mp4.oversized.tmp" "out/clip.mp4"
                  (Int 10) (Float (Fin 10))
                  (world_with [Some (interrupted_child, writes "out/clip.mp4" (3 * MB))] [])))
  = tmpdirs (world_with [Some (interrupted_child, writes "out/clip.mp4" (3 * MB))] []).
Proof.
  apply pass_log_directory_removed.
  - intros name rest [= <- <-]. reflexivity.
  - reflexivity.
Defined.

Lemma on_dirs_and_faults_no_faults : on_dirs_and_faults no_faults.
Proof. intros w w' _ F H. unfold no_faults in *. rewrite F. exact H. Qed.

Lemma no_faults_tail w w' : faults w' = tl (faults w) -> no_faults w -> no_faults w'.
Proof.
  unfold no_faults. intros -> H. destruct (faults w); [exact H|]. inversion H. assumption.
Qed.

Lemma no_faults_head w : no_faults w -> exists w', fallible w = (Ok tt, w') /\
  faults w' = tl (faults w) /\ files w' = files w /\ tmpdirs w' = tmpdirs w.
Proof.
  unfold no_faults, fallible. intros H.
  destruct (faults w) as [|[|] fs]; [eauto | inversion H; discriminate | eauto].
Qed.

Lemma keeps_no_faults_fallible : keeps no_faults fallible.
Proof.
  intros w H. apply (no_faults_tail w); [|exact H].
  unfold fallible. destruct (faults w) as [|[|] fs]; reflexivity.
Qed.

Lemma keeps_no_faults_after_fallible {A} (k : IO A) :
  (forall w, faults (snd (k w)) = faults w) -> keeps no_faults (bindIO fallible (fun _ => k)).
Proof.
  intros K. apply keeps_bind; [apply keeps_no_faults_fallible | intros _].
  intros w H. unfold no_faults in *. rewrite K. exact H.
Qed.

Lemma keeps_no_faults_copy2 src dst : keeps no_faults (copy2 src dst).
Proof.
  unfold copy2. apply keeps_bind; [apply keeps_no_faults_fallible | intros _].
  apply keeps_bind; [apply keeps_getsize | intros n]. intros w H. exact H.
Qed.

Lemma keeps_no_faults_remove path : keeps no_faults (remove path).
Proof.
  unfold remove. apply keeps_bind; [apply keeps_no_faults_fallible | intros _].
  apply keeps_bind; [apply keeps_getsize | intros n]. intros w H. exact H.
Qed.

Lemma keeps_no_faults_mkdtemp : keeps no_faults mkdtemp.
Proof.
  unfold mkdtemp. apply keeps_no_faults_after_fallible.
  intros w. destruct (fresh_names w); reflexivity.
Qed.

Lemma keeps_no_faults_rmtree dir : keeps no_faults (rmtree dir).
Proof.
  unfold rmtree. apply keeps_no_faults_after_fallible.
  intros w. destruct (lookup dir (tmpdirs w)); reflexivity.
Qed.

Lemma keeps_no_faults_reencode input_path output_path target_size_mb duration :
  keeps no_faults (reencode_to_target_size input_path output_path target_size_mb duration).
Proof.
  pose proof on_dirs_and_faults_no_faults as F.
  unfold reencode_to_target_size. cbv zeta.
  apply keeps_bind; [apply keeps_record; exact F | intros _].
  apply keeps_bind; [apply keeps_lift | intros kbps].
  apply keeps_bind; [apply keeps_no_faults_mkdtemp | intros temp_dir].
  apply keeps_try_finally.
  - repeat keeps_step.
  - apply keeps_attempt. apply keeps_no_faults_rmtree.
Qed.

(** The [finally] block of the size enforcement: whatever the body did, the
    file is not there afterwards, unless the removal fails. *)
Lemma finally_removes {A} (body : IO A) path w :
  keeps no_faults body -> no_faults w ->
  let w' := snd (try_finally body
                   (attempt (bindIO (exists_path path)
                                    (fun found => if found then remove path else ret tt))) w)
  in lookup path (files w') = None /\ no_faults w'.
Proof.
  intros K H. unfold try_finally. specialize (K w H).
  destruct (body w) as [r w3]. cbn [snd] in K.
  unfold attempt, except_Exception, bindIO, exists_path.
  destruct (lookup path (files w3)) as [n|] eqn:L.
  - unfold remove, bindIO.
    destruct (no_faults_head w3 K) as (w4 & -> & F4 & Fi4 & _).
    unfold getsize. rewrite Fi4, L. cbn. split.
    + rewrite Fi4. apply lookup_delete_same.
    + apply (no_faults_tail w3); assumption.
  - cbn. split; assumption.
Qed.

(** X14. The copy of the oversized file that the size enforcement works
    from ([output_path + '.oversized.tmp']) does not outlive the call: if no
    file operation fails, it is absent afterwards on every way out (within
    budget, re-encoded, failed, any exception, an operator interrupt),
    provided it was absent before. *)
Theorem oversized_copy_removed output_path target_size_mb duration w :
  no_faults w ->
  lookup (output_path ++ ".oversized.tmp") (files w) = None ->
  lookup (output_path ++ ".oversized.tmp")
         (files (snd (enforce_size_limit output_path target_size_mb duration w))) = None.
Proof.
  intros NF Absent.
  set (temp := output_path ++ ".oversized.tmp") in *.
  set (J := fun w' => lookup temp (files w') = None /\ no_faults w').
  assert (K : keeps J (enforce_size_limit output_path target_size_mb duration)).
  { unfold enforce_size_limit. cbv zeta. fold temp.
    apply keeps_bind; [apply keeps_exists_path | intros found].
    apply keeps_if; [apply keeps_ret|].
    apply keeps_bind; [apply keeps_get_file_size_mb | intros file_size].
    apply keeps_if; [apply keeps_ret|].
    apply keeps_bind; [apply keeps_lift | intros excess].
    intros w0 [A0 N0]. unfold bindIO at 1.
    pose proof (keeps_no_faults_copy2 output_path temp w0 N0) as N1.
    destruct (copy2 output_path temp w0) as [[u|e] w1] eqn:C; cbn [snd] in N1.
    - apply finally_removes; [|exact N1].
      apply keeps_bind; [apply keeps_no_faults_reencode | intros success].
      pose proof on_dirs_and_faults_no_faults as F.
      apply keeps_if; [|apply keeps_ret].
      apply keeps_bind; [apply keeps_get_file_size_mb | intros final_size].
      apply keeps_if; [apply keeps_ret|].
      apply keeps_bind; [apply keeps_lift | intros reduced].
      apply keeps_bind; [apply keeps_lift | intros kbps].
      apply keeps_bind; [apply keeps_lift | intros reduced'].
      apply keeps_bind; [apply keeps_no_faults_reencode | intros success2].
      apply keeps_bind; [apply keeps_get_file_size_mb | intros final_size2].
      apply keeps_ret.
    - cbn [snd]. split; [|exact N1].
      revert C. unfold copy2, bindIO.
      destruct (no_faults_head w0 N0) as (w0' & -> & _ & Fi & _).
      unfold getsize. destruct (lookup output_path (files w0')); [discriminate|].
      intros [= _ <-]. rewrite Fi. exact A0. }
  apply (K w). split; assumption.
Qed.

Lemma oversized_copy_removed_witness :
  lookup ("out/clip.mp4" ++ ".oversized.tmp")
         (files (snd (enforce_size_limit "out/clip.mp4" (Int 10) (Float (Fin 10))
                        (with_files (writes "out/clip.mp4" (12 * MB))
                           (world_with [Some (interrupted_child,
                                              writes "out/clip.mp4" (3 * MB))] [])))))
  = None.
Proof.
  apply oversized_copy_removed.
  - constructor.
  - reflexivity.
Defined.

(** X15. When the size enforcement answers [True], the output file as it is
    then on disk measures at most the budget (a missing file measuring 0, as
    [get_file_size_mb] has it): the answer is never [True] for a file left
    over the budget, whichever of the three ways it was reached by (within
    budget at once, after the first re-encode, after the second). *)
Theorem size_ok_means_within_budget output_path target_size_mb duration w w' :
  enforce_size_limit output_path target_size_mb duration w = (Ok true, w') ->
  exists size,
    fst (get_file_size_mb output_path w') = Ok size /\ num_le size target_size_mb = true.
Proof.
  unfold enforce_size_limit. cbv zeta. intros E.
  assert (Measured : forall w0 size w1,
             get_file_size_mb output_path w0 = (Ok size, w1) ->
             w1 = w0 /\ fst (get_file_size_mb output_path w0) = Ok size).
  { intros w0 size w1 G. pose proof (get_file_size_mb_pure output_path w0) as P.
    rewrite G in *. cbn in *. auto. }
  apply bindIO_Ok in E. destruct E as (found & w1 & E1 & E). injection E1 as <- <-.
  destruct (negb _); [discriminate|].
  apply bindIO_Ok in E. destruct E as (file_size & w1 & G & E).
  apply Measured in G. destruct G as [-> G].
  destruct (num_le file_size target_size_mb) eqn:L.
  { injection E as <-. exists file_size. auto. }
  apply bindIO_Ok in E. destruct E as (excess & w1 & E1 & E).
  unfold lift in E1. assert (w1 = w) by congruence. subst w1. clear E1.
  apply bindIO_Ok in E. destruct E as (u & w2 & _ & E).
  apply try_finally_Ok in E. destruct E as (w3 & u' & B & F).
  assert (Out : lookup output_path (files w') = lookup output_path (files w3)).
  { eapply cleanup_keeps_other; [|exact F].
    intros X. symmetry in X. revert X. apply append_neq. discriminate. }
  assert (Body : exists size,
             fst (get_file_size_mb output_path w3) = Ok size /\
             num_le size target_size_mb = true).
  { apply bindIO_Ok in B. destruct B as (success & w4 & _ & B).
    destruct success; [|discriminate].
    apply bindIO_Ok in B. destruct B as (final_size & w5 & G1 & B).
    apply Measured in G1. destruct G1 as [-> G1].
    destruct (num_le final_size target_size_mb) eqn:L1.
    { injection B as <-. exists final_size. auto. }
    apply bindIO_Ok in B. destruct B as (reduced & w5 & _ & B).
    apply bindIO_Ok in B. destruct B as (kbps & w6 & _ & B).
    apply bindIO_Ok in B. destruct B as (reduced' & w7 & _ & B).
    apply bindIO_Ok in B. destruct B as (success2 & w8 & _ & B).
    apply bindIO_Ok in B. destruct B as (final_size2 & w9 & G2 & B).
    apply Measured in G2. destruct G2 as [-> G2].
    injection B as B <-. exists final_size2. auto. }
  destruct Body as (size & Gs & Ls). exists size. split; [|exact Ls].
  rewrite <- Gs. apply get_file_size_mb_ext. exact Out.
Qed.

Lemma size_ok_means_within_budget_witness :
  exists w' size,
    enforce_size_limit "out/clip.mp4" (Int 10) (Float (Fin 10))
      (with_files (writes "out/clip.mp4" (12 * MB))
         (world_with [Some (quiet_child 0, writes "out/clip.mp4" (9 * MB))] []))
    = (Ok true, w') /\
    fst (get_file_size_mb "out/clip.mp4" w') = Ok size /\ num_le size (Int 10) = true.
Proof.
  eexists. 
  assert (E : enforce_size_limit "out/clip.mp4" (Int 10) (Float (Fin 10))
      (with_files (writes "out/clip.mp4" (12 * MB))
         (world_with [Some (quiet_child 0, writes "out/clip.mp4" (9 * MB))] []))
      = (Ok true, snd (enforce_size_limit "out/clip.mp4" (Int 10) (Float (Fin 10))
      (with_files (writes "out/clip.mp4" (12 * MB))
         (world_with [Some (quiet_child 0, writes "out/clip.mp4" (9 * MB))] [])))))
    by (vm_compute; reflexivity).
  destruct (size_ok_means_within_budget _ _ _ _ _ E) as (size & G & L).
  exists size. split; [exact E|]. split; assumption.
Defined.

(** ** Formatting a duration *)

Lemma Qfloor_div_Z x w : 0 < w -> Qfloor (x / inject_Z w) = Qfloor x / w.
Proof.
  intros Hw. pose proof (inject_Z_pos w Hw) as Wq.
  pose proof (Qfloor_le x) as F1. pose proof (Qlt_floor x) as F2.
  rewrite inject_Z_plus in F2. change (inject_Z 1) with 1%Q in F2.
  set (n := Qfloor x) in *. set (k := n / w).
  assert (Hk : w * k <= n /\ n + 1 <= w * k + w).
  { pose proof (Z.div_mod n w ltac:(lia)) as D.
    pose proof (Z.mod_pos_bound n w Hw) as B. fold k in D. lia. }
  destruct Hk as [K1 K2]. apply Qfloor_unique.
  - apply Qle_shift_div_l; [assumption|].
    rewrite Zle_Qle, inject_Z_mult in K1. lra.
  - apply Qlt_shift_div_r; [assumption|].
    rewrite Zle_Qle, !inject_Z_plus, inject_Z_mult in K2.
    change (inject_Z 1) with 1%Q in K2. lra.
Qed.

Lemma Qfloor_sub_Z x k : Qfloor (x - inject_Z k) = Qfloor x - k.
Proof.
  pose proof (Qfloor_le x) as F1. pose proof (Qlt_floor x) as F2.
  rewrite inject_Z_plus in F2. change (inject_Z 1) with 1%Q in F2.
  apply Qfloor_unique.
  - unfold Z.sub. rewrite inject_Z_plus, inject_Z_opp. lra.
  - unfold Z.sub. rewrite inject_Z_plus, inject_Z_opp. lra.
Qed.

Lemma Qfloor_nonneg x : (0 <= x)%Q -> 0 <= Qfloor x.
Proof. intros H. change 0 with (Qfloor 0). apply Qfloor_resp_le. exact H. Qed.

(** For a non-negative dividend and a positive integral divisor [fmod] is
    the remainder of the floor division. *)
Lemma fmod_floor x w :
  (0 <= x)%Q -> 0 < w ->
  (fmod x (inject_Z w) == x - inject_Z (w * (Qfloor x / w)))%Q /\
  (0 <= fmod x (inject_Z w))%Q /\ (fmod x (inject_Z w) < inject_Z w)%Q.
Proof.
  intros Hx Hw. pose proof (inject_Z_pos w Hw) as Wq. unfold fmod.
  assert (D : (0 <= x / inject_Z w)%Q) by (apply Qle_shift_div_l; [assumption | lra]).
  rewrite trunc_nonneg by assumption. rewrite Qfloor_div_Z by assumption.
  pose proof (Qfloor_le x) as F1. pose proof (Qlt_floor x) as F2.
  rewrite inject_Z_plus in F2. change (inject_Z 1) with 1%Q in F2.
  set (n := Qfloor x) in *. set (k := n / w).
  assert (Hk : w * k <= n /\ n + 1 <= w * k + w).
  { pose proof (Z.div_mod n w ltac:(lia)) as E.
    pose proof (Z.mod_pos_bound n w Hw) as B. fold k in E. lia. }
  destruct Hk as [K1 K2].
  rewrite Zle_Qle, inject_Z_mult in K1.
  rewrite Zle_Qle, !inject_Z_plus, inject_Z_mult in K2.
  change (inject_Z 1) with 1%Q in K2.
  rewrite inject_Z_mult. split; [reflexivity|]. split; lra.
Qed.

Lemma is_neg_nonneg y : (0 <= y)%Q -> is_neg y = false.
Proof. intros H. unfold is_neg. apply Qle_bool_iff in H. rewrite H. reflexivity. Qed.

Lemma Qeq_bool_pos w : 0 < w -> Qeq_bool (inject_Z w) 0 = false.
Proof.
  intros H. destruct (Qeq_bool (inject_Z w) 0) eqn:E; [|reflexivity].
  apply Qeq_bool_iff in E. pose proof (inject_Z_pos w H). lra.
Qed.

(** [x // w] for a float below 2^53 and a positive integral divisor is the
    integer quotient of the whole part of [x]. *)
Lemma float_floordiv_whole x w :
  (0 <= x)%Q -> (x < pow2 53)%Q -> 0 < w ->
  exists q, float_floordiv (Fin x) (Fin (inject_Z w)) = Ok (Fin q) /\
            trunc q = Qfloor x / w.
Proof.
  intros Hx Bx Hw. pose proof (inject_Z_pos w Hw) as Wq.
  destruct (fmod_floor x w Hx Hw) as (Em & M0 & M1).
  unfold float_floordiv. rewrite (Qeq_bool_pos w Hw). cbv zeta.
  set (m := fmod x (inject_Z w)) in *.
  pose proof (Qfloor_le x) as F1. pose proof (Qfloor_nonneg x Hx) as N0.
  set (n := Qfloor x) in *. set (k := n / w) in *.
  assert (K0 : 0 <= k) by (apply Z.div_pos; lia).
  assert (K1 : w * k <= n).
  { pose proof (Z.div_mod n w ltac:(lia)) as E.
    pose proof (Z.mod_pos_bound n w Hw) as B. fold k in E. lia. }
  assert (Kn : k <= n) by nia.
  assert (P53 : (pow2 53 == inject_Z (2 ^ 53))%Q) by (apply pow2_Z; lia).
  assert (Nb : n < 2 ^ 53).
  { rewrite Zlt_Qlt, <- P53. lra. }
  assert (Ey : (x - m == inject_Z (w * k))%Q) by (rewrite Em; ring).
  assert (Ry : (rne (x - m) == inject_Z (w * k))%Q).
  { rewrite Ey. apply rne_Z. lia. }
  cbn [fsub]. rewrite (round_float_small _ 53); [| | lia].
  2:{ rewrite Ey. apply inject_Z_abs_lt; lia. }
  cbn [fdiv]. rewrite (Qeq_bool_pos w Hw).
  assert (Eq : (rne (x - m) / inject_Z w == inject_Z k)%Q).
  { rewrite Ry, inject_Z_mult. field. lra. }
  assert (Rq : (rne (rne (x - m) / inject_Z w) == inject_Z k)%Q).
  { rewrite Eq. apply rne_Z. lia. }
  rewrite (round_float_small _ 53); [| | lia].
  2:{ rewrite Eq. apply inject_Z_abs_lt; lia. }
  cbn [bind]. rewrite (is_neg_nonneg _ (Qlt_le_weak _ _ Wq)), (is_neg_nonneg m M0).
  rewrite Bool.andb_false_r.
  set (q := rne (rne (x - m) / inject_Z w)) in *.
  unfold snap_quotient. destruct (Qeq_bool q 0) eqn:Z0.
  - exists 0%Q. split; [reflexivity|]. apply Qeq_bool_iff in Z0.
    rewrite Z0 in Rq. change (trunc 0) with 0.
    unfold Qeq in Rq. simpl in Rq. lia.
  - assert (Fq : Qfloor q = k).
    { rewrite (Qfloor_comp _ _ Rq). apply Qfloor_Z. }
    rewrite Fq. cbn [fsub].
    assert (R0 : rne (q - inject_Z k) = 0%Q) by (apply rne_zero; rewrite Rq; ring).
    unfold round_float. rewrite R0.
    change (overflows 0) with false. cbv iota.
    assert (T : flt (Fin (1 # 2)) (Fin 0) = false) by reflexivity. rewrite T.
    exists (inject_Z k). split; [reflexivity|].
    rewrite trunc_nonneg by (change 0%Q with (inject_Z 0); rewrite <- Zle_Qle; lia).
    apply Qfloor_Z.
Qed.

(** [x % w] for a non-negative float and a positive integral divisor is
    exact; its whole part is the remainder of the whole part of [x]. *)
Lemma float_mod_whole x w :
  (0 <= x)%Q -> 0 < w ->
  exists m, float_mod (Fin x) (Fin (inject_Z w)) = Ok (Fin m) /\
            (0 <= m)%Q /\ (m < inject_Z w)%Q /\ Qfloor m = Qfloor x mod w.
Proof.
  intros Hx Hw. pose proof (inject_Z_pos w Hw) as Wq.
  destruct (fmod_floor x w Hx Hw) as (Em & M0 & M1).
  unfold float_mod. rewrite (Qeq_bool_pos w Hw). cbv zeta.
  set (m := fmod x (inject_Z w)) in *.
  assert (Fm : Qfloor m = Qfloor x mod w).
  { rewrite (Qfloor_comp _ _ Em), Qfloor_sub_Z.
    pose proof (Z.div_mod (Qfloor x) w ltac:(lia)). lia. }
  destruct (Qeq_bool m 0) eqn:Z0.
  - exists 0%Q. split; [reflexivity|]. split; [lra|]. split; [assumption|].
    apply Qeq_bool_iff in Z0. rewrite <- Fm. apply Qfloor_comp. symmetry. exact Z0.
  - rewrite (is_neg_nonneg _ (Qlt_le_weak _ _ Wq)), (is_neg_nonneg m M0). cbn [xorb].
    exists m. auto.
Qed.

Lemma num_lt_nonneg_int n : 0 <= n -> num_lt (Int n) (Int 0) = false.
Proof.
  intros H. unfold num_lt. cbn [as_float_exact]. apply flt_Fin_false.
  rewrite <- Zle_Qle. exact H.
Qed.

Lemma format_time_int n :
  0 <= n -> format_time (Int n) = Ok (clock_text (n / 3600) (n mod 3600 / 60) (n mod 60)).
Proof.
  intros H. unfold format_time. rewrite (num_lt_nonneg_int n H).
  cbn [num_floordiv num_mod Z.eqb bind num_int]. unfold clock_text.
  destruct (0 <? n / 3600); [reflexivity|]. destruct (0 <? _); reflexivity.
Qed.

(** X16. For a negative number of seconds (minus infinity included)
    [format_time] answers "calculating..."; for a non-negative int it
    renders hours, minutes and seconds that add up to the given seconds, with
    minutes and seconds below 60, leaving out the hours when they are 0 and
    the minutes too when both are 0. *)
Theorem format_time_whole_seconds :
  (forall seconds,
     num_lt seconds (Int 0) = true -> format_time seconds = Ok "calculating...") /\
  (forall n,
     0 <= n ->
     exists hours minutes secs,
       format_time (Int n) = Ok (clock_text hours minutes secs) /\
       hours * 3600 + minutes * 60 + secs = n /\
       0 <= hours /\ 0 <= minutes < 60 /\ 0 <= secs < 60).
Proof.
  split.
  - intros seconds L. unfold format_time. rewrite L. reflexivity.
  - intros n H. exists (n / 3600), (n mod 3600 / 60), (n mod 60).
    split; [apply format_time_int; exact H|].
    Z.div_mod_to_equations. lia.
Qed.

Lemma format_time_whole_seconds_witness :
  format_time (Float (Inf true)) = Ok "calculating..." /\
  exists hours minutes secs,
    format_time (Int 3725) = Ok (clock_text hours minutes secs) /\
    hours * 3600 + minutes * 60 + secs = 3725 /\
    0 <= hours /\ 0 <= minutes < 60 /\ 0 <= secs < 60.
Proof.
  split.
  - apply (proj1 format_time_whole_seconds). reflexivity.
  - apply (proj2 format_time_whole_seconds 3725). lia.
Defined.

Lemma float_of_int_3600 : float_of_int 3600 = Ok (Fin (inject_Z 3600)).
Proof. vm_compute. reflexivity. Qed.

Lemma float_of_int_60 : float_of_int 60 = Ok (Fin (inject_Z 60)).
Proof. vm_compute. reflexivity. Qed.

(** X17. A float of seconds from 0 up to 2^53 is formatted as its whole
    part: the float floor division and remainder of the source lose nothing
    there, so the text is that of [int] seconds.  NaN and plus infinity are
    not formatted: the function raises [ValueError]. *)
Theorem format_time_of_float :
  (forall x, (0 <= x)%Q -> (x < pow2 53)%Q ->
             format_time (Float (Fin x)) = format_time (Int (Qfloor x))) /\
  format_time (Float NaN) = Raise ValueError /\
  format_time (Float (Inf false)) = Raise ValueError.
Proof.
  split; [|split; reflexivity].
  intros x Hx Bx. rewrite (format_time_int _ (Qfloor_nonneg x Hx)).
  unfold format_time.
  assert (L : num_lt (Float (Fin x)) (Int 0) = false).
  { unfold num_lt. cbn [as_float_exact]. apply flt_Fin_false. exact Hx. }
  rewrite L. cbn [num_floordiv num_mod to_float bind].
  rewrite float_of_int_3600, float_of_int_60. cbn [bind].
  destruct (float_floordiv_whole x 3600 Hx Bx ltac:(lia)) as (q1 & -> & T1).
  cbn [bind num_int py_int]. rewrite T1.
  destruct (float_mod_whole x 3600 Hx ltac:(lia)) as (m & -> & M0 & M1 & Fm).
  cbn [bind num_floordiv to_float]. rewrite float_of_int_60. cbn [bind].
  assert (Bm : (m < pow2 53)%Q).
  { eapply Qlt_trans; [exact M1|]. vm_compute. reflexivity. }
  destruct (float_floordiv_whole m 60 M0 Bm ltac:(lia)) as (q2 & -> & T2).
  cbn [bind num_int py_int]. rewrite T2, Fm.
  destruct (float_mod_whole x 60 Hx ltac:(lia)) as (s & -> & S0 & S1 & Fs).
  cbn [bind num_int py_int]. rewrite (trunc_nonneg s S0), Fs.
  unfold clock_text.
  destruct (0 <? Qfloor x / 3600); [reflexivity|]. destruct (0 <? _); reflexivity.
Qed.

Lemma format_time_of_float_witness :
  format_time (Float (Fin (37255 # 10))) = format_time (Int (Qfloor (37255 # 10))).
Proof.
  apply (proj1 format_time_of_float); [unfold Qle; simpl; lia | vm_compute; reflexivity].
Defined.

(** ** Finding the videos of a folder *)

Lemma string_leb_trans a b c :
  String.leb a b = true -> String.leb b c = true -> String.leb a c = true.
Proof.
  unfold String.leb. revert b c.
  induction a as [|x a IH]; intros [|y b] [|z c]; cbn; try congruence.
  unfold Ascii.compare.
  destruct (N.compare_spec (N_of_ascii x) (N_of_ascii y)) as [E1|L1|G1];
    destruct (N.compare_spec (N_of_ascii y) (N_of_ascii z)) as [E2|L2|G2];
    destruct (N.compare_spec (N_of_ascii x) (N_of_ascii z)) as [E3|L3|G3];
    try congruence; try lia.
  apply IH.
Qed.

Lemma insert_sorted_perm name l : Permutation (name :: l) (insert_sorted name l).
Proof.
  induction l as [|x l IH]; cbn; [reflexivity|].
  destruct (String.leb name x); [reflexivity|].
  rewrite perm_swap. constructor. exact IH.
Qed.

Lemma sorted_perm l : Permutation l (sorted l).
Proof.
  induction l as [|x l IH]; cbn; [constructor|].
  rewrite <- insert_sorted_perm. constructor. exact IH.
Qed.

Lemma insert_sorted_sorted name l :
  StronglySorted (fun a b => String.leb a b = true) l ->
  StronglySorted (fun a b => String.leb a b = true) (insert_sorted name l).
Proof.
  induction 1 as [|x l S IH F]; cbn; [repeat constructor|].
  destruct (String.leb name x) eqn:E.
  - constructor; [constructor; assumption|].
    constructor; [exact E|].
    eapply Forall_impl; [|exact F]. intros y L. eapply string_leb_trans; eassumption.
  - constructor; [exact IH|].
    eapply Permutation_Forall; [apply insert_sorted_perm|].
    constructor; [|exact F].
    destruct (String.leb_total name x) as [T|T]; congruence.
Qed.

Lemma sorted_sorted l : StronglySorted (fun a b => String.leb a b = true) (sorted l).
Proof.
  induction l as [|x l IH]; cbn; [constructor|]. apply insert_sorted_sorted. exact IH.
Qed.

Lemma filter_sorted {A} (R : A -> A -> Prop) (f : A -> bool) l :
  StronglySorted R l -> StronglySorted R (filter f l).
Proof.
  induction 1 as [|x l S IH F]; cbn; [constructor|].
  destruct (f x); [|exact IH]. constructor; [exact IH|].
  apply Forall_forall. intros y I. apply filter_In in I.
  rewrite Forall_forall in F. apply F. tauto.
Qed.

Lemma map_sorted {A B} (R : A -> A -> Prop) (S : B -> B -> Prop) (g : A -> B) l :
  (forall a b, R a b -> S (g a) (g b)) -> StronglySorted R l -> StronglySorted S (map g l).
Proof.
  intros H. induction 1 as [|x l St IH F]; cbn; constructor; [exact IH|].
  apply Forall_forall. intros y I. apply in_map_iff in I. destruct I as (a & <- & I).
  rewrite Forall_forall in F. auto.
Qed.

Lemma endswith_spec s suffix : endswith s suffix = true <-> exists stem, s = stem ++ suffix.
Proof.
  split.
  - induction s as [|c s IH]; cbn [endswith].
    + rewrite Bool.orb_false_r. intros E. apply String.eqb_eq in E. exists "". exact E.
    + intros E. apply Bool.orb_true_iff in E. destruct E as [E|E].
      * apply String.eqb_eq in E. exists "". exact E.
      * destruct (IH E) as [stem ->]. exists (String c stem). reflexivity.
  - intros [stem ->]. induction stem as [|c stem IH]; cbn [endswith append].
    + destruct suffix; cbn [endswith]; rewrite String.eqb_refl; reflexivity.
    + rewrite IH. apply Bool.orb_true_r.
Qed.

(** X18. For a folder that can be listed, [get_video_files] returns exactly
    the entries whose name, lowercased, ends with one of the ten video
    extensions, each paired with the folder path joined to the name, in
    ascending order of the names; names that are distinct in the folder stay
    distinct.  For a path that does not exist it returns the empty list. *)
Theorem video_files_found folder_path names :
  exists l,
    get_video_files folder_path (Entries names) = Ok l /\
    (forall filename full_path,
       In (filename, full_path) l <->
       In filename names /\
       (exists stem ext, In ext allowed_extensions /\ lower filename = stem ++ ext) /\
       full_path = path_join folder_path filename) /\
    StronglySorted (fun a b => String.leb (fst a) (fst b) = true) l /\
    (NoDup names -> NoDup (map fst l)) /\
    get_video_files folder_path NoSuchPath = Ok [].
Proof.
  eexists. split; [reflexivity|]. split; [|split; [|split; [|reflexivity]]].
  - intros filename full_path. rewrite in_map_iff. split.
    + intros (f & [= <- <-] & I). apply filter_In in I. destruct I as [I V].
      split; [eapply Permutation_in; [symmetry; apply sorted_perm | exact I]|].
      split; [|reflexivity].
      unfold is_video in V. apply existsb_exists in V. destruct V as (ext & Ie & E).
      apply endswith_spec in E. destruct E as [stem E]. eauto.
    + intros (I & (stem & ext & Ie & E) & ->). exists filename. split; [reflexivity|].
      apply filter_In. split; [eapply Permutation_in; [apply sorted_perm | exact I]|].
      unfold is_video. apply existsb_exists. exists ext. split; [exact Ie|].
      apply endswith_spec. eauto.
  - apply (map_sorted (fun a b => String.leb a b = true)); [auto|].
    apply filter_sorted. apply sorted_sorted.
  - intros N. rewrite map_map. cbn [fst]. rewrite map_id.
    apply NoDup_filter. eapply Permutation_NoDup; [apply sorted_perm | exact N].
Qed.

(** ** The selection menu *)

Lemma probe_each_returns video_files w : exists w', probe_each video_files w = (Ok tt, w').
Proof.
  revert w. induction video_files as [|[name path] rest IH]; intros w; cbn [probe_each].
  - eexists. reflexivity.
  - unfold bindIO, get_video_info. apply IH.
Qed.

Lemma collect_indices_valid tokens count :
  forall selected l,
    NoDup selected -> (forall i, In i selected -> 0 <= i < count) ->
    collect_indices tokens count selected = Ok l ->
    NoDup l /\ (forall i, In i l -> 0 <= i < count).
Proof.
  induction tokens as [|num rest IH]; intros selected l N R; cbn [collect_indices].
  - intros [= <-]. auto.
  - intros E. apply bind_Ok in E. destruct E as (n & _ & E). cbv zeta in E.
    destruct ((0 <=? n - 1) && (n - 1 <? count)) eqn:B; [|eapply IH; eassumption].
    destruct (existsb (Z.eqb (n - 1)) selected) eqn:X; [eapply IH; eassumption|].
    apply (IH (selected ++ [n - 1])%list l); [| |exact E].
    + apply NoDup_app; [exact N | repeat constructor; intros [] |].
      intros i I [<-|[]].
      assert (existsb (Z.eqb (n - 1)) selected = true); [|congruence].
      apply existsb_exists. exists (n - 1). split; [exact I | apply Z.eqb_refl].
    + intros i I. apply in_app_or in I. destruct I as [I|[<-|[]]]; [auto|]. lia.
Qed.

(** X19. Whatever the operator types, the indices that the selection menu
    returns can be used on the list of videos as they are: each is at least 0
    and below the number of videos, and none occurs twice.  The empty list
    (the request for sample videos) is returned only for the answer "sample",
    or when there are no videos at all. *)
Theorem menu_selection_is_valid video_files answer w l :
  fst (display_video_menu video_files answer w) = Ok (Some l) ->
  NoDup l /\
  (forall i, In i l -> 0 <= i < Z.of_nat (List.length video_files)) /\
  (l = [] -> video_files = [] \/ lower (str_strip answer) = "sample").
Proof.
  destruct video_files as [|v rest].
  - cbn [display_video_menu ret fst]. destruct (String.eqb _ _); [|discriminate].
    intros [= <-]. split; [constructor|]. split; [intros i []|auto].
  - unfold display_video_menu, bindIO.
    destruct (probe_each_returns (v :: rest) w) as [w' ->].
    cbv zeta. set (selection := lower (str_strip answer)).
    destruct (String.eqb_spec selection "") as [E1|N1]; [discriminate|].
    destruct (String.eqb_spec selection "sample") as [E2|N2].
    { intros [= <-]. split; [constructor|]. split; [intros i []|auto]. }
    destruct (String.eqb_spec selection "all") as [E3|N3].
    { assert (A : NoDup (map Z.of_nat (seq 0 (List.length (v :: rest)))) /\
                  forall i, In i (map Z.of_nat (seq 0 (List.length (v :: rest)))) ->
                            0 <= i < Z.of_nat (List.length (v :: rest))).
      { split.
        - apply Finite.Injective_map_NoDup; [intros a b; apply Nat2Z.inj | apply seq_NoDup].
        - intros i I. apply in_map_iff in I. destruct I as (k & <- & I).
          apply in_seq in I. lia. }
      intros [= <-]. split; [exact (proj1 A)|]. split; [exact (proj2 A) | discriminate]. }
    destruct (collect_indices _ _ _) as [l'|e] eqn:C.
    + destruct (collect_indices_valid _ _ [] l' ltac:(constructor) ltac:(intros i []) C)
        as [N R].
      destruct l' as [|i0 l']; [discriminate|].
      intros [= <-]. split; [exact N|]. split; [exact R | discriminate].
    + destruct e; discriminate.
Qed.

Lemma menu_selection_is_valid_witness :
  exists l,
    fst (display_video_menu [("a.mp4", "in/a.mp4"); ("b.mov", "in/b.mov"); ("c.mkv", "in/c.mkv")]
                            " 3 1  3 2 " empty_world) = Ok (Some l) /\
    l = [2; 0; 1] /\ NoDup l /\
    (forall i, In i l -> 0 <= i < 3) /\
    (l = [] -> [("a.mp4", "in/a.mp4"); ("b.mov", "in/b.mov"); ("c.mkv", "in/c.mkv")] = []
               \/ lower (str_strip " 3 1  3 2 ") = "sample").
Proof.
  eexists. split; [vm_compute; reflexivity|]. split; [reflexivity|].
  apply (menu_selection_is_valid
           [("a.mp4", "in/a.mp4"); ("b.mov", "in/b.mov"); ("c.mkv", "in/c.mkv")]
           " 3 1  3 2 " empty_world).
  vm_compute. reflexivity.
Defined.

(** ** Bitrate targeting: the second attempt *)

Lemma overflows_true y : overflows y = true -> (pow2 1024 <= y \/ y <= - pow2 1024)%Q.
Proof.
  unfold overflows. intros H. apply Qle_bool_iff in H. revert H.
  apply Qabs_case; intros; [left | right]; lra.
Qed.

Lemma overflows_false y : overflows y = false -> (- pow2 1024 < y < pow2 1024)%Q.
Proof.
  unfold overflows. intros H.
  assert (N : ~ (pow2 1024 <= Qabs y)%Q).
  { intros C. apply Qle_bool_iff in C. congruence. }
  apply Qnot_le_lt in N. revert N. apply Qabs_case; intros; lra.
Qed.

Lemma is_neg_true y : (y < 0)%Q -> is_neg y = true.
Proof.
  intros H. unfold is_neg. destruct (Qle_bool 0 y) eqn:E; [|reflexivity].
  apply Qle_bool_iff in E. lra.
Qed.

(** Rounding keeps the order, infinities included. *)
Lemma round_float_mono x y : (x <= y)%Q -> fle (round_float x) (round_float y) = true.
Proof.
  intros L. apply rne_mono in L. unfold round_float.
  pose proof (pow2_pos 1024) as P.
  destruct (overflows (rne x)) eqn:Ox, (overflows (rne y)) eqn:Oy.
  - apply overflows_true in Ox, Oy. destruct Ox as [Ox|Ox], Oy as [Oy|Oy].
    + rewrite (is_neg_nonneg (rne x)), (is_neg_nonneg (rne y)) by lra. reflexivity.
    + lra.
    + rewrite (is_neg_true (rne x)) by lra. reflexivity.
    + rewrite (is_neg_true (rne x)) by lra. reflexivity.
  - apply overflows_true in Ox. apply overflows_false in Oy. destruct Ox as [Ox|Ox]; [lra|].
    rewrite (is_neg_true (rne x)) by lra. reflexivity.
  - apply overflows_true in Oy. apply overflows_false in Ox. destruct Oy as [Oy|Oy]; [|lra].
    rewrite (is_neg_nonneg (rne y)) by lra. reflexivity.
  - apply fle_Fin. exact L.
Qed.

Lemma fle_refl_inf s : fle (Inf s) (Inf s) = true.
Proof. destruct s; reflexivity. Qed.

Lemma fle_from_minus_inf b : b <> NaN -> fle (Inf true) b = true.
Proof. destruct b as [y|t|]; [reflexivity | reflexivity | congruence]. Qed.

Lemma fle_to_plus_inf a : a <> NaN -> fle a (Inf false) = true.
Proof. destruct a as [x|s|]; [reflexivity | destruct s; reflexivity | congruence]. Qed.

Lemma round_float_not_nan x : round_float x <> NaN.
Proof. unfold round_float. destruct (overflows _); discriminate. Qed.

Lemma fsub_mono x y c :
  (x <= y)%Q -> c <> NaN -> fle (fsub (Fin x) c) (fsub (Fin y) c) = true.
Proof.
  intros L N. destruct c as [z|s|]; cbn [fsub]; [|apply fle_refl_inf|congruence].
  apply round_float_mono. lra.
Qed.

Lemma fdiv_mono a b d :
  (0 < d)%Q -> fle a b = true ->
  exists qa qb, fdiv a (Fin d) = Ok qa /\ fdiv b (Fin d) = Ok qb /\ fle qa qb = true.
Proof.
  intros Hd L. unfold fdiv.
  assert (Z : Qeq_bool d 0 = false).
  { destruct (Qeq_bool d 0) eqn:E; [|reflexivity]. apply Qeq_bool_iff in E. lra. }
  rewrite Z, (is_neg_nonneg d (Qlt_le_weak _ _ Hd)).
  destruct a as [x|s|], b as [y|t|]; try discriminate; eexists _, _;
    (split; [reflexivity|]); (split; [reflexivity|]).
  - apply fle_Fin in L. apply round_float_mono.
    apply Qmult_le_compat_r; [exact L|]. apply Qlt_le_weak, Qinv_lt_0_compat. exact Hd.
  - cbn in L. destruct t; [discriminate|]. rewrite Bool.xorb_false_r.
    apply fle_to_plus_inf. apply round_float_not_nan.
  - cbn in L. subst s. rewrite Bool.xorb_false_r.
    apply fle_from_minus_inf. apply round_float_not_nan.
  - rewrite !Bool.xorb_false_r. exact L.
Qed.

Lemma fmul_mono a b c :
  (0 < c)%Q -> fle a b = true -> fle (fmul a (Fin c)) (fmul b (Fin c)) = true.
Proof.
  intros Hc L.
  assert (Z : Qeq_bool c 0 = false).
  { destruct (Qeq_bool c 0) eqn:E; [|reflexivity]. apply Qeq_bool_iff in E. lra. }
  pose proof (is_neg_nonneg c (Qlt_le_weak _ _ Hc)) as Ng.
  destruct a as [x|s|], b as [y|t|]; try discriminate; cbn [fmul];
    rewrite ?Z, ?Ng, ?Bool.xorb_false_r.
  - apply fle_Fin in L. apply round_float_mono.
    apply Qmult_le_compat_r; [exact L | apply Qlt_le_weak; exact Hc].
  - cbn in L. destruct t; [discriminate|].
    apply fle_to_plus_inf. apply round_float_not_nan.
  - cbn in L. subst s.
    apply fle_from_minus_inf. apply round_float_not_nan.
  - exact L.
Qed.

Lemma clamp_mono x y :
  fle x y = true ->
  num_le (py_max (Int 500) (py_min (Int 5000) (Float x)))
         (py_max (Int 500) (py_min (Int 5000) (Float y))) = true.
Proof.
  intros L. unfold py_max, py_min, num_gt, num_lt, num_le.
  assert (A : (inject_Z 500 < inject_Z 5000)%Q) by reflexivity.
  destruct x as [p|s|], y as [q|t|]; try discriminate; cbn [as_float_exact];
    repeat match goal with
           | |- context [flt (Fin ?a) (Fin ?b)] =>
               let E := fresh "E" in
               destruct (flt (Fin a) (Fin b)) eqn:E;
               [apply flt_Fin in E | apply flt_Fin_false in E]; cbn [as_float_exact]
           | |- context [flt (Inf ?s) (Fin ?b)] =>
               change (flt (Inf s) (Fin b)) with s; cbn [as_float_exact]
           | |- context [flt (Fin ?a) (Inf ?s)] =>
               change (flt (Fin a) (Inf s)) with (negb s); cbn [as_float_exact]
           | s : bool |- _ => destruct s; try discriminate; cbn [negb]
           end;
    try reflexivity; try (apply fle_Fin in L); try (apply fle_Fin); try lra.
Qed.

Lemma safety_margin_positive : exists c, float_lit (90 # 100) = Fin c /\ (0 < c)%Q.
Proof. eexists. split; [vm_compute; reflexivity | reflexivity]. Qed.

Lemma float_of_int_1000 : float_of_int 1000 = Ok (Fin (inject_Z 1000)).
Proof. vm_compute. reflexivity. Qed.

(** From the bits available for the video to the clamped bitrate: the more
    bits, the higher the bitrate. *)
Lemma bitrate_tail_mono d low high v_low v_high :
  (0 < d)%Q -> fle low high = true ->
  (q <- num_truediv (Float low) (Float (Fin d)) ;;
   q <- num_truediv q (Int 1000) ;;
   x <- num_mul q (Float (float_lit (90 # 100))) ;;
   Ok (py_max (Int 500) (py_min (Int 5000) x))) = Ok v_low ->
  (q <- num_truediv (Float high) (Float (Fin d)) ;;
   q <- num_truediv q (Int 1000) ;;
   x <- num_mul q (Float (float_lit (90 # 100))) ;;
   Ok (py_max (Int 500) (py_min (Int 5000) x))) = Ok v_high ->
  num_le v_low v_high = true.
Proof.
  intros Hd L. destruct safety_margin_positive as (c & Ec & Hc). rewrite Ec.
  cbn [num_truediv to_float bind].
  destruct (fdiv_mono low high d Hd L) as (q1 & q2 & -> & -> & L1).
  cbn [bind num_truediv to_float]. rewrite float_of_int_1000. cbn [bind].
  destruct (fdiv_mono q1 q2 (inject_Z 1000) ltac:(reflexivity) L1) as (r1 & r2 & -> & -> & L2).
  cbn [bind num_mul to_float]. intros [= <-] [= <-].
  apply clamp_mono. apply fmul_mono; assumption.
Qed.

(** X20. The second, "aggressive" re-encode never aims higher than the
    first: for an int budget from 1 up to 2^30 MB and a positive finite
    duration, the bitrate computed for budget * 0.95 is at most the bitrate
    computed for the budget itself. *)
Theorem aggressive_attempt_is_not_higher s d reduced v1 v2 :
  1 <= s < 2 ^ 30 -> (0 < d)%Q ->
  calculate_target_bitrate (Float (Fin d)) (Int s) (Int 128) = Ok v1 ->
  num_mul (Int s) (Float (float_lit (95 # 100))) = Ok reduced ->
  calculate_target_bitrate (Float (Fin d)) reduced (Int 128) = Ok v2 ->
  num_le v2 v1 = true.
Proof.
  intros Hs Hd E1 Er E2.
  assert (N : num_le (Float (Fin d)) (Int 0) = false).
  { unfold num_le. cbn [as_float_exact fle].
    destruct (Qle_bool d (inject_Z 0)) eqn:E; [|reflexivity].
    apply Qle_bool_iff in E. change (inject_Z 0) with 0%Q in E. lra. }
  assert (Sq : (1 <= inject_Z s)%Q) by (change 1%Q with (inject_Z 1); rewrite <- Zle_Qle; lia).
  assert (Sb : (inject_Z s < pow2 30)%Q) by (apply pow2_Zlt; lia).
  assert (P30 : (pow2 30 == 1073741824)%Q) by (vm_compute; reflexivity).
  assert (Rs : (rne (inject_Z s) == inject_Z s)%Q) by (apply rne_Z; lia).
  (* the reduced budget *)
  assert (Ec : exists c, float_lit (95 # 100) = Fin c /\ (0 < c)%Q /\ (c <= 1)%Q).
  { eexists. split; [vm_compute; reflexivity|]. split; [reflexivity | discriminate]. }
  destruct Ec as (c & Ec & C0 & C1). rewrite Ec in Er.
  cbn [num_mul to_float] in Er. rewrite float_of_int_small in Er by lia.
  cbn [bind fmul] in Er.
  assert (B0 : (Qabs (rne (inject_Z s) * c) <= pow2 30)%Q).
  { rewrite Rs, Qabs_pos by nra. nra. }
  rewrite (round_float_small _ 30) in Er by (assumption || lia).
  injection Er as <-.
  set (r := rne (rne (inject_Z s) * c)) in *.
  assert (R0 : (0 <= r)%Q) by (apply rne_nonneg; rewrite Rs; nra).
  assert (R1 : (r <= inject_Z s)%Q).
  { apply Qle_trans with (rne (inject_Z s)); [|rewrite Rs; lra].
    unfold r. apply rne_mono. rewrite Rs. nra. }
  (* the bits of the two budgets *)
  unfold calculate_target_bitrate in E1, E2. rewrite N in E1, E2.
  cbn [num_mul bind to_float] in E1, E2.
  assert (F8 : float_of_int 8 = Ok (Fin (inject_Z 8))) by (vm_compute; reflexivity).
  assert (F1024 : float_of_int 1024 = Ok (Fin (inject_Z 1024))) by (vm_compute; reflexivity).
  assert (F128 : float_of_int (128 * 1000) = Ok (Fin (inject_Z 128000)))
    by (vm_compute; reflexivity).
  rewrite F8 in E2. cbn [bind fmul] in E2.
  assert (B1 : (Qabs (r * inject_Z 8) <= pow2 33)%Q).
  { change (inject_Z 8) with 8%Q. rewrite Qabs_pos by lra.
    assert (P33 : (pow2 33 == 8 * pow2 30)%Q) by (vm_compute; reflexivity). lra. }
  rewrite (round_float_small _ 33) in E2 by (assumption || lia).
  set (r8 := rne (r * inject_Z 8)) in *.
  assert (R8 : (0 <= r8 <= inject_Z (s * 8))%Q).
  { split; [apply rne_nonneg; change (inject_Z 8) with 8%Q; lra|].
    rewrite <- (rne_Z (s * 8)) by lia. apply rne_mono.
    rewrite inject_Z_mult. change (inject_Z 8) with 8%Q. lra. }
  cbn [num_mul to_float bind] in E2. rewrite F1024 in E2. cbn [bind fmul] in E2.
  assert (S8 : (inject_Z (s * 8) < pow2 33)%Q) by (apply pow2_Zlt; lia).
  assert (B2 : (Qabs (r8 * inject_Z 1024) <= pow2 43)%Q).
  { change (inject_Z 1024) with 1024%Q. rewrite Qabs_pos by lra.
    assert (P43 : (pow2 43 == 1024 * pow2 33)%Q) by (vm_compute; reflexivity). lra. }
  rewrite (round_float_small _ 43) in E2 by (assumption || lia).
  set (r9 := rne (r8 * inject_Z 1024)) in *.
  assert (R9 : (0 <= r9 <= inject_Z (s * 8 * 1024))%Q).
  { split; [apply rne_nonneg; change (inject_Z 1024) with 1024%Q; lra|].
    rewrite <- (rne_Z (s * 8 * 1024)) by lia. apply rne_mono.
    rewrite (inject_Z_mult (s * 8)). change (inject_Z 1024) with 1024%Q. lra. }
  cbn [num_mul to_float bind] in E2. rewrite F1024 in E2. cbn [bind fmul] in E2.
  assert (S9 : (inject_Z (s * 8 * 1024) < pow2 43)%Q) by (apply pow2_Zlt; lia).
  assert (B3 : (Qabs (r9 * inject_Z 1024) <= pow2 53)%Q).
  { change (inject_Z 1024) with 1024%Q. rewrite Qabs_pos by lra.
    assert (P53 : (pow2 53 == 1024 * pow2 43)%Q) by (vm_compute; reflexivity). lra. }
  rewrite (round_float_small _ 53) in E2 by (assumption || lia).
  set (t2 := rne (r9 * inject_Z 1024)) in *.
  assert (T2 : (t2 <= rne (inject_Z (s * 8 * 1024 * 1024)))%Q).
  { apply rne_mono. rewrite (inject_Z_mult (s * 8 * 1024)).
    change (inject_Z 1024) with 1024%Q. lra. }
  (* the audio bits, the same for both *)
  cbn [num_mul to_float bind] in E1, E2. rewrite F128 in E1, E2.
  cbn [bind] in E1, E2.
  set (audio := fmul (Fin (inject_Z 128000)) (Fin d)) in *.
  assert (An : audio <> NaN) by (apply round_float_not_nan).
  cbn [num_sub to_float bind] in E1, E2.
  rewrite float_of_int_small in E1 by lia. cbn [bind] in E1.
  eapply (bitrate_tail_mono d); [exact Hd | | exact E2 | exact E1].
  apply fsub_mono; assumption.
Qed.

Lemma aggressive_attempt_is_not_higher_witness :
  exists reduced v1 v2,
    calculate_target_bitrate (Float (Fin 60)) (Int 10) (Int 128) = Ok v1 /\
    num_mul (Int 10) (Float (float_lit (95 # 100))) = Ok reduced /\
    calculate_target_bitrate (Float (Fin 60)) reduced (Int 128) = Ok v2 /\
    num_le v2 v1 = true.
Proof.
  eexists _, _, _. split; [vm_compute; reflexivity|].
  split; [vm_compute; reflexivity|]. split; [vm_compute; reflexivity|].
  eapply (aggressive_attempt_is_not_higher 10 60%Q);
    [lia | reflexivity | vm_compute; reflexivity | vm_compute; reflexivity
     | vm_compute; reflexivity].
Defined.

(** ** The batch *)




(** ** The name of the output file *)

Lemma list_ascii_of_string_app a b :
  list_ascii_of_string (a ++ b) = (list_ascii_of_string a ++ list_ascii_of_string b)%list.
Proof. induction a as [|c a IH]; cbn; [reflexivity|]. now rewrite IH. Qed.

Lemma last_dot_app a b :
  forall i seen found,
    last_dot (a ++ b) i seen found
    = last_dot b (i + List.length a)
               (seen || existsb (fun c => negb (Ascii.eqb c ".")) a)
               (last_dot a i seen found).
Proof.
  induction a as [|c a IH]; intros i seen found; cbn [app last_dot List.length existsb].
  - rewrite Nat.add_0_r, Bool.orb_false_r. reflexivity.
  - destruct (Ascii.eqb c "."); cbn [negb orb]; rewrite IH.
    + f_equal. lia.
    + rewrite Bool.orb_true_r. f_equal. lia.
Qed.

Lemma last_dot_no_dots b :
  forall i seen found, ~ In "."%char b -> last_dot b i seen found = found.
Proof.
  induction b as [|c b IH]; intros i seen found N; cbn [last_dot]; [reflexivity|].
  destruct (Ascii.eqb_spec c ".") as [->|D].
  - exfalso. apply N. left. reflexivity.
  - apply IH. intros I. apply N. right. exact I.
Qed.

(** [os.path.splitext] takes off the last extension of a name whose stem is
    more than dots. *)
Lemma splitext_root_of_stem stem ext :
  (exists c, In c (list_ascii_of_string stem) /\ c <> "."%char) ->
  ~ In "."%char (list_ascii_of_string ext) ->
  splitext_root (stem ++ "." ++ ext) = stem.
Proof.
  intros (c & I & D) N. unfold splitext_root.
  rewrite list_ascii_of_string_app.
  change (list_ascii_of_string ("." ++ ext)) with ("."%char :: list_ascii_of_string ext).
  rewrite last_dot_app. cbn [last_dot orb].
  assert (X : existsb (fun c => negb (Ascii.eqb c ".")) (list_ascii_of_string stem) = true).
  { apply existsb_exists. exists c. split; [exact I|].
    destruct (Ascii.eqb_spec c "."); [contradiction | reflexivity]. }
  rewrite X, Ascii.eqb_refl. rewrite last_dot_no_dots by exact N.
  cbn [Nat.add]. rewrite firstn_app, Nat.sub_diag, firstn_all, firstn_O, app_nil_r.
  apply string_of_list_ascii_of_string.
Qed.

(** X22. The output file is named after the stem of the input name alone:
    for an input [stem.ext] (a stem that is more than dots, an extension
    without a dot) the encode writes to
    [os.path.join(output_folder, stem + '.' + output_format)], whatever the
    extension is, so inputs that differ in their extension only are written
    to the same output file. *)
Theorem output_name_ignores_extension output_folder output_codec output_format
        system_info max_output_size_mb stem ext video_path w :
  (exists c, In c (list_ascii_of_string stem) /\ c <> "."%char) ->
  ~ In "."%char (list_ascii_of_string ext) ->
  forall v m b o plan lim cs,
    In (Spawned (Encode v m b o plan lim cs))
       (skipn (List.length (log w))
              (log (snd (process_file output_folder output_codec output_format system_info
                                      max_output_size_mb (stem ++ "." ++ ext) video_path w)))) ->
    o = path_join output_folder (stem ++ "." ++ output_format).
Proof.
  intros Hs He v m b o plan lim cs I.
  apply encode_in_file_log in I. apply planned_encode_Some in I.
  destruct I as (info & tmpdir & plan' & eff & _ & _ & _ & _ & I).
  injection I as _ _ _ -> _ _ _.
  exact (f_equal (fun s => path_join output_folder (s ++ "." ++ output_format))
                 (splitext_root_of_stem stem ext Hs He)).
Qed.

Lemma output_name_ignores_extension_witness :
  exists v m b o plan lim cs,
    In (Spawned (Encode v m b o plan lim cs))
       (skipn (List.length (log world_8k))
              (log (snd (process_file "out/" "h264" "mp4" videotoolbox_host (Int 10)
                                      ("clip" ++ "." ++ "mov") "in/clip.mov" world_8k)))) /\
    o = path_join "out/" ("clip" ++ "." ++ "mp4") /\
    path_join "out/" ("clip" ++ "." ++ "mp4") = "out/clip.mp4".
Proof.
  eexists _, _, _, _, _, _, _.
  assert (I : In (Spawned (Encode _ _ _ _ _ _ _))
       (skipn (List.length (log world_8k))
              (log (snd (process_file "out/" "h264" "mp4" videotoolbox_host (Int 10)
                                      ("clip" ++ "." ++ "mov") "in/clip.mov" world_8k)))))
    by (vm_compute; left; reflexivity).
  split; [exact I|]. split; [|reflexivity].
  apply (output_name_ignores_extension "out/" "h264" "mp4" videotoolbox_host (Int 10)
           "clip" "mov" "in/clip.mov" world_8k) in I; [exact I | | ].
  - exists "c"%char. split; [left; reflexivity | discriminate].
  - cbn. intros [H|[H|[H|[]]]]; discriminate.
Defined.
